(** * bioptim: mapping and optimization-vector bookkeeping

    A shallow embedding of [bioptim/misc/mapping.py] and
    [bioptim/optimization/optimization_vector.py].  Python exceptions are
    values of [exn] carried by [result]; Python lists are lists indexed the
    Python way (a negative index counts from the end, an index out of range
    raises [IndexError]); dictionaries are association lists in insertion
    order. *)

From Stdlib Require Import ZArith Lia.
From stdpp Require Import base list strings numbers.

Local Open Scope Z_scope.

(** ** Python exceptions and results *)

Inductive exn : Set :=
| TypeError | ValueError | RuntimeError | IndexError | KeyError
| Warning | NotImplementedError.

Inductive result (A : Type) : Type :=
| Ok (a : A)
| Raise (e : exn).
Arguments Ok {A} a.
Arguments Raise {A} e.

Definition bind {A B} (m : result A) (f : A -> result B) : result B :=
  match m with Ok a => f a | Raise e => Raise e end.

Notation "'let!' x := m 'in' k" := (bind m (fun x => k))
  (at level 10, x pattern, m at level 100, k at level 200).

Definition raises {A} (m : result A) : Prop := exists e, m = Raise e.

Definition is_ok {A} (m : result A) : bool :=
  match m with Ok _ => true | Raise _ => false end.

(** ** Python sequences *)

(** [py_index n i]: the position that index [i] denotes in a sequence of
    length [n], if any. *)
Definition py_index (n : nat) (i : Z) : option nat :=
  if (0 <=? i) && (i <? Z.of_nat n) then Some (Z.to_nat i)
  else if (- Z.of_nat n <=? i) && (i <? 0) then Some (Z.to_nat (Z.of_nat n + i))
  else None.

(** [l[i]] *)
Definition py_get {A} (l : list A) (i : Z) : result A :=
  match py_index (length l) i with
  | Some k => match l !! k with Some x => Ok x | None => Raise IndexError end
  | None => Raise IndexError
  end.

(** [l[i] = x] *)
Definition py_set {A} (l : list A) (i : Z) (x : A) : result (list A) :=
  match py_index (length l) i with
  | Some k => Ok (<[k:=x]> l)
  | None => Raise IndexError
  end.

(** [list(range(a, b))] *)
Definition py_range (a b : nat) : list Z :=
  (fun i => Z.of_nat i) <$> seq a (b - a).

(** [for x in l: st = f st x], stopping at the first exception. *)
Fixpoint foldM {A S} (f : S -> A -> result S) (l : list A) (st : S) : result S :=
  match l with
  | [] => Ok st
  | x :: l' => let! st' := f st x in foldM f l' st'
  end.

(** ** Dictionaries (insertion ordered, string keys) *)

Abbreviation dict V := (list (string * V)).

Fixpoint dict_get {V} (d : dict V) (k : string) : option V :=
  match d with
  | [] => None
  | (k', v) :: d' => if String.eqb k' k then Some v else dict_get d' k
  end.

(** [d[k] = v]: an existing key keeps its place, a new one goes last. *)
Fixpoint dict_set {V} (d : dict V) (k : string) (v : V) : dict V :=
  match d with
  | [] => [(k, v)]
  | (k', v') :: d' =>
      if String.eqb k' k then (k', v) :: d' else (k', v') :: dict_set d' k v
  end.

Definition dict_keys {V} (d : dict V) : list string := fst <$> d.

(** [d[k]] *)
Definition dict_item {V} (d : dict V) (k : string) : result V :=
  match dict_get d k with Some v => Ok v | None => Raise KeyError end.

Definition dict_mem {V} (d : dict V) (k : string) : bool :=
  match dict_get d k with Some _ => true | None => false end.

(** ** mapping.py: [Mapping] *)

Module Mapping.

(** The [oppose] argument of the constructor: absent, one [int], or a
    sequence of indices. *)
Inductive oppose_arg : Type :=
| OpposeNone
| OpposeInt (i : Z)
| OpposeSeq (l : list Z).

Record t : Type := Build
  { map_idx : list (option Z);
    oppose : list Z }.

(** [Mapping.__init__] *)
Definition init (idx : list (option Z)) (opp : oppose_arg) : result t :=
  let ones := replicate (length idx) 1 in
  match opp with
  | OpposeNone => Ok (Build idx ones)
  | _ =>
      let l := match opp with OpposeInt i => [i] | OpposeSeq l => l | OpposeNone => [] end in
      let! o := foldM (fun o i => py_set o i (-1)) l ones in
      Ok (Build idx o)
  end.

(** [Mapping.__len__] *)
Definition len (m : t) : nat := length (map_idx m).

(** Arrays: a matrix is its column count and its rows. *)
Record matrix (T : Type) : Type := Matrix
  { ncols : nat;
    rows : list (list T) }.
Arguments Matrix {T} ncols rows.
Arguments ncols {T} m.
Arguments rows {T} m.

Inductive shape (T : Type) : Type :=
| Vec (v : list T)
| Mat (m : matrix T).
Arguments Vec {T} v.
Arguments Mat {T} m.

Inductive casadi_kind : Set := MX | SX | DM.

(** What [map] can be handed: a tuple or list, a numpy array (both 1-D or
    2-D), a casadi matrix (always 2-D), or any other Python object. *)
Inductive pyobj (T : Type) : Type :=
| Sequence (s : shape T)
| NdArray (s : shape T)
| Casadi (k : casadi_kind) (m : matrix T)
| Other.
Arguments Sequence {T} s.
Arguments NdArray {T} s.
Arguments Casadi {T} k m.
Arguments Other {T}.

Definition wf_matrix {T} (m : matrix T) : Prop :=
  Forall (fun r => length r = ncols m) (rows m).

Section Map.
Context {T : Type} (zero : T) (neg : T -> T).

(** [obj[:, np.newaxis]] for a 1-D array, the matrix itself otherwise. *)
Definition as_matrix (s : shape T) : matrix T :=
  match s with
  | Vec v => Matrix 1 ((fun x => [x]) <$> v)
  | Mat m => m
  end.

Definition zeros (r c : nat) : list (list T) := replicate r (replicate c zero).

(** The four index lists gathered by the [enumerate] loop. *)
Record buckets : Type := Buckets
  { plus_in_origin : list Z; plus_in_new : list nat;
    minus_in_origin : list Z; minus_in_new : list nat }.

Definition sort_index (opp : list Z) (b : buckets) (iv : nat * option Z)
  : result buckets :=
  let '(i, v) := iv in
  match v with
  | None => Ok b
  | Some j =>
      let! o := py_get opp (Z.of_nat i) in
      if 0 <? o then
        Ok (Buckets (plus_in_origin b ++ [j]) (plus_in_new b ++ [i])
                    (minus_in_origin b) (minus_in_new b))
      else if o <? 0 then
        Ok (Buckets (plus_in_origin b) (plus_in_new b)
                    (minus_in_origin b ++ [j]) (minus_in_new b ++ [i]))
      else Ok b
  end.

(** [obj[idx, :]] *)
Fixpoint take_rows (m : list (list T)) (idx : list Z) : result (list (list T)) :=
  match idx with
  | [] => Ok []
  | j :: idx' => let! r := py_get m j in let! rs := take_rows m idx' in Ok (r :: rs)
  end.

(** [out[new, :] = src] *)
Definition assign_rows (out : list (list T)) (new : list nat) (src : list (list T))
  : list (list T) :=
  fold_left (fun o ir => <[ir.1 := ir.2]> o) (zip new src) out.

Definition map_matrix (m : t) (obj : matrix T) : result (matrix T) :=
  let mapped_obj := zeros (length (map_idx m)) (ncols obj) in
  let! b := foldM (sort_index (oppose m)) (imap pair (map_idx m)) (Buckets [] [] [] []) in
  let! p := take_rows (rows obj) (plus_in_origin b) in
  let mapped_obj := assign_rows mapped_obj (plus_in_new b) p in
  let! q := take_rows (rows obj) (minus_in_origin b) in
  let mapped_obj := assign_rows mapped_obj (minus_in_new b) (List.map (List.map neg) q) in
  Ok (Matrix (ncols obj) mapped_obj).

(** [Mapping.map] *)
Definition map (m : t) (obj : pyobj T) : result (pyobj T) :=
  match obj with
  | Sequence s | NdArray s => let! r := map_matrix m (as_matrix s) in Ok (NdArray (Mat r))
  | Casadi k x => let! r := map_matrix m x in Ok (Casadi k r)
  | Other => Raise RuntimeError
  end.

(** The 2-D view of a supported input, and of an output. *)
Definition matrix_of (obj : pyobj T) : option (matrix T) :=
  match obj with
  | Sequence s | NdArray s => Some (as_matrix s)
  | Casadi _ x => Some x
  | Other => None
  end.

(** Same container family: numpy for sequences and arrays, the same
    casadi type otherwise. *)
Definition same_kind (obj out : pyobj T) : bool :=
  match obj, out with
  | (Sequence _ | NdArray _), NdArray (Mat _) => true
  | Casadi k _, Casadi k' _ =>
      match k, k' with MX, MX | SX, SX | DM, DM => true | _, _ => false end
  | _, _ => false
  end.
End Map.

End Mapping.

(** ** options.py: [OptionGeneric] and [OptionDict] *)

Module OptionDict.

(** [self.options]: one dictionary per phase. *)
Abbreviation t V := (list (dict V)).

(** [OptionDict.__init__] *)
Definition init {V} : t V := [[]].

(** Modelled from the spec: [OptionGeneric.__init__], which is not in the
    sources.  The spec gives phase index [-1] as the "all phases" sentinel
    and speaks of mappings flagged "automatic": an option created with
    [phase = -1] is flagged [automatic_multiple_phase] and filed under
    phase 0, any other keeps its phase and is not flagged. *)
Definition generic_phase (phase : Z) : Z * bool :=
  if phase =? -1 then (0, true) else (phase, false).

(** Modelled from the spec: [OptionDict._add], which is not in the sources.
    It registers the option built by [option_type(phase=phase, ...)] under
    [key] in the dictionary of [phase], after growing [self.options] with
    empty dictionaries up to that phase. *)
Definition _add {V} (self : t V) (key : string) (phase : Z)
    (option_type : Z -> result V) : result (t V) :=
  let self := self ++ replicate (Z.to_nat (phase + 1) - length self) [] in
  let! v := option_type phase in
  let! d := py_get self phase in
  py_set self phase (dict_set d key v).

(** Modelled from the spec: [OptionDict.__getitem__] on a phase number,
    which is not in the sources: the dictionary of that phase. *)
Definition getitem {V} (self : t V) (phase : Z) : result (dict V) :=
  py_get self phase.

End OptionDict.

(** ** mapping.py: [BiMapping] and [BiMappingList] *)

Module BiMapping.

(** What [to_second] / [to_first] can be: absent, an [int], an index
    sequence (list, tuple or range), or a [Mapping]. *)
Inductive map_arg : Type :=
| ArgNone
| ArgInt (i : Z)
| ArgSeq (l : list (option Z))
| ArgMapping (m : Mapping.t).

Record t : Type := Build
  { phase : Z;
    automatic_multiple_phase : bool;
    to_second : Mapping.t;
    to_first : Mapping.t }.

Definition wrap (a : map_arg) (opp : Mapping.oppose_arg) : result map_arg :=
  match a with
  | ArgSeq l => let! m := Mapping.init l opp in Ok (ArgMapping m)
  | _ => Ok a
  end.

(** [BiMapping.__init__(to_second, to_first, oppose_to_second,
    oppose_to_first, phase=phase)] *)
Definition init (ph : Z) (to_second to_first : map_arg)
    (oppose_to_second oppose_to_first : Mapping.oppose_arg) : result t :=
  let '(ph, auto) := OptionDict.generic_phase ph in
  let! to_second := wrap to_second oppose_to_second in
  let! to_first := wrap to_first oppose_to_first in
  match to_second with
  | ArgMapping s =>
      match to_first with
      | ArgMapping f => Ok (Build ph auto s f)
      | _ => Raise RuntimeError
      end
  | _ => Raise RuntimeError
  end.

Definition set_phase (b : t) (ph : Z) : t :=
  Build ph (automatic_multiple_phase b) (to_second b) (to_first b).

End BiMapping.

Module BiMappingList.

Abbreviation t := (OptionDict.t BiMapping.t).

Definition is_none (a : BiMapping.map_arg) : bool :=
  match a with BiMapping.ArgNone => true | _ => false end.

(** The [else] branch of [add]: no [BiMapping] was passed. *)
Definition add_maps (self : t) (name : string)
    (to_second to_first : BiMapping.map_arg)
    (oppose_to_second oppose_to_first : Mapping.oppose_arg) (phase : Z) : result t :=
  if is_none to_second || is_none to_first then Raise ValueError
  else OptionDict._add self name phase
         (fun ph => BiMapping.init ph to_second to_first oppose_to_second oppose_to_first).

(** [BiMappingList.add]; the call it makes to itself passes no
    [bimapping], so it runs the [else] branch. *)
Definition add (self : t) (name : string)
    (to_second to_first : BiMapping.map_arg)
    (oppose_to_second oppose_to_first : Mapping.oppose_arg)
    (bimapping : option BiMapping.t) (phase : Z) : result t :=
  match bimapping with
  | Some b =>
      if negb (is_none to_second) || negb (is_none to_first) then Raise ValueError
      else add_maps self name
             (BiMapping.ArgMapping (BiMapping.to_second b))
             (BiMapping.ArgMapping (BiMapping.to_first b))
             oppose_to_second oppose_to_first phase
  | None =>
      add_maps self name to_second to_first oppose_to_second oppose_to_first phase
  end.

(** The body of [for i_phase in range(n_phases)], for the entry [key] of
    [mappings = self.options[d]]. *)
Definition fill_phase (d : nat) (key : string) (self : t) (i_phase : nat) : result t :=
  let! mappings := py_get self (Z.of_nat d) in
  let! b := dict_item mappings key in
  match i_phase with
  | O => py_set self (Z.of_nat d) (dict_set mappings key (BiMapping.set_phase b 0))
  | S _ =>
      add self key BiMapping.ArgNone BiMapping.ArgNone
          Mapping.OpposeNone Mapping.OpposeNone (Some b) (Z.of_nat i_phase)
  end.

(** The body of [for key in mappings]. *)
Definition fill_key (n_phases : nat) (d : nat) (self : t) (key : string) : result t :=
  let! mappings := py_get self (Z.of_nat d) in
  let! b := dict_item mappings key in
  if BiMapping.automatic_multiple_phase b
  then foldM (fill_phase d key) (seq 0 n_phases) self
  else Ok self.

(** The body of [for mappings in self.options].  The loop over the keys
    only ever replaces values of the dictionary it walks, so the keys it
    visits are those the dictionary has when the walk starts. *)
Definition fill_dict (n_phases : nat) (d : nat) (self : t) : result t :=
  let! mappings := py_get self (Z.of_nat d) in
  foldM (fill_key n_phases d) (dict_keys mappings) self.

(** [for mappings in self.options] walks the list by position while [add]
    may lengthen it; [fuel] bounds the number of rounds. *)
Fixpoint fill_from (n_phases : nat) (fuel : nat) (d : nat) (self : t) : result t :=
  match fuel with
  | O => Ok self
  | S fuel =>
      if (d <? length self)%nat
      then let! self := fill_dict n_phases d self in fill_from n_phases fuel (S d) self
      else Ok self
  end.

(** [BiMappingList.variable_mapping_fill_phases]; the list never grows
    beyond [max (len(self.options)) n_phases] dictionaries. *)
Definition variable_mapping_fill_phases (self : t) (n_phases : nat) : result t :=
  fill_from n_phases (Nat.max (length self) n_phases) 0 self.

(** [item in self] *)
Definition contains (self : t) (item : string) : result bool :=
  let! d := py_get self 0 in Ok (dict_mem d item).

End BiMappingList.

(** ** mapping.py: [NodeMapping], [NodeMappingIndex], [NodeMappingList] *)

Module NodeMapping.

Record t : Type := Build
  { phase : Z;
    automatic_multiple_phase : bool;
    map_states : bool;
    map_controls : bool;
    phase_pre : Z;
    phase_post : Z;
    index : option (list Z);
    variable_mapping : BiMapping.t }.

End NodeMapping.

Module NodeMappingIndex.

Record t : Type := Build
  { phase : Z;
    index : option (list Z);
    variable_mapped_index : option (list (option Z)) }.

(** [NodeMappingIndex.__init__] *)
Definition init (phase : Z) (index : option (list Z))
    (variable_mapped_index : option (list (option Z))) : t :=
  match variable_mapped_index with
  | None => Build phase index (option_map (List.map Some) index)
  | Some _ => Build phase index variable_mapped_index
  end.

End NodeMappingIndex.

Module NodeMappingList.

Abbreviation t := (OptionDict.t NodeMapping.t).

(** The [variable_mapping] argument: [None], a [BiMappingList], or an
    object of another type. *)
Inductive mapping_arg : Type :=
| VmNone
| VmList (l : BiMappingList.t)
| VmOther.

(** [variable_mapping[phase_pre][name]] *)
Definition subscript (vm : mapping_arg) (phase_pre : Z) (name : string)
  : result BiMapping.t :=
  match vm with
  | VmNone => Raise TypeError
  | VmList l => let! d := OptionDict.getitem l phase_pre in dict_item d name
  | VmOther => Raise TypeError
  end.

(** [NodeMappingList.add] *)
Definition add (self : t) (name : string) (map_states map_controls : bool)
    (phase_pre phase_post : option Z) (index : option (list Z))
    (variable_mapping : mapping_arg) : result t :=
  if negb map_states && negb map_controls then Raise Warning
  else if map_states && map_controls then Raise ValueError
  else match phase_pre, phase_post with
  | Some pre, Some post =>
      if post <? pre then Raise ValueError
      else match variable_mapping with
      | VmOther => Raise ValueError
      | _ =>
          let! b := subscript variable_mapping pre name in
          OptionDict._add self name pre
            (fun ph => let '(ph, auto) := OptionDict.generic_phase ph in
                       Ok (NodeMapping.Build ph auto map_states map_controls
                             pre post index b))
      end
  | _, _ => Raise ValueError
  end.

(** [[mapping.to_second.map_idx[j] for j in index]] *)
Fixpoint mapped_indices (map_idx : list (option Z)) (index : list Z)
  : result (list (option Z)) :=
  match index with
  | [] => Ok []
  | j :: index' =>
      let! v := py_get map_idx j in
      let! vs := mapped_indices map_idx index' in Ok (v :: vs)
  end.

Definition node_mapping_index (nm : NodeMapping.t) : result NodeMappingIndex.t :=
  match NodeMapping.index nm with
  | None => Raise TypeError
  | Some index =>
      let! vmi := mapped_indices
                    (Mapping.map_idx (BiMapping.to_second (NodeMapping.variable_mapping nm)))
                    index in
      Ok (NodeMappingIndex.init (NodeMapping.phase_pre nm) (Some index) (Some vmi))
  end.

(** [tables[phase_post][key] = entry] *)
Definition publish (tables : list (dict NodeMappingIndex.t)) (phase_post : Z)
    (key : string) (entry : NodeMappingIndex.t)
  : result (list (dict NodeMappingIndex.t)) :=
  let! d := py_get tables phase_post in
  py_set tables phase_post (dict_set d key entry).

Definition tables : Type :=
  list (dict NodeMappingIndex.t) * list (dict NodeMappingIndex.t)
  * list (dict NodeMappingIndex.t).

Definition resolve_entry (acc : tables) (kv : string * NodeMapping.t) : result tables :=
  let '(states, states_dot, controls) := acc in
  let '(key, nm) := kv in
  let! acc1 :=
    if NodeMapping.map_states nm then
      let! e := node_mapping_index nm in
      let! states := publish states (NodeMapping.phase_post nm) key e in
      let! e := node_mapping_index nm in
      let! states_dot := publish states_dot (NodeMapping.phase_post nm) key e in
      Ok (states, states_dot)
    else Ok (states, states_dot) in
  let '(states, states_dot) := acc1 in
  if NodeMapping.map_controls nm then
    let! e := node_mapping_index nm in
    let! controls := publish controls (NodeMapping.phase_post nm) key e in
    Ok (states, states_dot, controls)
  else Ok (states, states_dot, controls).

(** [NodeMappingList.get_variable_from_phase_idx]: the three tables it
    returns (and hands to each phase's record). *)
Definition get_variable_from_phase_idx (self : t) (n_phases : nat) : result tables :=
  let empty := replicate n_phases [] in
  foldM (fun acc node_mapping => foldM resolve_entry node_mapping acc)
        self (empty, empty, empty).

End NodeMappingList.

(** ** casadi symbols *)

Module Casadi.

(** The name handed to [sym]: for a node variable the string
    [prefix + str(phase) + "_" + str(k) + "_" + str(liberty)], for a
    parameter its name. *)
Inductive sym_name : Type :=
| NodeName (prefix : string) (phase k liberty : nat)
| ParamName (name : string).

(** A symbol as [cx.sym(name, rows, cols)] returns it.  Two calls give two
    objects even under one name; [sym_id] is the rank of the call. *)
Record sym : Type := Sym
  { sym_id : nat;
    sym_label : sym_name;
    sym_rows : nat;
    sym_cols : nat }.

(** One scalar element of a symbol. *)
Record entry : Type := Entry
  { of_sym : sym;
    at_row : nat;
    at_col : nat }.

(** A symbolic matrix, column by column. *)
Record matrix : Type := Mx
  { nrows : nat;
    columns : list (list entry) }.

Definition is_empty (m : matrix) : bool :=
  (nrows m =? 0)%nat || (length (columns m) =? 0)%nat.

(** [vertcat] of a list of row symbols ([1 x w]); they must agree on [w].  With
    nothing to stack the result is the empty [0 x 1] matrix. *)
Definition vertcat (l : list sym) : result matrix :=
  match l with
  | [] => Ok (Mx 0 [[]])
  | s :: _ =>
      if forallb (fun s' => (sym_cols s' =? sym_cols s)%nat) l
      then Ok (Mx (length l)
                  ((fun c => (fun s' => Entry s' 0 c) <$> l) <$> seq 0 (sym_cols s)))
      else Raise RuntimeError
  end.

(** [horzcat(a, b)]: empty operands are skipped, the others must agree on
    their row count. *)
Definition horzcat (a b : matrix) : result matrix :=
  if is_empty b then Ok a
  else if is_empty a then Ok b
  else if (nrows a =? nrows b)%nat then Ok (Mx (nrows a) (columns a ++ columns b))
  else Raise RuntimeError.

(** [m[i, j]] *)
Definition item (m : matrix) (i j : nat) : result entry :=
  match columns m !! j with
  | Some col => match col !! i with Some e => Ok e | None => Raise IndexError end
  | None => Raise IndexError
  end.

(** [shape[0]] *)
Definition shape0 (m : matrix) : nat := nrows m.

(** A column symbol ([rows x 1]) as the list of its elements. *)
Definition column (s : sym) : list entry := (fun r => Entry s r 0) <$> seq 0 (sym_rows s).

End Casadi.

(** ** optimization_vector.py *)

Module OptimizationVector.

Import Casadi.

Inductive ControlType : Set := CONSTANT | LINEAR_CONTINUOUS | OTHER_CONTROL.

Definition is_constant (c : ControlType) : bool :=
  match c with CONSTANT => true | _ => false end.

Definition is_linear_continuous (c : ControlType) : bool :=
  match c with LINEAR_CONTINUOUS => true | _ => false end.

(** The [ode_solver] descriptor of a phase, as far as this file reads it:
    the fields named in the code, and whether the object is an instance of
    [OdeSolver.COLLOCATION] and of [OdeSolver.IRK]. *)
Record OdeSolver : Type := Ode
  { is_direct_collocation : bool;
    is_direct_shooting : bool;
    polynomial_degree : nat;
    steps : nat;
    instance_of_collocation : bool;
    instance_of_irk : bool }.

(** One element of [nlp.states.optimization_variable['scaled'].elements]:
    its name and [cx.shape[0]]. *)
Record element : Type := Element
  { el_name : string;
    el_size : nat }.

(** [nlp.states.shape]: the rows of all the elements together. *)
Definition shape (els : list element) : nat := sum_list (el_size <$> els).

(** [liberty in index_variable_mapped] *)
Definition py_in (x : Z) (l : list (option Z)) : bool :=
  existsb (fun o => match o with Some y => x =? y | None => false end) l.

(** [v[a:b]] *)
Definition py_slice {A} (v : list A) (a b : Z) : list A :=
  let n := Z.of_nat (length v) in
  let clamp i := if i <? 0 then Z.max (i + n) 0 else Z.min i n in
  let a := clamp a in
  let b := clamp b in
  take (Z.to_nat (b - a)) (drop (Z.to_nat a) v).

(** [v.reshape((r, -1), order="F")], as the list of its [r] rows: element
    [(i, j)] is [v[j * r + i]]. *)
Definition reshape_F {A} (r : nat) (v : list A) : result (list (list A)) :=
  if (r =? 0)%nat then Raise ValueError
  else if (length v mod r =? 0)%nat then
    Ok ((fun i => omap (fun j => v !! (j * r + i)%nat) (seq 0 (length v / r))) <$> seq 0 r)
  else Raise ValueError.

(** The index lists gathered over the elements of a phase, with the phase
    the variables come from and whether any element is aliased. *)
Record aggregate : Type := Agg
  { agg_index : list Z;
    agg_mapped : list (option Z);
    agg_current : nat;
    agg_use : Z;
    agg_any : bool }.

(** The body of [for i, element in enumerate(...elements)]. *)
Definition aggregate_step (table : dict NodeMappingIndex.t) (a : aggregate)
    (el : element) : result aggregate :=
  let own := py_range (agg_current a) (agg_current a + el_size el) in
  let plain := Agg (agg_index a ++ own) (agg_mapped a ++ (Some <$> own))
                   (agg_current a + el_size el) (agg_use a) (agg_any a) in
  match dict_get table (el_name el) with
  | Some nmi =>
      match NodeMappingIndex.variable_mapped_index nmi with
      | Some mapped =>
          match NodeMappingIndex.index nmi with
          | Some index =>
              Ok (Agg (agg_index a ++ index) (agg_mapped a ++ mapped)
                      (agg_current a + el_size el) (NodeMappingIndex.phase nmi) true)
          | None => Raise TypeError
          end
      | None => Ok plain
      end
  | None => Ok plain
  end.

Definition aggregate_elements (table : dict NodeMappingIndex.t) (p : nat)
    (els : list element) : result aggregate :=
  foldM (aggregate_step table) els (Agg [] [] 0 (Z.of_nat p) false).

(** The table after [nlp.states_phase_mapping_idx['all'] = NodeMappingIndex(...)]. *)
Definition with_all (table : dict NodeMappingIndex.t) (a : aggregate)
  : dict NodeMappingIndex.t :=
  if agg_any a
  then dict_set table "all"
         (NodeMappingIndex.init (agg_use a) (Some (agg_index a)) (Some (agg_mapped a)))
  else table.

(** [table[use][k][liberty]] while phase [p] is being filled: [table] holds
    [p + 1] phases, the last one being the phase in progress, whose node [k]
    is the list [current]. *)
Definition source_entry {A} (previous : list (list (list A))) (p : nat)
    (current : list A) (use : Z) (k liberty : nat) : result A :=
  match py_index (p + 1) use with
  | Some j =>
      if (j =? p)%nat then py_get current (Z.of_nat liberty)
      else
        let! nodes := py_get previous (Z.of_nat j) in
        let! node := py_get nodes (Z.of_nat k) in
        py_get node (Z.of_nat liberty)
  | None => Raise IndexError
  end.

Section Numbers.

(** The numbers (scaling factors, bounds, solver output) are only stored,
    moved and handed to the collaborators here; their type is left open. *)
Context {R : Type}.

(** An unscaled variable: [x_scaled * scaling[i]]. *)
Inductive expr : Type :=
| Scaled (s : sym) (factor : R).

(** A user path condition (bounds or initial guess of a phase) as this file
    uses it: its row count and [evaluate_at(shooting_point)]. *)
Record path : Type := Path
  { path_rows : nat;
    evaluate_at : nat -> list R }.

(** The record of a phase: what the file reads from it, and the fields
    [define_ocp_shooting_points] writes.  [phase_idx] is the position of the
    record in [ocp.nlp]. *)
Record nlp : Type := Nlp
  { ns : nat;
    control_type : ControlType;
    ode_solver : OdeSolver;
    states : list element;
    controls : list element;
    states_phase_mapping_idx : dict NodeMappingIndex.t;
    controls_phase_mapping_idx : dict NodeMappingIndex.t;
    x_scaling : list R;
    u_scaling : list R;
    x_bounds_min : path;
    x_bounds_max : path;
    u_bounds_min : path;
    u_bounds_max : path;
    use_states_from_phase : Z;
    use_controls_from_phase : Z;
    X : list (list expr);
    X_scaled : list (list sym);
    U : list (list expr);
    U_scaled : list (list sym) }.

(** The lists filled for one node, the rank of the next symbol, and
    [new_variable_count]. *)
Record node : Type := Node
  { scaled : list sym;
    unscaled : list expr;
    next_sym : nat;
    new_variable_count : nat }.

(** Is node [k] a collocation node ([k != nlp.ns and
    nlp.ode_solver.is_direct_collocation])? *)
Definition collocated (ph : nlp) (k : nat) : bool :=
  negb (k =? ns ph)%nat && is_direct_collocation (ode_solver ph).

(** The columns of a fresh state symbol at node [k]. *)
Definition width (ph : nlp) (k : nat) : nat :=
  if collocated ph k then polynomial_degree (ode_solver ph) + 1 else 1.

(** Append a fresh symbol and its unscaled counterpart, read back as
    [x_scaled[phase][k][liberty] * scaling[i]]. *)
Definition allocate (a : node) (label : sym_name) (cols : nat) (liberty : nat)
    (scaling : list R) (i : nat) (count : nat) : result node :=
  let column := scaled a ++ [Sym (next_sym a) label 1 cols] in
  let! s := py_get column (Z.of_nat liberty) in
  let! f := py_get scaling (Z.of_nat i) in
  Ok (Node column (unscaled a ++ [Scaled s f]) (S (next_sym a)) count).

(** States of a phase that owns them: the body of [for liberty in
    range(nlp.states.shape)] under [nlp.phase_idx == use_states_from_phase]. *)
Definition own_state (ph : nlp) (p k : nat) (a : node) (liberty : nat) : result node :=
  if collocated ph k
  then allocate a (NodeName "X_scaled" p k liberty)
         (polynomial_degree (ode_solver ph) + 1) liberty (x_scaling ph) liberty
         (new_variable_count a)
  else allocate a (NodeName "X_scaled_" p k liberty) 1 liberty (x_scaling ph) liberty
         (new_variable_count a).

(** States of an aliasing phase: the body of the same loop under [else]. *)
Definition alias_state (ph : nlp) (p k : nat) (use : Z) (mapped : list (option Z))
    (x : list (list (list expr))) (x_scaled : list (list (list sym)))
    (a : node) (liberty : nat) : result node :=
  if py_in (Z.of_nat liberty) mapped then
    let! s := source_entry x_scaled p (scaled a) use k liberty in
    let column := scaled a ++ [s] in
    let! e := source_entry x p (unscaled a) use k liberty in
    Ok (Node column (unscaled a ++ [e]) (next_sym a) (new_variable_count a))
  else if collocated ph k
  then allocate a (NodeName "X_scaled" p k liberty)
         (polynomial_degree (ode_solver ph) + 1) liberty (x_scaling ph)
         (new_variable_count a) (new_variable_count a)
  else allocate a (NodeName "X_scaled" p k liberty) 1 liberty (x_scaling ph)
         (new_variable_count a) (S (new_variable_count a)).

(** [nlp.control_type != CONSTANT or (nlp.control_type == CONSTANT and
    k != nlp.ns)] *)
Definition has_control (ph : nlp) (k : nat) : bool :=
  negb (is_constant (control_type ph))
  || (is_constant (control_type ph) && negb (k =? ns ph)%nat).

Definition own_control (ph : nlp) (p k : nat) (a : node) (liberty : nat) : result node :=
  if has_control ph k
  then allocate a (NodeName "U_scaled" p k liberty) 1 liberty (u_scaling ph) liberty
         (new_variable_count a)
  else Ok a.

Definition alias_control (ph : nlp) (p k : nat) (use : Z) (mapped : list (option Z))
    (u : list (list (list expr))) (u_scaled : list (list (list sym)))
    (a : node) (liberty : nat) : result node :=
  if has_control ph k then
    if py_in (Z.of_nat liberty) mapped then
      let! s := source_entry u_scaled p (scaled a) use k liberty in
      let column := scaled a ++ [s] in
      let! e := source_entry u p (unscaled a) use k liberty in
      Ok (Node column (unscaled a ++ [e]) (next_sym a) (new_variable_count a))
    else allocate a (NodeName "U_scaled" p k liberty) 1 liberty (u_scaling ph)
           (new_variable_count a) (S (new_variable_count a))
  else Ok a.

(** The tables [x], [x_scaled], [u], [u_scaled] of the phases declared so
    far. *)
Record tables : Type := Tables
  { t_x : list (list (list expr));
    t_x_scaled : list (list (list sym));
    t_u : list (list (list expr));
    t_u_scaled : list (list (list sym)) }.

(** The nodes of the phase in progress. *)
Record nodes : Type := Nodes
  { n_x : list (list expr);
    n_x_scaled : list (list sym);
    n_u : list (list expr);
    n_u_scaled : list (list sym);
    n_next : nat }.

(** The states of node [k]. *)
Definition state_node (ph : nlp) (p : nat) (sa : aggregate) (tb : tables)
    (next k : nat) : result node :=
  foldM (if (Z.of_nat p =? agg_use sa)
         then own_state ph p k
         else alias_state ph p k (agg_use sa) (agg_mapped sa) (t_x tb) (t_x_scaled tb))
        (seq 0 (shape (states ph))) (Node [] [] next 0).

(** The controls of node [k]. *)
Definition control_node (ph : nlp) (p : nat) (ca : aggregate) (tb : tables)
    (next k : nat) : result node :=
  foldM (if (Z.of_nat p =? agg_use ca)
         then own_control ph p k
         else alias_control ph p k (agg_use ca) (agg_mapped ca) (t_u tb) (t_u_scaled tb))
        (seq 0 (shape (controls ph))) (Node [] [] next 0).

(** The body of [for k in range(nlp.ns + 1)]. *)
Definition declare_node (ph : nlp) (p : nat) (sa ca : aggregate) (tb : tables)
    (acc : nodes) (k : nat) : result nodes :=
  let! xs := state_node ph p sa tb (n_next acc) k in
  let! us := control_node ph p ca tb (next_sym xs) k in
  Ok (Nodes (n_x acc ++ [unscaled xs]) (n_x_scaled acc ++ [scaled xs])
            (n_u acc ++ [unscaled us]) (n_u_scaled acc ++ [scaled us])
            (next_sym us)).

Definition declare_nodes (ph : nlp) (p : nat) (sa ca : aggregate) (tb : tables)
    (next : nat) : result nodes :=
  foldM (declare_node ph p sa ca tb) (seq 0 (ns ph + 1)) (Nodes [] [] [] [] next).

(** [horzcat] of the [vertcat] of every node. *)
Fixpoint concatenate_nodes (acc : matrix) (l : list (list sym)) : result matrix :=
  match l with
  | [] => Ok acc
  | node :: l' =>
      let! col := vertcat node in
      let! acc := horzcat acc col in
      concatenate_nodes acc l'
  end.

Definition scaled_all (l : list (list sym)) : result matrix :=
  match l with
  | [] => Raise RuntimeError
  | node :: l' => let! first := vertcat node in concatenate_nodes first l'
  end.

(** [n_phase_x[phase]] and [n_phase_u[phase]]: rows, length of the mapped
    index list, number of nodes. *)
Definition n_phase (rows : nat) (mapped : list (option Z)) (n_nodes : nat) : Z :=
  if (length mapped =? rows)%nat
  then Z.of_nat rows * Z.of_nat n_nodes
  else (Z.of_nat rows - Z.of_nat (length mapped)) * Z.of_nat n_nodes.

(** [Parameter], with the defining function as the object it is and the
    extra configuration as a list of named values. *)
Record parameter : Type := Prm
  { prm_name : string;
    prm_size : nat;
    prm_cx : option (list entry);
    prm_mx : list entry;
    prm_scaling : list R;
    prm_min : list R;
    prm_max : list R;
    prm_initial_guess : list R;
    prm_function : nat;
    prm_params : list (string * Z) }.

(** [Bounds]: the vectors [min] and [max]. *)
Record bounds_value : Type := Bounds
  { b_min : list R;
    b_max : list R }.

(** The fields of [OptimizationVector]. *)
Record t : Type := Build
  { parameters_in_list : list parameter;
    x_scaled : list matrix;
    x_bounds : list bounds_value;
    n_all_x : Z;
    n_phase_x : list Z;
    u_scaled : list matrix;
    u_bounds : list bounds_value;
    n_all_u : Z;
    n_phase_u : list Z;
    symbols : nat }.

(** [OptimizationVector.__init__], for an ocp of [n_phases] phases that has
    created [symbols] symbols so far. *)
Definition init (n_phases : nat) (symbols : nat) : t :=
  Build [] (replicate n_phases (Mx 0 [])) (replicate n_phases (Bounds [] [])) 0
        (replicate n_phases 0)
        (replicate n_phases (Mx 0 [])) (replicate n_phases (Bounds [] [])) 0
        (replicate n_phases 0) symbols.

(** The state of [for nlp in self.ocp.nlp]: the vector, the records already
    handled, and the four tables. *)
Record declaration : Type := Declaration
  { d_self : t;
    d_nlp : list nlp;
    d_tables : tables }.

(** The body of [for nlp in self.ocp.nlp]. *)
Definition declare_phase (st : declaration) (ph : nlp) : result declaration :=
  let self := d_self st in
  let p := length (d_nlp st) in
  let! sa := aggregate_elements (states_phase_mapping_idx ph) p (states ph) in
  let! ca := aggregate_elements (controls_phase_mapping_idx ph) p (controls ph) in
  if negb (is_constant (control_type ph)) && negb (is_linear_continuous (control_type ph))
  then Raise NotImplementedError
  else
    let! nd := declare_nodes ph p sa ca (d_tables st) (symbols self) in
    let! x_scaled_all := scaled_all (n_x_scaled nd) in
    let! xs := py_set (x_scaled self) (Z.of_nat p) x_scaled_all in
    let! npx := py_set (n_phase_x self) (Z.of_nat p)
                  (n_phase (shape0 x_scaled_all) (agg_mapped sa) (ns ph + 1)) in
    let! u_scaled_all := scaled_all (n_u_scaled nd) in
    let! us := py_set (u_scaled self) (Z.of_nat p) u_scaled_all in
    let last_node := if is_constant (control_type ph) then ns ph else (ns ph + 1)%nat in
    let! npu := py_set (n_phase_u self) (Z.of_nat p)
                  (n_phase (shape0 u_scaled_all) (agg_mapped ca) last_node) in
    let ph' := Nlp (ns ph) (control_type ph) (ode_solver ph) (states ph) (controls ph)
                   (with_all (states_phase_mapping_idx ph) sa)
                   (with_all (controls_phase_mapping_idx ph) ca)
                   (x_scaling ph) (u_scaling ph)
                   (x_bounds_min ph) (x_bounds_max ph) (u_bounds_min ph) (u_bounds_max ph)
                   (agg_use sa) (agg_use ca)
                   (n_x nd) (n_x_scaled nd) (n_u nd) (n_u_scaled nd) in
    let tb := d_tables st in
    Ok (Declaration
          (Build (parameters_in_list self) xs (x_bounds self) (n_all_x self) npx
                 us (u_bounds self) (n_all_u self) npu (n_next nd))
          (d_nlp st ++ [ph'])
          (Tables (t_x tb ++ [n_x nd]) (t_x_scaled tb ++ [n_x_scaled nd])
                  (t_u tb ++ [n_u nd]) (t_u_scaled tb ++ [n_u_scaled nd]))).

Definition sum_Z (l : list Z) : Z := fold_left Z.add l 0.

(** [OptimizationVector.define_ocp_shooting_points]: the vector and the
    records of [ocp.nlp] after the call. *)
Definition define_ocp_shooting_points (self : t) (ocp : list nlp) : result (t * list nlp) :=
  let! st := foldM declare_phase ocp (Declaration self [] (Tables [] [] [] [])) in
  let self := d_self st in
  Ok (Build (parameters_in_list self) (x_scaled self) (x_bounds self)
            (sum_Z (n_phase_x self)) (n_phase_x self)
            (u_scaled self) (u_bounds self)
            (sum_Z (n_phase_u self)) (n_phase_u self) (symbols self),
      d_nlp st).

(** ** The derived views *)

(** The states that [vector] emits for node [k] of phase [p]. *)
Definition vector_state (self : t) (p : nat) (ph : nlp) (k : nat)
    (acc : list entry) (liberty : nat) : result (list entry) :=
  if use_states_from_phase ph =? Z.of_nat p then
    let! m := py_get (x_scaled self) (Z.of_nat p) in
    let! e := item m liberty k in
    Ok (acc ++ [e])
  else
    match dict_get (states_phase_mapping_idx ph) "all" with
    | Some all =>
        match NodeMappingIndex.variable_mapped_index all with
        | Some mapped =>
            if py_in (Z.of_nat liberty) mapped then Ok acc
            else
              let! m := py_get (x_scaled self) (Z.of_nat p) in
              let! e := item m liberty k in
              Ok (acc ++ [e])
        | None => Raise TypeError
        end
    | None => Ok acc
    end.

Definition vector_control (self : t) (p : nat) (ph : nlp) (k : nat)
    (acc : list entry) (liberty : nat) : result (list entry) :=
  if use_controls_from_phase ph =? Z.of_nat p then
    let! m := py_get (u_scaled self) (Z.of_nat p) in
    let! e := item m liberty k in
    Ok (acc ++ [e])
  else
    match dict_get (controls_phase_mapping_idx ph) "all" with
    | Some all =>
        match NodeMappingIndex.variable_mapped_index all with
        | Some mapped =>
            if py_in (Z.of_nat liberty) mapped then Ok acc
            else
              let! m := py_get (u_scaled self) (Z.of_nat p) in
              let! e := item m liberty k in
              Ok (acc ++ [e])
        | None => Raise TypeError
        end
    | None => Ok acc
    end.

(** The body of [for nlp in self.ocp.nlp] in [vector]: the two loops over
    the nodes. *)
Definition vector_phase (self : t) (acc : list entry * list entry) (pph : nat * nlp)
  : result (list entry * list entry) :=
  let '(xs, us) := acc in
  let '(p, ph) := pph in
  let! xs := foldM (fun xs k =>
                      foldM (vector_state self p ph k) (seq 0 (shape (states ph))) xs)
                   (seq 0 (ns ph + 1)) xs in
  let! us := foldM (fun us k =>
                      if has_control ph k
                      then foldM (vector_control self p ph k) (seq 0 (shape (controls ph))) us
                      else Ok us)
                   (seq 0 (ns ph + 1)) us in
  Ok (xs, us).

(** [self.parameters_in_list.cx] *)
Definition parameters_cx (l : list parameter) : list entry :=
  concat ((fun prm => default [] (prm_cx prm)) <$> l).

(** [OptimizationVector.vector] *)
Definition vector (self : t) (ocp : list nlp) : result (list entry) :=
  let! xu := foldM (vector_phase self) (imap pair ocp) ([], []) in
  Ok (xu.1 ++ xu.2 ++ parameters_cx (parameters_in_list self)).

Context (zero : R) (div : R -> R -> R).

(** [arr[start:stop, 0] = values] on a column: the lengths must agree,
    save for a single value, which is repeated. *)
Definition write_slice (arr : list R) (start stop : nat) (values : list R)
  : result (list R) :=
  let start := Nat.min start (length arr) in
  let stop := Nat.max start (Nat.min stop (length arr)) in
  if (length values =? stop - start)%nat
  then Ok (take start arr ++ values ++ drop stop arr)
  else match values with
       | [v] => Ok (take start arr ++ replicate (stop - start) v ++ drop stop arr)
       | _ => Raise ValueError
       end.

(** Modelled from the spec: [check_and_adjust_dimensions(n, ns)] of the
    bounds container, which is not in the sources; it raises the
    dimension-mismatch error when the supplied data does not have [n] rows. *)
Definition check_and_adjust_dimensions (pc : path) (n : nat) : result unit :=
  if (path_rows pc =? n)%nat then Ok tt else Raise RuntimeError.

(** Modelled from the spec: [scale(vector)] of the bounds container, which
    is not in the sources; element by element, on vectors of one length. *)
Definition scale_values (values scaling : list R) : result (list R) :=
  if (length values =? length scaling)%nat
  then Ok (zip_with div values scaling)
  else Raise ValueError.

Definition scale (b : bounds_value) (scaling : list R) : result bounds_value :=
  let! lo := scale_values (b_min b) scaling in
  let! hi := scale_values (b_max b) scaling in
  Ok (Bounds lo hi).

(** Modelled from the spec: [concatenate(other)] of the bounds container,
    which is not in the sources; [other] goes below. *)
Definition concatenate (b other : bounds_value) : bounds_value :=
  Bounds (b_min b ++ b_min other) (b_max b ++ b_max other).

(** Modelled from the spec: [to_vector(n)] of a scaling, which is not in
    the sources; the per-row factors, once per node. *)
Definition to_vector (scaling : list R) (n : nat) : list R :=
  concat (replicate n scaling).

(** The body of [for p in range(repeat if k != nlp.ns else 1)]. *)
Definition bound_point (ph_min ph_max : path) (nx outer_offset : nat)
    (k : nat) (b : bounds_value) (p : nat) : result bounds_value :=
  let start := (k * outer_offset + p * nx)%nat in
  let stop := (k * outer_offset + (p + 1) * nx)%nat in
  let point := match k with O => match p with O => O | _ => 1%nat end | _ => k end in
  let! lo := write_slice (b_min b) start stop (evaluate_at ph_min point) in
  let! hi := write_slice (b_max b) start stop (evaluate_at ph_max point) in
  Ok (Bounds lo hi).

(** The state bounds of one phase ("For states"). *)
Definition state_bounds (ph : nlp) (nx : nat) : result bounds_value :=
  let colloc := is_direct_collocation (ode_solver ph) in
  let degree := polynomial_degree (ode_solver ph) in
  let all_nx := if colloc then (nx * ns ph * (degree + 1) + nx)%nat
                else (nx * (ns ph + 1))%nat in
  let outer_offset := if colloc then (nx * (degree + 1))%nat else nx in
  let repeat := if colloc then (degree + 1)%nat else 1%nat in
  foldM (fun b k =>
           foldM (bound_point (x_bounds_min ph) (x_bounds_max ph) nx outer_offset k)
                 (seq 0 (if (k =? ns ph)%nat then 1 else repeat)) b)
        (seq 0 (ns ph + 1))
        (Bounds (replicate all_nx zero) (replicate all_nx zero)).

(** The control bounds of one phase ("For controls"). *)
Definition control_bounds (ph : nlp) (nu : nat) : result bounds_value :=
  let! n := match control_type ph with
            | CONSTANT => Ok (ns ph)
            | LINEAR_CONTINUOUS => Ok (ns ph + 1)%nat
            | OTHER_CONTROL => Raise NotImplementedError
            end in
  let all_nu := (nu * n)%nat in
  foldM (fun b k =>
           let! lo := write_slice (b_min b) (k * nu) ((k + 1) * nu)
                        (evaluate_at (u_bounds_min ph) k) in
           let! hi := write_slice (b_max b) (k * nu) ((k + 1) * nu)
                        (evaluate_at (u_bounds_max ph) k) in
           Ok (Bounds lo hi))
        (seq 0 n)
        (Bounds (replicate all_nu zero) (replicate all_nu zero)).

(** The sanity check of one phase. *)
Definition check_phase (nx nu : list nat) (iph : nat * nlp) : result unit :=
  let '(i, ph) := iph in
  let! n := py_get nx (Z.of_nat i) in
  let! _ := check_and_adjust_dimensions (x_bounds_min ph) n in
  let! _ := check_and_adjust_dimensions (x_bounds_max ph) n in
  match control_type ph with
  | OTHER_CONTROL => Raise NotImplementedError
  | _ =>
      let! m := py_get nu (Z.of_nat i) in
      let! _ := check_and_adjust_dimensions (u_bounds_min ph) m in
      check_and_adjust_dimensions (u_bounds_max ph) m
  end.

(** The body of the second loop of [define_ocp_bounds]. *)
Definition bound_phase (nx nu : list nat) (self : t) (iph : nat * nlp) : result t :=
  let '(i, ph) := iph in
  let! n := py_get nx (Z.of_nat i) in
  let! xb := state_bounds ph n in
  let! xbs := py_set (x_bounds self) (Z.of_nat i) xb in
  let! m := py_get nu (Z.of_nat i) in
  let! ub := control_bounds ph m in
  let! ubs := py_set (u_bounds self) (Z.of_nat i) ub in
  Ok (Build (parameters_in_list self) (x_scaled self) xbs (n_all_x self)
            (n_phase_x self) (u_scaled self) ubs (n_all_u self) (n_phase_u self)
            (symbols self)).

(** [OptimizationVector.define_ocp_bounds].  [(nx, nu)] is what
    [ocp.get_nx_and_nu_phase_mapped()] returns; that method is not in the
    sources. *)
Definition define_ocp_bounds (self : t) (ocp : list nlp) (nx nu : list nat) : result t :=
  let! _ := foldM (fun _ iph => check_phase nx nu iph) (imap pair ocp) tt in
  foldM (bound_phase nx nu) (imap pair ocp) self.

(** [OptimizationVector.bounds] *)
Definition bounds (self : t) (ocp : list nlp) : result bounds_value :=
  let! first := py_get ocp 0 in
  let n_steps :=
    if instance_of_collocation (ode_solver first) && negb (instance_of_irk (ode_solver first))
    then (steps (ode_solver first) + 1)%nat else 1%nat in
  let! v := foldM (fun v pb =>
                     let '(phase, x_bound) := pb in
                     let! ph := py_get ocp (Z.of_nat phase) in
                     let! b := scale x_bound
                                 (to_vector (x_scaling ph) (ns ph * n_steps + 1)) in
                     Ok (concatenate v b))
                  (imap pair (x_bounds self)) (Bounds [] []) in
  let! v := foldM (fun v pb =>
                     let '(phase, u_bound) := pb in
                     let! ph := py_get ocp (Z.of_nat phase) in
                     let n := if is_linear_continuous (control_type first)
                              then (ns ph + 1)%nat else ns ph in
                     let! b := scale u_bound (to_vector (u_scaling ph) n) in
                     Ok (concatenate v b))
                  (imap pair (u_bounds self)) v in
  foldM (fun v prm =>
           let! b := scale (Bounds (prm_min prm) (prm_max prm)) (prm_scaling prm) in
           Ok (concatenate v b))
        (parameters_in_list self) v.

(** ** From the solver's vector back to named values *)

(** [data_states[p_idx][var] = x_array[offset_var: offset_var + n_var, :]]
    for every variable of the phase, [n_var] being [each el] rows. *)
Definition split_variables (x_array : list (list R)) (each : element -> nat)
    (els : list element) (d : dict (list (list R))) : dict (list (list R)) :=
  (fold_left
     (fun acc el =>
        (dict_set acc.1 (el_name el)
           (py_slice x_array (Z.of_nat acc.2) (Z.of_nat (acc.2 + each el))),
         (acc.2 + each el)%nat))
     els (d, 0%nat)).1.

(** The state of the first loop of [to_dictionaries]. *)
Record unpacking : Type := Unpacking
  { data_states : list (dict (list (list R)));
    offset : Z;
    p_idx : nat }.

(** [x_array = v_array[offset: offset + n].reshape((n_var, -1), order="F")],
    filed under ["all"] and split by variable. *)
Definition store (v_array : list R) (st : unpacking) (ph : nlp) (n : Z)
    (n_var : nat) (each : element -> nat) : result unpacking :=
  let! x_array := reshape_F n_var (py_slice v_array (offset st) (offset st + n)) in
  let! d := py_get (data_states st) (Z.of_nat (p_idx st)) in
  let d := dict_set d "all" x_array in
  let d := split_variables x_array each (states ph) d in
  let! ds := py_set (data_states st) (Z.of_nat (p_idx st)) d in
  Ok (Unpacking ds (offset st + n) (S (p_idx st))).

(** The body of the first [for p in range(self.ocp.n_phases)] of
    [to_dictionaries]. *)
Definition unpack_states (self : t) (v_array : list R) (st : unpacking)
    (pph : nat * nlp) : result unpacking :=
  let! n := py_get (n_phase_x self) (Z.of_nat pph.1) in
  if use_states_from_phase pph.2 =? Z.of_nat pph.1 then
    store v_array st pph.2 n (shape (states pph.2)) el_size
  else
    match dict_get (states_phase_mapping_idx pph.2) "all" with
    | Some all =>
        match NodeMappingIndex.index all with
        | Some _ =>
            match NodeMappingIndex.variable_mapped_index all with
            | Some mapped => store v_array st pph.2 n (length mapped) (fun _ => length mapped)
            | None => Raise TypeError
            end
        | None => Ok st
        end
    | None => Ok st
    end.

(** [OptimizationVector.to_dictionaries], its first result: [data_states]. *)
Definition to_dictionaries_states (self : t) (ocp : list nlp) (data : list R)
  : result (list (dict (list (list R)))) :=
  let! st := foldM (unpack_states self data) (imap pair ocp)
               (Unpacking (replicate (length ocp) []) 0 0) in
  Ok (data_states st).

(** The same for the controls: the second loop of [to_dictionaries], whose
    state is the dictionaries [data_controls], the offset and [p_idx]. *)
Definition store_controls (v_array : list R) (st : unpacking) (ph : nlp) (n : Z)
    (n_var : nat) (each : element -> nat) : result unpacking :=
  let! u_array := reshape_F n_var (py_slice v_array (offset st) (offset st + n)) in
  let! d := py_get (data_states st) (Z.of_nat (p_idx st)) in
  let d := dict_set d "all" u_array in
  let d := split_variables u_array each (controls ph) d in
  let! ds := py_set (data_states st) (Z.of_nat (p_idx st)) d in
  Ok (Unpacking ds (offset st + n) (S (p_idx st))).

(** The body of the second [for p in range(self.ocp.n_phases)]. *)
Definition unpack_controls (self : t) (v_array : list R) (st : unpacking)
    (pph : nat * nlp) : result unpacking :=
  if use_controls_from_phase pph.2 =? Z.of_nat pph.1 then
    let! n := py_get (n_phase_u self) (Z.of_nat pph.1) in
    store_controls v_array st pph.2 n (shape (controls pph.2)) el_size
  else
    match dict_get (controls_phase_mapping_idx pph.2) "all" with
    | Some all =>
        match NodeMappingIndex.index all with
        | Some _ =>
            match NodeMappingIndex.variable_mapped_index all with
            | Some mapped =>
                let! n := py_get (n_phase_u self) (Z.of_nat pph.1) in
                store_controls v_array st pph.2 n (length mapped) (fun _ => length mapped)
            | None => Raise TypeError
            end
        | None => Ok st
        end
    | None => Ok st
    end.

(** [OptimizationVector.to_dictionaries], its second result:
    [data_controls], read from [offset = self.n_all_x] on. *)
Definition to_dictionaries_controls (self : t) (ocp : list nlp) (data : list R)
  : result (list (dict (list (list R)))) :=
  let! st := foldM (unpack_controls self data) (imap pair ocp)
               (Unpacking (replicate (length ocp) []) (n_all_x self) 0) in
  Ok (data_states st).

(** ** The parameter pool *)

(** Two dictionaries are equal when they hold the same values under the
    same keys. *)
Definition dict_eqb (d1 d2 : dict Z) : bool :=
  forallb (fun kv => bool_decide (dict_get d2 kv.1 = dict_get d1 kv.1)) d1
  && forallb (fun kv => bool_decide (dict_get d1 kv.1 = dict_get d2 kv.1)) d2.

(** Modelled from the spec: [ParameterList.index(name)] and [name in
    ParameterList], which are not in the sources; the pool is keyed by
    name, one entry per name. *)
Fixpoint index_of (name : string) (l : list parameter) : option nat :=
  match l with
  | [] => None
  | prm :: l' =>
      if String.eqb (prm_name prm) name then Some 0%nat
      else option_map S (index_of name l')
  end.

(** The entry after the merge of [param], whose symbols are [cx] and [mx]. *)
Definition merge (old param : parameter) (cx mx : list entry) : parameter :=
  Prm (prm_name old) (prm_size old + prm_size param)
      (Some (default [] (prm_cx old) ++ cx)) (prm_mx old ++ mx)
      (prm_scaling old ++ prm_scaling param)
      (prm_min old ++ prm_min param) (prm_max old ++ prm_max param)
      (prm_initial_guess old ++ prm_initial_guess param)
      (prm_function old) (prm_params old).

(** The symbols of a parameter about to be added: its own [cx] if it has
    one, a fresh symbol otherwise; a fresh [mx] in any case; and the rank of
    the next symbol. *)
Definition parameter_symbols (next : nat) (param : parameter) : list entry * list entry * nat :=
  match prm_cx param with
  | Some cx =>
      (cx, column (Sym next (ParamName (prm_name param ++ "_MX")) (prm_size param) 1),
       S next)
  | None =>
      (column (Sym next (ParamName (prm_name param)) (prm_size param) 1),
       column (Sym (S next) (ParamName (prm_name param ++ "_MX")) (prm_size param) 1),
       S (S next))
  end.

(** [OptimizationVector.add_parameter].  Modelled from the spec:
    [ParameterList.add(param)], which is not in the sources, files the
    parameter as a new entry of the pool. *)
Definition add_parameter (self : t) (param : parameter) : result t :=
  let sy := parameter_symbols (symbols self) param in
  let pool := parameters_in_list self in
  let! pool :=
    match index_of (prm_name param) pool with
    | Some i =>
        let! old := py_get pool (Z.of_nat i) in
        if negb (prm_function param =? prm_function old)%nat then Raise RuntimeError
        else if negb (dict_eqb (prm_params param) (prm_params old)) then Raise RuntimeError
        else py_set pool (Z.of_nat i) (merge old param sy.1.1 sy.1.2)
    | None =>
        Ok (pool ++ [Prm (prm_name param) (prm_size param) (Some sy.1.1) sy.1.2
                         (prm_scaling param) (prm_min param) (prm_max param)
                         (prm_initial_guess param) (prm_function param)
                         (prm_params param)])
    end in
  Ok (Build pool (x_scaled self) (x_bounds self) (n_all_x self) (n_phase_x self)
            (u_scaled self) (u_bounds self) (n_all_u self) (n_phase_u self) sy.2).

(** ** The phase times *)

(** [nlp.tf]: a number, or a symbol of type [ocp.cx] when the duration of
    the phase is optimized. *)
Inductive phase_end : Type :=
| Fixed (tf : R)
| Optimized.

(** [for param in self.parameters_in_list], from [offset] on: the values of
    the first parameter called ["time"], [data[offset : offset +
    param.size]]; the parameters before it move the offset by their
    sizes. *)
Fixpoint time_values (data : list R) (offset : Z) (pool : list parameter) : list R :=
  match pool with
  | [] => []
  | param :: pool' =>
      if String.eqb (prm_name param) "time"
      then py_slice data offset (offset + Z.of_nat (prm_size param))
      else time_values data (offset + Z.of_nat (prm_size param)) pool'
  end.

(** The body of [for i in range(len(phase_time))]: the phase times handled
    so far and [cmp]; [map_idx] is
    [ocp.parameter_mappings["time"].to_second.map_idx]. *)
Definition replace_time (data_time_optimized : list R) (map_idx : list (option Z))
    (acc : list phase_end * nat) (tf : phase_end) : result (list phase_end * nat) :=
  match tf with
  | Fixed _ => Ok (acc.1 ++ [tf], acc.2)
  | Optimized =>
      let! idx := py_get map_idx (Z.of_nat acc.2) in
      match idx with
      | Some i =>
          let! v := py_get data_time_optimized i in
          Ok (acc.1 ++ [Fixed v], S acc.2)
      | None => Raise TypeError
      end
  end.

(** [OptimizationVector.extract_phase_time]; [tf] holds [nlp.tf] for every
    phase and [data] the solution, a column. *)
Definition extract_phase_time (self : t) (tf : list phase_end)
    (map_idx : list (option Z)) (data : list R) : result (list phase_end) :=
  let offset := n_all_x self + n_all_u self in
  let data_time_optimized :=
    if existsb (fun param => String.eqb (prm_name param) "time") (parameters_in_list self)
    then time_values data offset (parameters_in_list self)
    else [] in
  let phase_time := Fixed zero :: tf in
  match data_time_optimized with
  | [] => Ok phase_time
  | _ =>
      let! r := foldM (replace_time data_time_optimized map_idx) phase_time ([], 0%nat) in
      Ok r.1
  end.

End Numbers.

Arguments expr R : clear implicits.
Arguments path R : clear implicits.
Arguments phase_end R : clear implicits.
Arguments nlp R : clear implicits.
Arguments node R : clear implicits.
Arguments tables R : clear implicits.
Arguments nodes R : clear implicits.
Arguments parameter R : clear implicits.
Arguments bounds_value R : clear implicits.
Arguments t R : clear implicits.
Arguments declaration R : clear implicits.

End OptimizationVector.

(* ================================================================= *)
(** * Properties *)

(** ** The result monad and Python indexing *)

Lemma bind_ok {A B} (m : result A) (f : A -> result B) (b : B) :
  bind m f = Ok b <-> exists a, m = Ok a /\ f a = Ok b.
Proof.
  destruct m as [a|e]; simpl; split.
  - intros H. exists a. auto.
  - intros (a' & Ha & Hf). congruence.
  - discriminate.
  - intros (a' & Ha & _). discriminate.
Qed.

Lemma py_index_lt (n : nat) (i : Z) (k : nat) :
  py_index n i = Some k -> (k < n)%nat.
Proof.
  unfold py_index. intros H.
  destruct ((0 <=? i) && (i <? Z.of_nat n)) eqn:E1.
  - apply andb_prop in E1 as [? ?]. inversion H; subst. lia.
  - destruct ((- Z.of_nat n <=? i) && (i <? 0)) eqn:E2; [|discriminate].
    apply andb_prop in E2 as [? ?]. inversion H; subst. lia.
Qed.

Lemma py_index_nat (n k : nat) :
  (k < n)%nat -> py_index n (Z.of_nat k) = Some k.
Proof.
  intros H. unfold py_index.
  destruct ((0 <=? Z.of_nat k) && (Z.of_nat k <? Z.of_nat n)) eqn:E.
  - f_equal. lia.
  - apply andb_false_iff in E as [E|E]; lia.
Qed.

Lemma py_get_nat {A} (l : list A) (k : nat) (x : A) :
  l !! k = Some x -> py_get l (Z.of_nat k) = Ok x.
Proof.
  intros H. unfold py_get.
  rewrite py_index_nat by (eapply lookup_lt_Some; eauto).
  now rewrite H.
Qed.

Lemma py_get_some {A} (l : list A) (i : Z) :
  is_Some (py_index (length l) i) -> exists x, py_get l i = Ok x.
Proof.
  intros [k Hk]. unfold py_get. rewrite Hk.
  destruct (lookup_lt_is_Some_2 l k (py_index_lt _ _ _ Hk)) as [x Hx].
  exists x. now rewrite Hx.
Qed.

Lemma foldM_app {A S} (f : S -> A -> result S) (l1 l2 : list A) (st : S) :
  foldM f (l1 ++ l2) st = bind (foldM f l1 st) (foldM f l2).
Proof.
  revert st. induction l1 as [|x l1 IH]; intros st; simpl; [reflexivity|].
  destruct (f st x); simpl; auto.
Qed.

(** ** [Mapping] *)

Definition sign (o : Z) : Prop := o = 1 \/ o = -1.

Lemma flip_signs (l : list Z) (o o' : list Z) :
  Forall sign o ->
  foldM (fun o i => py_set o i (-1)) l o = Ok o' ->
  length o' = length o /\ Forall sign o'.
Proof.
  revert o. induction l as [|i l IH]; intros o Ho; simpl.
  - intros [= <-]. auto.
  - intros H. apply bind_ok in H as (o1 & H1 & H2).
    unfold py_set in H1. destruct (py_index (length o) i); [|discriminate].
    inversion H1; subst o1.
    destruct (IH (<[n:=-1]> o)) as [Hl Hs]; auto.
    + apply Forall_insert; auto. right; reflexivity.
    + rewrite length_insert in Hl. auto.
Qed.

Lemma init_invariant (idx : list (option Z)) (opp : Mapping.oppose_arg) (m : Mapping.t) :
  Mapping.init idx opp = Ok m ->
  Mapping.map_idx m = idx /\
  length (Mapping.oppose m) = length idx /\
  Forall sign (Mapping.oppose m).
Proof.
  assert (Hones : Forall sign (replicate (length idx) 1)).
  { apply Forall_replicate. left; reflexivity. }
  assert (Hgen : forall l, (let! o := foldM (fun o i => py_set o i (-1)) l
                                  (replicate (length idx) 1) in Ok (Mapping.Build idx o)) = Ok m ->
          Mapping.map_idx m = idx /\ length (Mapping.oppose m) = length idx /\
          Forall sign (Mapping.oppose m)).
  { intros l H. apply bind_ok in H as (o & Ho & [= <-]). simpl.
    destruct (flip_signs _ _ _ Hones Ho) as [Hl Hs].
    rewrite length_replicate in Hl. auto. }
  destruct opp as [|i|l].
  - intros [= <-]. simpl. rewrite length_replicate. auto.
  - apply (Hgen [i]).
  - apply (Hgen l).
Qed.

Section MappingMap.
Context {T : Type} (zero : T) (neg : T -> T) (mulZ : Z -> T -> T).
Hypothesis mul_one : forall x, mulZ 1 x = x.
Hypothesis mul_minus_one : forall x, mulZ (-1) x = neg x.

Lemma assign_rows_length (out : list (list T)) new src :
  length (Mapping.assign_rows out new src) = length out.
Proof.
  unfold Mapping.assign_rows. revert out.
  induction (zip new src) as [|[i r] z IH]; intros out; simpl; [reflexivity|].
  rewrite IH. apply length_insert.
Qed.

Lemma assign_rows_snoc (out : list (list T)) new src i r :
  length new = length src ->
  Mapping.assign_rows out (new ++ [i]) (src ++ [r])
  = <[i:=r]> (Mapping.assign_rows out new src).
Proof.
  intros H. unfold Mapping.assign_rows.
  rewrite zip_with_app by exact H.
  rewrite fold_left_app. reflexivity.
Qed.

Lemma assign_rows_congr (out1 out2 : list (list T)) new src (i : nat) :
  length out1 = length out2 ->
  out1 !! i = out2 !! i ->
  Mapping.assign_rows out1 new src !! i = Mapping.assign_rows out2 new src !! i.
Proof.
  unfold Mapping.assign_rows. revert out1 out2.
  induction (zip new src) as [|[k r] z IH]; intros out1 out2 Hl He; simpl; [exact He|].
  apply IH.
  - now rewrite !length_insert.
  - destruct (decide (k = i)) as [->|Hne].
    + destruct (decide (i < length out1)%nat).
      * rewrite !list_lookup_insert_eq by lia. reflexivity.
      * rewrite !list_insert_ge by lia. exact He.
    + rewrite !list_lookup_insert_ne by exact Hne. exact He.
Qed.

Lemma assign_rows_fresh (out : list (list T)) new src (i : nat) :
  Forall (fun k => (k < i)%nat) new ->
  Mapping.assign_rows out new src !! i = out !! i.
Proof.
  unfold Mapping.assign_rows. revert out src.
  induction new as [|k new IH]; intros out src Hf; [reflexivity|].
  destruct src as [|r src]; [reflexivity|]. simpl.
  inversion Hf; subst.
  rewrite IH by assumption.
  apply list_lookup_insert_ne. lia.
Qed.

Lemma take_rows_snoc (M : list (list T)) (idx : list Z) (j : Z) P r :
  Mapping.take_rows M idx = Ok P -> py_get M j = Ok r ->
  Mapping.take_rows M (idx ++ [j]) = Ok (P ++ [r]).
Proof.
  revert P. induction idx as [|k idx IH]; intros P; simpl.
  - intros [= <-] ->. reflexivity.
  - intros H Hr. apply bind_ok in H as (r0 & Hr0 & H).
    apply bind_ok in H as (P0 & HP0 & [= <-]).
    rewrite Hr0. simpl. rewrite (IH P0) by assumption. reflexivity.
Qed.

Lemma take_rows_length (M : list (list T)) (idx : list Z) P :
  Mapping.take_rows M idx = Ok P -> length P = length idx.
Proof.
  revert P. induction idx as [|k idx IH]; intros P; simpl.
  - intros [= <-]. reflexivity.
  - intros H. apply bind_ok in H as (r0 & Hr0 & H).
    apply bind_ok in H as (P0 & HP0 & [= <-]). simpl. f_equal. auto.
Qed.

(** What row [i] of the result must be, given entry [v] of [map_idx]. *)
Definition expected_row (opp : list Z) (M : list (list T)) (c : nat)
    (i : nat) (v : option Z) (row : list T) : Prop :=
  match v with
  | None => row = replicate c zero
  | Some j => exists o r, opp !! i = Some o /\ py_get M j = Ok r /\
                          row = List.map (mulZ o) r
  end.

Definition filled (opp : list Z) (M : list (list T)) (N c : nat)
    (l : list (option Z)) (b : Mapping.buckets) : Prop :=
  exists P Q,
    Mapping.take_rows M (Mapping.plus_in_origin b) = Ok P /\
    Mapping.take_rows M (Mapping.minus_in_origin b) = Ok Q /\
    length (Mapping.plus_in_new b) = length P /\
    length (Mapping.minus_in_new b) = length Q /\
    Forall (fun k => (k < length l)%nat) (Mapping.plus_in_new b) /\
    Forall (fun k => (k < length l)%nat) (Mapping.minus_in_new b) /\
    forall i v, l !! i = Some v ->
      exists row,
        Mapping.assign_rows
          (Mapping.assign_rows (Mapping.zeros zero N c) (Mapping.plus_in_new b) P)
          (Mapping.minus_in_new b) (List.map (List.map neg) Q) !! i = Some row /\
        expected_row opp M c i v row.

(** The [enumerate] loop followed by the two batched assignments, one
    prefix of [map_idx] at a time. *)
Lemma enumerate_loop (opp : list Z) (M : list (list T)) (N c : nat)
    (l : list (option Z)) :
  Forall sign opp ->
  (length l <= length opp)%nat ->
  (length l <= N)%nat ->
  (forall i j, l !! i = Some (Some j) -> is_Some (py_index (length M) j)) ->
  exists b,
    foldM (Mapping.sort_index opp) (imap pair l) (Mapping.Buckets [] [] [] []) = Ok b /\
    filled opp M N c l b.
Proof.
  intros Hsign. induction l as [|x l IH] using rev_ind; intros Hopp HN Hidx.
  - exists (Mapping.Buckets [] [] [] []). split; [reflexivity|].
    exists [], []. simpl. repeat split; auto. intros i v H. discriminate.
  - rewrite length_app in Hopp, HN. simpl in Hopp, HN.
    destruct IH as (b & Hb & P & Q & HP & HQ & HlP & HlQ & HfP & HfQ & Hrows);
      try lia.
    { intros i j H. apply (Hidx i j). apply lookup_app_l_Some. exact H. }
    rewrite imap_app, foldM_app, Hb. simpl. rewrite Nat.add_0_r.
    assert (Hlen : length (l ++ [x]) = S (length l)).
    { rewrite length_app. simpl. lia. }
    remember (length l) as n eqn:Hn.
    assert (Hzero : Mapping.zeros zero N c !! n = Some (replicate c zero)).
    { unfold Mapping.zeros. apply lookup_replicate_2. lia. }
    assert (Hweak : forall ks, Forall (fun k => (k < n)%nat) ks ->
                               Forall (fun k => (k < S n)%nat) ks).
    { intros ks. apply List.Forall_impl. intros k Hk. lia. }
    assert (Hsnoc : forall ks, Forall (fun k => (k < n)%nat) ks ->
                               Forall (fun k => (k < S n)%nat) (ks ++ [n])).
    { intros ks Hks. apply Forall_app. split; [auto|].
      constructor; [lia|constructor]. }
    assert (Hold : forall i v, (l ++ [x]) !! i = Some v -> (i < n)%nat -> l !! i = Some v).
    { intros i v H Hi. rewrite lookup_app_l in H by lia. exact H. }
    assert (Hlast : forall i v, (l ++ [x]) !! i = Some v -> ~ (i < n)%nat -> i = n /\ v = x).
    { intros i v H Hi. apply lookup_lt_Some in H as Hlt.
      assert (i = n) by lia. subst i. split; [reflexivity|].
      rewrite Hn in H. rewrite list_lookup_middle in H by reflexivity. congruence. }
    destruct x as [j|].
    + destruct (lookup_lt_is_Some_2 opp n ltac:(lia)) as [o Ho].
      destruct (py_get_some M j) as [r Hr].
      { apply (Hidx n j). rewrite Hn. apply list_lookup_middle. reflexivity. }
      rewrite (py_get_nat _ _ _ Ho). simpl.
      assert (Hso : sign o).
      { eapply Forall_lookup_1; eauto. }
      destruct Hso as [-> | ->]; simpl.
      * eexists. split; [reflexivity|].
        exists (P ++ [r]), Q. simpl.
        rewrite (take_rows_snoc _ _ _ _ _ HP Hr), Hlen, !length_app. simpl.
        repeat split; auto; try lia.
        intros i v Hi. rewrite assign_rows_snoc by exact HlP.
        destruct (decide (i < n)%nat) as [Hlt|Hge].
        -- destruct (Hrows i v (Hold i v Hi Hlt)) as (row & Hrow & Hexp).
           exists row. split; [|exact Hexp]. rewrite <- Hrow.
           apply assign_rows_congr.
           ++ apply length_insert.
           ++ apply list_lookup_insert_ne. lia.
        -- destruct (Hlast i v Hi Hge) as [-> ->].
           exists r. split.
           ++ rewrite assign_rows_fresh by exact HfQ.
              apply list_lookup_insert_eq.
              rewrite assign_rows_length. unfold Mapping.zeros.
              rewrite length_replicate. lia.
           ++ exists 1, r. repeat split; auto.
              rewrite (List.map_ext _ id) by exact mul_one.
              now rewrite List.map_id.
      * eexists. split; [reflexivity|].
        exists P, (Q ++ [r]). simpl.
        rewrite (take_rows_snoc _ _ _ _ _ HQ Hr), Hlen, !length_app. simpl.
        repeat split; auto; try lia.
        intros i v Hi. rewrite List.map_app. simpl.
        rewrite assign_rows_snoc by (now rewrite List.length_map).
        destruct (decide (i < n)%nat) as [Hlt|Hge].
        -- destruct (Hrows i v (Hold i v Hi Hlt)) as (row & Hrow & Hexp).
           exists row. split; [|exact Hexp]. rewrite <- Hrow.
           apply list_lookup_insert_ne. lia.
        -- destruct (Hlast i v Hi Hge) as [-> ->].
           exists (List.map neg r). split.
           ++ apply list_lookup_insert_eq.
              rewrite !assign_rows_length. unfold Mapping.zeros.
              rewrite length_replicate. lia.
           ++ exists (-1), r. repeat split; auto.
              apply List.map_ext. intros a. now rewrite mul_minus_one.
    + exists b. split; [reflexivity|].
      exists P, Q. rewrite Hlen. repeat split; auto.
      intros i v Hi.
      destruct (decide (i < n)%nat) as [Hlt|Hge].
      * apply Hrows. apply Hold; assumption.
      * destruct (Hlast i v Hi Hge) as [-> ->].
        exists (replicate c zero). split; [|reflexivity].
        rewrite !assign_rows_fresh by assumption. exact Hzero.
Qed.

Lemma map_matrix_rows (idx : list (option Z)) (opp : Mapping.oppose_arg)
    (m : Mapping.t) (M : Mapping.matrix T) :
  Mapping.init idx opp = Ok m ->
  (forall i j, idx !! i = Some (Some j) ->
               is_Some (py_index (length (Mapping.rows M)) j)) ->
  exists R,
    Mapping.map_matrix zero neg m M = Ok R /\
    Mapping.ncols R = Mapping.ncols M /\
    length (Mapping.rows R) = length idx /\
    forall i v, idx !! i = Some v ->
      exists row, Mapping.rows R !! i = Some row /\
        expected_row (Mapping.oppose m) (Mapping.rows M) (Mapping.ncols M) i v row.
Proof.
  intros Hinit Hidx.
  destruct (init_invariant _ _ _ Hinit) as (Hmi & Hlen & Hsign).
  destruct (enumerate_loop (Mapping.oppose m) (Mapping.rows M) (length idx)
              (Mapping.ncols M) idx Hsign ltac:(lia) ltac:(lia) Hidx)
    as (b & Hb & P & Q & HP & HQ & _ & _ & _ & _ & Hrows).
  unfold Mapping.map_matrix. rewrite Hmi, Hb. simpl. rewrite HP. simpl.
  rewrite HQ. simpl. eexists. split; [reflexivity|]. simpl.
  repeat split; auto.
  rewrite !assign_rows_length. unfold Mapping.zeros. apply length_replicate.
Qed.
End MappingMap.

(** C4.  For a [Mapping] built by the constructor and an input of a supported
    kind (tuple, list, numpy array, casadi matrix; 1-D or 2-D) in which every
    non-null entry of [map_idx] denotes a row, [map] returns an array of the
    same family with [len(map_idx)] rows and the columns of the input; row [i]
    is zero when [map_idx[i]] is [None] and [oppose[i] * v[map_idx[i], :]]
    otherwise.  On any other object [map] raises ("map must be applied on
    np.ndarray, MX or SX"). *)
Theorem Mapping_map_rows {T : Type} (zero : T) (neg : T -> T) (mulZ : Z -> T -> T)
    (mul_one : forall x, mulZ 1 x = x)
    (mul_minus_one : forall x, mulZ (-1) x = neg x)
    (idx : list (option Z)) (opp : Mapping.oppose_arg) (m : Mapping.t) :
  Mapping.init idx opp = Ok m ->
  (forall obj M,
      Mapping.matrix_of obj = Some M ->
      (forall i j, idx !! i = Some (Some j) ->
                   is_Some (py_index (length (Mapping.rows M)) j)) ->
      exists out R,
        Mapping.map zero neg m obj = Ok out /\
        Mapping.same_kind obj out = true /\
        Mapping.matrix_of out = Some R /\
        Mapping.ncols R = Mapping.ncols M /\
        length (Mapping.rows R) = Mapping.len m /\
        forall i v, Mapping.map_idx m !! i = Some v ->
          exists row, Mapping.rows R !! i = Some row /\
            match v with
            | None => row = replicate (Mapping.ncols M) zero
            | Some j => exists o r,
                Mapping.oppose m !! i = Some o /\
                py_get (Mapping.rows M) j = Ok r /\
                row = List.map (mulZ o) r
            end) /\
  Mapping.map zero neg m Mapping.Other = Raise RuntimeError.
Proof.
  intros Hinit. split; [|reflexivity].
  intros obj M HM Hidx.
  destruct (map_matrix_rows zero neg mulZ mul_one mul_minus_one idx opp m M Hinit Hidx)
    as (R & HR & Hc & Hl & Hrows).
  destruct (init_invariant _ _ _ Hinit) as (Hmi & _ & _).
  unfold Mapping.len. rewrite Hmi.
  destruct obj as [s|s|k x|]; simpl in HM; inversion HM; subst M; simpl;
    rewrite HR; simpl.
  - exists (Mapping.NdArray (Mapping.Mat R)), R. repeat split; auto.
  - exists (Mapping.NdArray (Mapping.Mat R)), R. repeat split; auto.
  - exists (Mapping.Casadi k R), R. repeat split; auto. destruct k; reflexivity.
Qed.

(** The example of the class docstring: [Mapping([0, 1, 1, 3, None, 1], [3])]. *)
Lemma Mapping_map_rows_witness :
  let m := Mapping.Build [Some 0; Some 1; Some 1; Some 3; None; Some 1] [1; 1; 1; -1; 1; 1] in
  (forall obj M,
      Mapping.matrix_of obj = Some M ->
      (forall i j, Mapping.map_idx m !! i = Some (Some j) ->
                   is_Some (py_index (length (Mapping.rows M)) j)) ->
      exists out R,
        Mapping.map 0 Z.opp m obj = Ok out /\
        Mapping.same_kind obj out = true /\
        Mapping.matrix_of out = Some R /\
        Mapping.ncols R = Mapping.ncols M /\
        length (Mapping.rows R) = Mapping.len m /\
        forall i v, Mapping.map_idx m !! i = Some v ->
          exists row, Mapping.rows R !! i = Some row /\
            match v with
            | None => row = replicate (Mapping.ncols M) 0
            | Some j => exists o r,
                Mapping.oppose m !! i = Some o /\
                py_get (Mapping.rows M) j = Ok r /\
                row = List.map (Z.mul o) r
            end) /\
  Mapping.map 0 Z.opp m Mapping.Other = Raise RuntimeError.
Proof.
  apply (Mapping_map_rows 0 Z.opp Z.mul Z.mul_1_l (fun x => eq_refl)
           [Some 0; Some 1; Some 1; Some 3; None; Some 1] (Mapping.OpposeInt 3)).
  reflexivity.
Defined.

Example Mapping_docstring :
  Mapping.map 0 Z.opp
    (Mapping.Build [Some 0; Some 1; Some 1; Some 3; None; Some 1] [1; 1; 1; -1; 1; 1])
    (Mapping.NdArray (Mapping.Vec [1; 2; 3; 4; 5; 6]))
  = Ok (Mapping.NdArray (Mapping.Mat (Mapping.Matrix 1 [[1]; [2]; [2]; [-4]; [0]; [2]]))).
Proof. reflexivity. Qed.

(** ** Dictionaries and option lists *)

Lemma dict_get_set_eq {V} (d : dict V) (k : string) (v : V) :
  dict_get (dict_set d k v) k = Some v.
Proof.
  induction d as [|[k' v'] d IH]; simpl.
  - now rewrite String.eqb_refl.
  - destruct (String.eqb k' k) eqn:E; simpl; rewrite E; auto.
Qed.

Lemma dict_get_set_ne {V} (d : dict V) (k k' : string) (v : V) :
  k <> k' -> dict_get (dict_set d k v) k' = dict_get d k'.
Proof.
  intros Hne. induction d as [|[k0 v0] d IH]; simpl.
  - destruct (String.eqb k k') eqn:E; [|reflexivity].
    apply String.eqb_eq in E. contradiction.
  - destruct (String.eqb k0 k) eqn:E; simpl.
    + apply String.eqb_eq in E. subst k0.
      destruct (String.eqb k k') eqn:E'; [|reflexivity].
      apply String.eqb_eq in E'. contradiction.
    + now rewrite IH.
Qed.

Lemma py_get_set_eq {A} (l l' : list A) (i : Z) (x : A) :
  py_set l i x = Ok l' -> py_get l' i = Ok x.
Proof.
  unfold py_set, py_get. destruct (py_index (length l) i) as [k|] eqn:E; [|discriminate].
  intros [= <-]. rewrite length_insert, E.
  rewrite list_lookup_insert_eq by (eapply py_index_lt; eauto). reflexivity.
Qed.

Lemma py_set_some {A} (l : list A) (i : Z) (x : A) :
  is_Some (py_index (length l) i) -> exists l', py_set l i x = Ok l'.
Proof. intros [k Hk]. unfold py_set. rewrite Hk. eauto. Qed.

(** A registration that goes through files the option where a lookup by
    phase and name finds it. *)
Lemma OptionDict_add_registers {V} (self self' : OptionDict.t V) (key : string)
    (phase : Z) (option_type : Z -> result V) :
  OptionDict._add self key phase option_type = Ok self' ->
  exists v, option_type phase = Ok v /\
            (let! d := OptionDict.getitem self' phase in dict_item d key) = Ok v.
Proof.
  unfold OptionDict._add, OptionDict.getitem. intros H.
  apply bind_ok in H as (v & Hv & H). apply bind_ok in H as (d & Hd & H).
  exists v. split; [exact Hv|].
  rewrite (py_get_set_eq _ _ _ _ H). simpl.
  unfold dict_item. now rewrite dict_get_set_eq.
Qed.

Lemma OptionDict_add_ok {V} (self : OptionDict.t V) (key : string)
    (phase : Z) (option_type : Z -> result V) (v : V) :
  option_type phase = Ok v ->
  0 <= phase \/ - Z.of_nat (length self) <= phase ->
  exists self', OptionDict._add self key phase option_type = Ok self'.
Proof.
  intros Hv Hph. unfold OptionDict._add. rewrite Hv. simpl.
  set (l := self ++ replicate (Z.to_nat (phase + 1) - length self) []).
  assert (Hi : is_Some (py_index (length l) phase)).
  { unfold l. rewrite length_app, length_replicate. unfold py_index.
    destruct (Z.leb_spec 0 phase), (Z.ltb_spec phase (Z.of_nat
      (length self + (Z.to_nat (phase + 1) - length self)))); simpl; eauto; try lia.
    destruct (Z.leb_spec (- Z.of_nat (length self +
      (Z.to_nat (phase + 1) - length self))) phase), (Z.ltb_spec phase 0);
      simpl; eauto; lia. }
  destruct (py_get_some l phase Hi) as [d Hd]. rewrite Hd. simpl.
  apply py_set_some. exact Hi.
Qed.

(** ** [BiMappingList.add] *)

Definition given (a : BiMapping.map_arg) : bool := negb (BiMappingList.is_none a).

(** The error condition as the specification words it: no [bimapping] and
    exactly one of [to_second] / [to_first] missing, or a [bimapping]
    together with [to_second] or [to_first]. *)
Definition spec_add_error (to_second to_first : BiMapping.map_arg)
    (bimapping : option BiMapping.t) : bool :=
  match bimapping with
  | None => xorb (BiMappingList.is_none to_second) (BiMappingList.is_none to_first)
  | Some _ => given to_second || given to_first
  end.

(** The condition the code tests: no [bimapping] and at least one of
    [to_second] / [to_first] missing, or a [bimapping] together with
    [to_second] or [to_first]. *)
Definition add_error (to_second to_first : BiMapping.map_arg)
    (bimapping : option BiMapping.t) : bool :=
  match bimapping with
  | None => BiMappingList.is_none to_second || BiMappingList.is_none to_first
  | Some _ => given to_second || given to_first
  end.

(** The mappings the new entry is built from. *)
Definition source_of (a : BiMapping.map_arg) (pick : BiMapping.t -> Mapping.t)
    (bimapping : option BiMapping.t) : BiMapping.map_arg :=
  match bimapping with
  | None => a
  | Some b => BiMapping.ArgMapping (pick b)
  end.

(** [self[phase][name]] *)
Definition registered {V} (self : OptionDict.t V) (phase : Z) (name : string)
  : result V :=
  let! d := OptionDict.getitem self phase in dict_item d name.

(** C7, as stated, fails: with neither a [bimapping] nor [to_second] /
    [to_first], none of the two stated conditions holds, yet [add] raises;
    and with an [int] for [to_second] (a type its signature admits) none
    holds either, and the call does not succeed: the [BiMapping]
    constructor refuses the [int]. *)
Lemma BiMappingList_add_nothing_raises :
  spec_add_error BiMapping.ArgNone BiMapping.ArgNone None = false /\
  BiMappingList.add OptionDict.init "q" BiMapping.ArgNone BiMapping.ArgNone
    Mapping.OpposeNone Mapping.OpposeNone None (-1) = Raise ValueError /\
  spec_add_error (BiMapping.ArgInt 3) (BiMapping.ArgSeq [Some 0]) None = false /\
  BiMappingList.add OptionDict.init "q" (BiMapping.ArgInt 3) (BiMapping.ArgSeq [Some 0])
    Mapping.OpposeNone Mapping.OpposeNone None (-1) = Raise RuntimeError.
Proof. repeat split; reflexivity. Qed.

Lemma BiMapping_init_no_ValueError ph ts tf o2 o1 :
  BiMapping.init ph ts tf o2 o1 <> Raise ValueError.
Proof.
  assert (Hfold : forall l o, foldM (fun o i => py_set o i (-1)) l o <> Raise ValueError).
  { induction l as [|i l IH]; intros o; simpl; [discriminate|].
    unfold py_set at 1. destruct (py_index (length o) i); simpl; [apply IH|discriminate]. }
  assert (Hinit : forall l o, Mapping.init l o <> Raise ValueError).
  { intros l o. unfold Mapping.init.
    destruct o as [|i|l']; [discriminate| |].
    - specialize (Hfold [i] (replicate (length l) 1)).
      destruct (foldM _ [i] _); simpl; congruence.
    - specialize (Hfold l' (replicate (length l) 1)).
      destruct (foldM _ l' _); simpl; congruence. }
  assert (Hwrap : forall a o, BiMapping.wrap a o <> Raise ValueError).
  { intros a o. destruct a; simpl; try discriminate.
    specialize (Hinit l o). destruct (Mapping.init l o); simpl; congruence. }
  unfold BiMapping.init. destruct (OptionDict.generic_phase ph) as [ph' auto].
  specialize (Hwrap ts o2) as H2. destruct (BiMapping.wrap ts o2) as [a2|e2]; simpl; [|congruence].
  specialize (Hwrap tf o1) as H1. destruct (BiMapping.wrap tf o1) as [a1|e1]; simpl; [|congruence].
  destruct a2; try discriminate. destruct a1; discriminate.
Qed.

Lemma OptionDict_add_error {V} (self : OptionDict.t V) key phase option_type e :
  OptionDict._add self key phase option_type = Raise e ->
  option_type phase = Raise e \/ e = IndexError.
Proof.
  unfold OptionDict._add. destruct (option_type phase) as [v|e']; simpl.
  - set (l := self ++ _). unfold py_get, py_set.
    destruct (py_index (length l) phase) as [k|]; simpl.
    + destruct (l !! k); simpl; [discriminate|]. intros [= <-]. auto.
    + intros [= <-]. auto.
  - intros [= <-]. auto.
Qed.

(** C7, amended.  [add] raises the configuration error exactly when no
    [bimapping] is given and at least one of [to_second] / [to_first] is
    missing, or a [bimapping] is given together with [to_second] or
    [to_first].  In every other case, once the [BiMapping] can be built from
    the arguments and the phase denotes a dictionary, [add] succeeds and the
    built [BiMapping] is found under the given name and phase. *)
Theorem BiMappingList_add_errors (self : BiMappingList.t) (name : string)
    (to_second to_first : BiMapping.map_arg)
    (oppose_to_second oppose_to_first : Mapping.oppose_arg)
    (bimapping : option BiMapping.t) (phase : Z) :
  (BiMappingList.add self name to_second to_first oppose_to_second oppose_to_first
     bimapping phase = Raise ValueError
   <-> add_error to_second to_first bimapping = true) /\
  (forall b,
      add_error to_second to_first bimapping = false ->
      BiMapping.init phase (source_of to_second BiMapping.to_second bimapping)
        (source_of to_first BiMapping.to_first bimapping)
        oppose_to_second oppose_to_first = Ok b ->
      0 <= phase \/ - Z.of_nat (length self) <= phase ->
      exists self',
        BiMappingList.add self name to_second to_first oppose_to_second
          oppose_to_first bimapping phase = Ok self' /\
        registered self' phase name = Ok b).
Proof.
  assert (Hmaps : forall ts tf,
    BiMappingList.is_none ts || BiMappingList.is_none tf = false ->
    BiMappingList.add_maps self name ts tf oppose_to_second oppose_to_first phase
      <> Raise ValueError).
  { intros ts tf Hn H. unfold BiMappingList.add_maps in H. rewrite Hn in H.
    apply OptionDict_add_error in H as [H|H]; [|discriminate].
    now apply BiMapping_init_no_ValueError in H. }
  assert (Hreg : forall ts tf b,
    BiMappingList.is_none ts || BiMappingList.is_none tf = false ->
    BiMapping.init phase ts tf oppose_to_second oppose_to_first = Ok b ->
    0 <= phase \/ - Z.of_nat (length self) <= phase ->
    exists self',
      BiMappingList.add_maps self name ts tf oppose_to_second oppose_to_first phase
        = Ok self' /\ registered self' phase name = Ok b).
  { intros ts tf b Hn Hb Hph. unfold BiMappingList.add_maps. rewrite Hn.
    destruct (OptionDict_add_ok self name phase
                (fun ph => BiMapping.init ph ts tf oppose_to_second oppose_to_first)
                b Hb Hph) as [self' Hs].
    exists self'. split; [exact Hs|].
    apply OptionDict_add_registers in Hs as (v & Hv & Hs).
    simpl in Hv. rewrite Hb in Hv. inversion Hv; subst v. exact Hs. }
  split.
  - unfold BiMappingList.add, add_error, given.
    destruct bimapping as [b0|].
    + destruct (negb (BiMappingList.is_none to_second)
                || negb (BiMappingList.is_none to_first)) eqn:E.
      * split; reflexivity.
      * split; [|discriminate]. intros H. now apply Hmaps in H.
    + destruct (BiMappingList.is_none to_second || BiMappingList.is_none to_first) eqn:E.
      * unfold BiMappingList.add_maps. rewrite E. split; reflexivity.
      * split; [|discriminate]. intros H. now apply Hmaps in H.
  - intros b Hne Hb Hph. unfold BiMappingList.add.
    unfold add_error, given in Hne. destruct bimapping as [b0|]; simpl in Hb.
    + rewrite Hne. now apply Hreg.
    + now apply Hreg.
Qed.

Lemma BiMappingList_add_errors_witness :
  exists self',
    BiMappingList.add OptionDict.init "q"
      (BiMapping.ArgSeq [Some 0; Some 1; None]) (BiMapping.ArgSeq [Some 0; Some 1])
      Mapping.OpposeNone Mapping.OpposeNone None (-1) = Ok self' /\
    registered self' (-1) "q"
    = Ok (BiMapping.Build 0 true (Mapping.Build [Some 0; Some 1; None] [1; 1; 1])
            (Mapping.Build [Some 0; Some 1] [1; 1])).
Proof.
  apply (BiMappingList_add_errors OptionDict.init "q"
           (BiMapping.ArgSeq [Some 0; Some 1; None]) (BiMapping.ArgSeq [Some 0; Some 1])
           Mapping.OpposeNone Mapping.OpposeNone None (-1)).
  - reflexivity.
  - reflexivity.
  - right. simpl. lia.
Defined.

(** ** [NodeMappingList.add] *)

(** The four declared validations, in the order the code runs them; [None]
    when all pass. *)
Definition validation (map_states map_controls : bool)
    (phase_pre phase_post : option Z)
    (variable_mapping : NodeMappingList.mapping_arg) : option exn :=
  if negb map_states && negb map_controls then Some Warning
  else if map_states && map_controls then Some ValueError
  else match phase_pre, phase_post with
  | Some pre, Some post =>
      if post <? pre then Some ValueError
      else match variable_mapping with
      | NodeMappingList.VmOther => Some ValueError
      | _ => None
      end
  | _, _ => Some ValueError
  end.

(** A failed validation is what [add] raises: the checks run in the listed
    order and the first violation decides. *)
Lemma NodeMappingList_add_validation self name ms mc pre post index vm e :
  validation ms mc pre post vm = Some e ->
  NodeMappingList.add self name ms mc pre post index vm = Raise e.
Proof.
  unfold validation, NodeMappingList.add.
  destruct (negb ms && negb mc); [congruence|].
  destruct (ms && mc); [congruence|].
  destruct pre as [p|], post as [q|]; try congruence.
  destruct (q <? p); [congruence|].
  destruct vm; congruence.
Qed.

(** C6, at the failing input: one of [map_states] / [map_controls] is set,
    both phases are given with [phase_pre <= phase_post], and
    [variable_mapping] is left at its default [None]; all four validations
    pass and the call raises all the same. *)
Lemma NodeMappingList_add_default_mapping_raises :
  validation true false (Some 0) (Some 1) NodeMappingList.VmNone = None /\
  NodeMappingList.add OptionDict.init "q" true false (Some 0) (Some 1) (Some [0])
    NodeMappingList.VmNone = Raise TypeError.
Proof. split; reflexivity. Qed.

(** C10.  A call that passes the four validations with
    [variable_mapping = None] raises, at the subscript
    [variable_mapping[phase_pre][name]]; a call that succeeds was handed a
    [BiMappingList] holding an entry for [name] at [phase_pre], and the
    [NodeMapping] it stores under [name] at [phase_pre] carries that one
    [BiMapping]. *)
Theorem NodeMappingList_add_needs_entry (self : NodeMappingList.t) (name : string)
    (map_states map_controls : bool) (phase_pre phase_post : option Z)
    (index : option (list Z)) (variable_mapping : NodeMappingList.mapping_arg) :
  (variable_mapping = NodeMappingList.VmNone ->
   validation map_states map_controls phase_pre phase_post variable_mapping = None ->
   NodeMappingList.add self name map_states map_controls phase_pre phase_post index
     variable_mapping = Raise TypeError) /\
  (forall self',
      NodeMappingList.add self name map_states map_controls phase_pre phase_post
        index variable_mapping = Ok self' ->
      exists l pre b nm,
        variable_mapping = NodeMappingList.VmList l /\
        phase_pre = Some pre /\
        registered l pre name = Ok b /\
        registered self' pre name = Ok nm /\
        NodeMapping.variable_mapping nm = b).
Proof.
  split.
  - intros -> Hv. unfold validation in Hv. unfold NodeMappingList.add.
    destruct (negb map_states && negb map_controls); [discriminate|].
    destruct (map_states && map_controls); [discriminate|].
    destruct phase_pre as [p|], phase_post as [q|]; try discriminate.
    destruct (q <? p); [discriminate|]. reflexivity.
  - intros self' H. unfold NodeMappingList.add in H.
    destruct (negb map_states && negb map_controls); [discriminate|].
    destruct (map_states && map_controls); [discriminate|].
    destruct phase_pre as [p|], phase_post as [q|]; try discriminate.
    destruct (q <? p); [discriminate|].
    destruct variable_mapping as [|l|]; try discriminate.
    apply bind_ok in H as (b & Hb & H).
    apply OptionDict_add_registers in H as (nm & Hnm & Hreg).
    exists l, p, b, nm. repeat split; auto.
    destruct (OptionDict.generic_phase p) as [ph auto].
    inversion Hnm; subst nm. reflexivity.
Qed.

Lemma NodeMappingList_add_needs_entry_witness :
  NodeMappingList.add OptionDict.init "q" true false (Some 0) (Some 1) (Some [0; 1])
    NodeMappingList.VmNone = Raise TypeError.
Proof.
  apply (NodeMappingList_add_needs_entry OptionDict.init "q" true false
           (Some 0) (Some 1) (Some [0; 1]) NodeMappingList.VmNone);
    reflexivity.
Defined.

(** With a [BiMappingList] that holds the entry, the same call succeeds. *)
Example NodeMappingList_add_with_entry :
  (let! l := BiMappingList.add OptionDict.init "q"
               (BiMapping.ArgSeq [Some 0; Some 1]) (BiMapping.ArgSeq [Some 0; Some 1])
               Mapping.OpposeNone Mapping.OpposeNone None (-1) in
   let! self := NodeMappingList.add OptionDict.init "q" true false (Some 0) (Some 1)
                  (Some [0; 1]) (NodeMappingList.VmList l) in
   let! nm := registered self 0 "q" in
   Ok (is_ok (registered l 0 "q"), NodeMapping.phase_pre nm, NodeMapping.phase_post nm))
  = Ok (true, 0, 1).
Proof. reflexivity. Qed.

(** ** [BiMappingList.variable_mapping_fill_phases] *)

Section FillPhases.

(** The dictionary of phase [i] (empty beyond the end) and the entry of
    name [k] in it. *)
Definition dict_at {V} (S : list (dict V)) (i : nat) : dict V := default [] (S !! i).
Definition cell {V} (S : list (dict V)) (i : nat) (k : string) : option V :=
  dict_get (dict_at S i) k.

(** [self.options[i][k] = v], growing the list as [_add] does. *)
Definition put {V} (i : nat) (k : string) (v : V) (S : list (dict V)) : list (dict V) :=
  let S' := S ++ replicate (i + 1 - length S) [] in
  <[i := dict_set (dict_at S' i) k v]> S'.

Lemma dict_at_extend {V} (S : list (dict V)) (m i : nat) :
  dict_at (S ++ replicate m []) i = dict_at S i.
Proof.
  unfold dict_at. destruct (decide (i < length S)%nat).
  - now rewrite lookup_app_l.
  - rewrite lookup_app_r by lia. rewrite (lookup_ge_None_2 S) by lia.
    destruct (replicate m [] !! (i - length S)%nat) eqn:E; [|reflexivity].
    apply lookup_replicate in E as [-> _]. reflexivity.
Qed.

Lemma put_length {V} (i : nat) k (v : V) S :
  length (put i k v S) = Nat.max (length S) (i + 1).
Proof. unfold put. rewrite length_insert, length_app, length_replicate. lia. Qed.

Lemma dict_at_put_eq {V} (i : nat) k (v : V) S :
  dict_at (put i k v S) i = dict_set (dict_at S i) k v.
Proof.
  unfold put. rewrite dict_at_extend. unfold dict_at at 1.
  rewrite list_lookup_insert_eq; [reflexivity|].
  rewrite length_app, length_replicate. lia.
Qed.

Lemma dict_at_put_ne {V} (i j : nat) k (v : V) S :
  i <> j -> dict_at (put i k v S) j = dict_at S j.
Proof.
  intros Hne. unfold put. unfold dict_at at 1.
  rewrite list_lookup_insert_ne by exact Hne.
  fold (dict_at (S ++ replicate (i + 1 - length S) []) j).
  apply dict_at_extend.
Qed.

Lemma cell_put_eq {V} (i : nat) k (v : V) S : cell (put i k v S) i k = Some v.
Proof. unfold cell. rewrite dict_at_put_eq. apply dict_get_set_eq. Qed.

Lemma cell_put_ne {V} (i j : nat) k k' (v : V) S :
  i <> j \/ k <> k' -> cell (put i k v S) j k' = cell S j k'.
Proof.
  intros H. unfold cell. destruct (decide (i = j)) as [->|Hne].
  - rewrite dict_at_put_eq. apply dict_get_set_ne. destruct H; congruence.
  - now rewrite dict_at_put_ne.
Qed.

Lemma cell_lt {V} (S : list (dict V)) i k v : cell S i k = Some v -> (i < length S)%nat.
Proof.
  unfold cell, dict_at. intros H. destruct (S !! i) eqn:E.
  - eapply lookup_lt_Some; eauto.
  - discriminate.
Qed.

Lemma dict_set_keys {V} (d : dict V) k (v : V) :
  is_Some (dict_get d k) -> dict_keys (dict_set d k v) = dict_keys d.
Proof.
  unfold dict_keys. induction d as [|[k0 v0] d IH]; simpl.
  - intros [? ?]. discriminate.
  - destruct (String.eqb k0 k) eqn:E; simpl; [reflexivity|].
    intros H. f_equal. auto.
Qed.

Lemma dict_set_id {V} (d : dict V) k (v : V) :
  dict_get d k = Some v -> dict_set d k v = d.
Proof.
  induction d as [|[k0 v0] d IH]; simpl; [discriminate|].
  destruct (String.eqb k0 k) eqn:E.
  - intros [= ->]. reflexivity.
  - intros H. f_equal. auto.
Qed.

Lemma put_id {V} (i : nat) k (v : V) S : cell S i k = Some v -> put i k v S = S.
Proof.
  intros H. pose proof (cell_lt _ _ _ _ H) as Hlt.
  unfold put. replace (i + 1 - length S)%nat with 0%nat by lia.
  simpl. rewrite app_nil_r.
  unfold cell in H. rewrite (dict_set_id _ _ _ H).
  apply list_insert_id. unfold dict_at.
  destruct (S !! i) eqn:E; [reflexivity|].
  apply lookup_ge_None in E. lia.
Qed.

Lemma put_keys {V} (i j : nat) k (v : V) S :
  is_Some (cell S i k) -> dict_keys (dict_at (put i k v S) j) = dict_keys (dict_at S j).
Proof.
  intros H. destruct (decide (i = j)) as [->|Hne].
  - rewrite dict_at_put_eq. now apply dict_set_keys.
  - now rewrite dict_at_put_ne.
Qed.

Lemma cell_keys {V} (S : list (dict V)) i k :
  is_Some (cell S i k) <-> k ∈ dict_keys (dict_at S i).
Proof.
  unfold cell, dict_keys. induction (dict_at S i) as [|[k0 v0] d IH]; simpl.
  - split; [intros [? ?]; discriminate|]. intros H. inversion H.
  - destruct (String.eqb k0 k) eqn:E.
    + apply String.eqb_eq in E. subst. split; [|eauto]. intros _. left.
    + apply String.eqb_neq in E. rewrite IH. split.
      * intros H. now right.
      * intros H. inversion H; subst; [congruence|assumption].
Qed.

End FillPhases.

(** The entry [add] files for phase [i] when handed the [BiMapping] [b]. *)
Definition copy (i : nat) (b : BiMapping.t) : BiMapping.t :=
  BiMapping.Build (Z.of_nat i) false (BiMapping.to_second b) (BiMapping.to_first b).

(** The copies written for the phases listed in [l]. *)
Definition copies (l : list nat) (k : string) (b : BiMapping.t)
    (S : BiMappingList.t) : BiMappingList.t :=
  fold_left (fun S i => put i k (copy i b) S) l S.

(** What the loop over the phases does to one entry, as a function. *)
Definition visit (n : nat) (d : nat) (S : BiMappingList.t) (k : string) : BiMappingList.t :=
  match cell S d k with
  | Some b =>
      if BiMapping.automatic_multiple_phase b then
        match n with
        | O => S
        | S m => copies (seq 1 m) k b (put d k (BiMapping.set_phase b 0) S)
        end
      else S
  | None => S
  end.

Definition visit_dict (n : nat) (d : nat) (S : BiMappingList.t) : BiMappingList.t :=
  fold_left (visit n d) (dict_keys (dict_at S d)) S.

Fixpoint pass (n fuel d : nat) (S : BiMappingList.t) : BiMappingList.t :=
  match fuel with
  | O => S
  | Datatypes.S fuel =>
      if (d <? length S)%nat then pass n fuel (Datatypes.S d) (visit_dict n d S) else S
  end.

Lemma py_get_dict_at {V} (S : list (dict V)) (d : nat) :
  (d < length S)%nat -> py_get S (Z.of_nat d) = Ok (dict_at S d).
Proof.
  intros H. destruct (lookup_lt_is_Some_2 S d H) as [x Hx].
  rewrite (py_get_nat _ _ _ Hx). unfold dict_at. now rewrite Hx.
Qed.

Lemma OptionDict_add_put {V} (S : list (dict V)) (k : string) (i : nat)
    (option_type : Z -> result V) (v : V) :
  option_type (Z.of_nat i) = Ok v ->
  OptionDict._add S k (Z.of_nat i) option_type = Ok (put i k v S).
Proof.
  intros Hv. unfold OptionDict._add. rewrite Hv. simpl.
  replace (Z.to_nat (Z.of_nat i + 1) - length S)%nat with (i + 1 - length S)%nat by lia.
  set (S' := S ++ replicate (i + 1 - length S) []).
  assert (Hlt : (i < length S')%nat).
  { unfold S'. rewrite length_app, length_replicate. lia. }
  rewrite (py_get_dict_at S' i Hlt). simpl.
  unfold py_set. rewrite py_index_nat by exact Hlt. reflexivity.
Qed.

Lemma py_set_put {V} (S : list (dict V)) (k : string) (d : nat) (v : V) :
  (d < length S)%nat ->
  py_set S (Z.of_nat d) (dict_set (dict_at S d) k v) = Ok (put d k v S).
Proof.
  intros H. unfold py_set. rewrite py_index_nat by exact H.
  unfold put. replace (d + 1 - length S)%nat with 0%nat by lia.
  simpl. now rewrite app_nil_r.
Qed.

Lemma add_copy (S : BiMappingList.t) (k : string) (b : BiMapping.t) (m : nat) :
  BiMappingList.add S k BiMapping.ArgNone BiMapping.ArgNone
    Mapping.OpposeNone Mapping.OpposeNone (Some b) (Z.of_nat (Datatypes.S m))
  = Ok (put (Datatypes.S m) k (copy (Datatypes.S m) b) S).
Proof.
  unfold BiMappingList.add, BiMappingList.add_maps. simpl negb. simpl orb.
  cbv iota. apply OptionDict_add_put.
  unfold BiMapping.init, OptionDict.generic_phase.
  destruct (Z.eqb_spec (Z.of_nat (Datatypes.S m)) (-1)) as [E|E]; [lia|].
  reflexivity.
Qed.

Lemma copy_copy i j b : copy i (copy j b) = copy i b.
Proof. reflexivity. Qed.

Lemma copy_set_phase i b ph : copy i (BiMapping.set_phase b ph) = copy i b.
Proof. reflexivity. Qed.

Lemma foldM_fold_left {A St} (f : St -> A -> result St) (g : St -> A -> St)
    (Inv : St -> Prop) (l : list A) :
  (forall st x, Inv st -> x ∈ l -> f st x = Ok (g st x) /\ Inv (g st x)) ->
  forall st, Inv st -> foldM f l st = Ok (fold_left g l st) /\ Inv (fold_left g l st).
Proof.
  induction l as [|x l IH]; intros Hstep st Hst; simpl; [auto|].
  destruct (Hstep st x Hst) as [-> Hinv]; [left|]. simpl.
  apply IH; [|exact Hinv]. intros st' y Hst' Hy. apply Hstep; [exact Hst'|now right].
Qed.

Definition similar (b' b : BiMapping.t) : Prop :=
  BiMapping.to_second b' = BiMapping.to_second b /\
  BiMapping.to_first b' = BiMapping.to_first b.

Lemma similar_copy i b' b : similar b' b -> copy i b' = copy i b.
Proof. intros [H1 H2]. unfold copy. now rewrite H1, H2. Qed.

Lemma fill_phase_succ (d : nat) (k : string) (S : BiMappingList.t) (b : BiMapping.t) (m : nat) :
  cell S d k = Some b ->
  BiMappingList.fill_phase d k S (Datatypes.S m)
  = Ok (put (Datatypes.S m) k (copy (Datatypes.S m) b) S).
Proof.
  intros H. unfold BiMappingList.fill_phase.
  rewrite (py_get_dict_at S d (cell_lt _ _ _ _ H)). simpl.
  unfold dict_item. unfold cell in H. rewrite H. simpl. apply add_copy.
Qed.

Lemma fill_phases_copies (d : nat) (k : string) (b : BiMapping.t) (l : list nat) :
  Forall (fun i => (1 <= i)%nat) l ->
  forall S b', cell S d k = Some b' -> similar b' b ->
    foldM (BiMappingList.fill_phase d k) l S = Ok (copies l k b S).
Proof.
  intros Hl S b' Hc Hs.
  apply (foldM_fold_left (BiMappingList.fill_phase d k)
           (fun S i => put i k (copy i b) S)
           (fun S => exists b', cell S d k = Some b' /\ similar b' b) l); [|eauto].
  clear S b' Hc Hs. intros S i (b' & Hc & Hs) Hi.
  rewrite List.Forall_forall in Hl.
  specialize (Hl i (proj1 (list_elem_of_In _ _) Hi)).
  destruct i as [|m]; [lia|].
  rewrite (fill_phase_succ d k S b' m Hc), (similar_copy _ _ _ Hs).
  split; [reflexivity|].
  destruct (decide (Datatypes.S m = d)) as [<-|Hne].
  - exists (copy (Datatypes.S m) b). rewrite cell_put_eq. split; [reflexivity|].
    split; reflexivity.
  - exists b'. rewrite cell_put_ne by (left; exact Hne). auto.
Qed.

Lemma fill_key_visit (n d : nat) (S : BiMappingList.t) (k : string) :
  is_Some (cell S d k) -> BiMappingList.fill_key n d S k = Ok (visit n d S k).
Proof.
  intros [b Hb]. unfold BiMappingList.fill_key, visit.
  pose proof (cell_lt _ _ _ _ Hb) as Hlt.
  rewrite (py_get_dict_at S d Hlt). simpl.
  unfold dict_item. rewrite Hb. unfold cell in Hb. rewrite Hb. simpl.
  destruct (BiMapping.automatic_multiple_phase b); [|reflexivity].
  destruct n as [|m]; [reflexivity|].
  change (seq 0 (Datatypes.S m)) with (0%nat :: seq 1 m). simpl foldM.
  unfold BiMappingList.fill_phase at 1.
  rewrite (py_get_dict_at S d Hlt). simpl. unfold dict_item. rewrite Hb. simpl.
  rewrite (py_set_put S k d _ Hlt). simpl.
  apply (fill_phases_copies d k b (seq 1 m)) with (b' := BiMapping.set_phase b 0).
  - apply List.Forall_forall. intros i Hi. apply List.in_seq in Hi. lia.
  - apply cell_put_eq.
  - split; reflexivity.
Qed.

Lemma copies_keys_at (l : list nat) (k : string) (b : BiMapping.t) (d : nat) :
  forall S, is_Some (cell S d k) ->
    dict_keys (dict_at (copies l k b S) d) = dict_keys (dict_at S d) /\
    is_Some (cell (copies l k b S) d k).
Proof.
  induction l as [|i l IH]; intros S HS; simpl; [auto|].
  assert (Hk : dict_keys (dict_at (put i k (copy i b) S) d) = dict_keys (dict_at S d)).
  { destruct (decide (i = d)) as [->|Hne].
    - now apply put_keys.
    - now rewrite dict_at_put_ne. }
  assert (Hc : is_Some (cell (put i k (copy i b) S) d k)).
  { destruct (decide (i = d)) as [->|Hne].
    - rewrite cell_put_eq. eauto.
    - rewrite cell_put_ne by (left; exact Hne). exact HS. }
  destruct (IH _ Hc) as [H1 H2]. split; [congruence|exact H2].
Qed.

Lemma visit_keys_at (n d : nat) (S : BiMappingList.t) (k : string) :
  dict_keys (dict_at (visit n d S k) d) = dict_keys (dict_at S d).
Proof.
  unfold visit. destruct (cell S d k) as [b|] eqn:Hb; [|reflexivity].
  destruct (BiMapping.automatic_multiple_phase b); [|reflexivity].
  destruct n as [|m]; [reflexivity|].
  destruct (copies_keys_at (seq 1 m) k b d (put d k (BiMapping.set_phase b 0) S)) as [H _].
  - rewrite cell_put_eq. eauto.
  - rewrite H. apply put_keys. rewrite Hb. eauto.
Qed.

Lemma fill_dict_visit (n d : nat) (S : BiMappingList.t) :
  (d < length S)%nat -> BiMappingList.fill_dict n d S = Ok (visit_dict n d S).
Proof.
  intros Hlt. unfold BiMappingList.fill_dict, visit_dict.
  rewrite (py_get_dict_at S d Hlt). simpl.
  apply (foldM_fold_left (BiMappingList.fill_key n d) (visit n d)
           (fun S' => dict_keys (dict_at S' d) = dict_keys (dict_at S d))
           (dict_keys (dict_at S d))); [|reflexivity].
  intros S' k HS' Hk. split.
  - apply fill_key_visit. apply cell_keys. now rewrite HS'.
  - now rewrite visit_keys_at.
Qed.

Lemma fill_from_pass (n fuel : nat) :
  forall d S, BiMappingList.fill_from n fuel d S = Ok (pass n fuel d S).
Proof.
  induction fuel as [|fuel IH]; intros d S; simpl; [reflexivity|].
  destruct (Nat.ltb_spec d (length S)); [|reflexivity].
  rewrite fill_dict_visit by assumption. simpl. apply IH.
Qed.

(** *** What one visit writes *)

Lemma cell_copies_out (l : list nat) (k k' : string) (b : BiMapping.t) (i : nat) :
  k' <> k \/ i ∉ l ->
  forall S, cell (copies l k b S) i k' = cell S i k'.
Proof.
  induction l as [|j l IH]; intros H S; simpl; [reflexivity|].
  rewrite IH.
  - apply cell_put_ne. destruct H as [H|H]; [right; congruence|].
    left. intros ->. apply H. left.
  - destruct H as [H|H]; [left; exact H|]. right. intros Hi. apply H. now right.
Qed.

Lemma cell_copies_in (l : list nat) (k : string) (b : BiMapping.t) (i : nat) :
  i ∈ l -> forall S, cell (copies l k b S) i k = Some (copy i b).
Proof.
  induction l as [|j l IH]; intros Hi S; [inversion Hi|]. simpl.
  destruct (decide (i ∈ l)) as [Hin|Hout].
  - now apply IH.
  - rewrite cell_copies_out by (right; exact Hout).
    assert (i = j) as -> by (inversion Hi; subst; [reflexivity|contradiction]).
    apply cell_put_eq.
Qed.

Lemma elem_of_seq1 (i m : nat) : i ∈ seq 1 m <-> (1 <= i <= m)%nat.
Proof. rewrite list_elem_of_In, List.in_seq. lia. Qed.

Definition auto_at (S : BiMappingList.t) (d : nat) (k : string) (b : BiMapping.t) : Prop :=
  cell S d k = Some b /\ BiMapping.automatic_multiple_phase b = true.

Lemma visit_noop (n d : nat) (S : BiMappingList.t) (k : string) :
  (forall b, auto_at S d k b -> False) -> visit n d S k = S.
Proof.
  intros H. unfold visit. destruct (cell S d k) as [b|] eqn:E; [|reflexivity].
  destruct (BiMapping.automatic_multiple_phase b) eqn:Ea; [|reflexivity].
  exfalso. apply (H b). split; assumption.
Qed.

Lemma visit_auto (m d : nat) (S : BiMappingList.t) (k : string) (b : BiMapping.t) :
  auto_at S d k b ->
  visit (Datatypes.S m) d S k = copies (seq 1 m) k b (put d k (BiMapping.set_phase b 0) S).
Proof. intros [Hc Ha]. unfold visit. now rewrite Hc, Ha. Qed.

Lemma visit_cell_other (m d : nat) (S : BiMappingList.t) (k k' : string) (i : nat) :
  k' <> k -> cell (visit (Datatypes.S m) d S k) i k' = cell S i k'.
Proof.
  intros Hne. unfold visit. destruct (cell S d k) as [b|] eqn:E; [|reflexivity].
  destruct (BiMapping.automatic_multiple_phase b); [|reflexivity].
  rewrite cell_copies_out by (left; exact Hne).
  apply cell_put_ne. right. congruence.
Qed.

Lemma visit_cell_in (m d : nat) (S : BiMappingList.t) (k : string) (b : BiMapping.t) (i : nat) :
  auto_at S d k b -> (1 <= i <= m)%nat ->
  cell (visit (Datatypes.S m) d S k) i k = Some (copy i b).
Proof.
  intros Ha Hi. rewrite (visit_auto _ _ _ _ _ Ha).
  now apply cell_copies_in, elem_of_seq1.
Qed.

Lemma visit_cell_self (m d : nat) (S : BiMappingList.t) (k : string) (b : BiMapping.t) :
  auto_at S d k b -> ~ (1 <= d <= m)%nat ->
  cell (visit (Datatypes.S m) d S k) d k = Some (BiMapping.set_phase b 0).
Proof.
  intros Ha Hd. rewrite (visit_auto _ _ _ _ _ Ha).
  rewrite cell_copies_out by (right; now rewrite elem_of_seq1).
  apply cell_put_eq.
Qed.

Lemma visit_cell_far (m d : nat) (S : BiMappingList.t) (k : string) (i : nat) :
  ~ (1 <= i <= m)%nat -> i <> d ->
  cell (visit (Datatypes.S m) d S k) i k = cell S i k.
Proof.
  intros Hi Hne. unfold visit. destruct (cell S d k) as [b|] eqn:E; [|reflexivity].
  destruct (BiMapping.automatic_multiple_phase b); [|reflexivity].
  rewrite cell_copies_out by (right; now rewrite elem_of_seq1).
  apply cell_put_ne. left. congruence.
Qed.

(** *** The first call: what holds of the entries already visited *)

(** The entries visited so far: every dictionary before [d], and the keys
    [ks] of dictionary [d]. *)
Definition seen (d : nat) (ks : list string) (d' : nat) (k' : string) : Prop :=
  (d' < d)%nat \/ (d' = d /\ k' ∈ ks).

Record settled (m : nat) (V : nat -> string -> Prop) (S : BiMappingList.t) : Prop :=
  { s_phase : forall d k b, V d k -> auto_at S d k b -> BiMapping.phase b = 0;
    s_cover : forall d k b, V d k -> auto_at S d k b ->
      forall i, (1 <= i <= m)%nat ->
        exists c, cell S i k = Some c /\ BiMapping.automatic_multiple_phase c = false;
    s_last : forall d k b, V d k -> auto_at S d k b ->
      (forall d' b', (d < d')%nat -> V d' k -> auto_at S d' k b' -> False) ->
      forall i, (1 <= i <= m)%nat -> cell S i k = Some (copy i b) }.

Lemma settled_mono (m : nat) (V V' : nat -> string -> Prop) (S : BiMappingList.t) :
  (forall d k, V d k -> V' d k) ->
  (forall d k b, V' d k -> auto_at S d k b -> V d k) ->
  settled m V S -> settled m V' S.
Proof.
  intros Hsub Hback [H1 H2 H3]. split.
  - intros d k b Hv Ha. eapply H1; eauto.
  - intros d k b Hv Ha. eapply H2; eauto.
  - intros d k b Hv Ha Hl. eapply H3; eauto.
Qed.

Lemma seen_snoc (d : nat) (ks : list string) (k : string) (d' : nat) (k' : string) :
  seen d (ks ++ [k]) d' k' <-> seen d ks d' k' \/ (d' = d /\ k' = k).
Proof.
  unfold seen. rewrite elem_of_app, list_elem_of_singleton. tauto.
Qed.

Lemma copy_not_auto (S : BiMappingList.t) (d : nat) (k : string) (b c : BiMapping.t) (i : nat) :
  auto_at S d k b -> cell S d k = Some (copy i c) -> False.
Proof. intros [Hc Ha] H. rewrite Hc in H. inversion H; subst b. discriminate. Qed.

Lemma settled_visit (m d : nat) (ks : list string) (k : string) (S : BiMappingList.t) :
  settled m (seen d ks) S ->
  settled m (seen d (ks ++ [k])) (visit (Datatypes.S m) d S k).
Proof.
  intros HS.
  destruct (cell S d k) as [b|] eqn:Hc;
    [destruct (BiMapping.automatic_multiple_phase b) eqn:Hb|].
  2,3: rewrite visit_noop by (intros b' [H1 H2]; congruence);
       apply (settled_mono m (seen d ks)); [| |exact HS];
       [intros d0 k0 H; apply seen_snoc; now left
       |intros d0 k0 b0 H [H1 H2]; apply seen_snoc in H as [H|[-> ->]];
        [exact H|congruence]].
  assert (Ha : auto_at S d k b) by (split; assumption).
  set (S' := visit (Datatypes.S m) d S k).
  (* entries of another name are untouched *)
  assert (Hother : forall k0 d0 b0, k0 <> k ->
            auto_at S' d0 k0 b0 -> auto_at S d0 k0 b0).
  { intros k0 d0 b0 Hne [H1 H2]. unfold S' in H1.
    rewrite visit_cell_other in H1 by exact Hne. split; assumption. }
  (* an automatic entry of this name, after the visit *)
  assert (Hsame : forall d0 b0, auto_at S' d0 k b0 ->
            ~ (1 <= d0 <= m)%nat /\
            ((d0 = d /\ b0 = BiMapping.set_phase b 0) \/ (d0 <> d /\ auto_at S d0 k b0))).
  { intros d0 b0 Ha0.
    assert (Hd0 : ~ (1 <= d0 <= m)%nat).
    { intros Hin. apply (copy_not_auto S' d0 k b0 b d0 Ha0).
      unfold S'. now apply visit_cell_in. }
    split; [exact Hd0|]. destruct (decide (d0 = d)) as [->|Hne].
    - left. split; [reflexivity|]. destruct Ha0 as [H1 _]. unfold S' in H1.
      rewrite (visit_cell_self m d S k b Ha Hd0) in H1. congruence.
    - right. split; [exact Hne|]. destruct Ha0 as [H1 H2]. unfold S' in H1.
      rewrite visit_cell_far in H1 by assumption. split; assumption. }
  assert (Hcover : forall i, (1 <= i <= m)%nat ->
            exists c, cell S' i k = Some c /\ BiMapping.automatic_multiple_phase c = false).
  { intros i Hi. exists (copy i b). split; [|reflexivity].
    unfold S'. now apply visit_cell_in. }
  split.
  - intros d0 k0 b0 Hv Ha0. destruct (decide (k0 = k)) as [->|Hne].
    + destruct (Hsame d0 b0 Ha0) as [_ [[-> ->]|[Hd Hold]]]; [reflexivity|].
      apply seen_snoc in Hv as [Hv|[? _]]; [|contradiction].
      eapply (s_phase _ _ _ HS); eauto.
    + apply seen_snoc in Hv as [Hv|[_ ?]]; [|contradiction].
      eapply (s_phase _ _ _ HS); eauto.
  - intros d0 k0 b0 Hv Ha0 i Hi. destruct (decide (k0 = k)) as [->|Hne].
    + now apply Hcover.
    + apply seen_snoc in Hv as [Hv|[_ ?]]; [|contradiction].
      unfold S'. rewrite visit_cell_other by exact Hne.
      eapply (s_cover _ _ _ HS); eauto.
  - intros d0 k0 b0 Hv Ha0 Hlast i Hi. destruct (decide (k0 = k)) as [->|Hne].
    + unfold S'. rewrite (visit_cell_in _ _ _ _ _ _ Ha Hi). f_equal.
      destruct (Hsame d0 b0 Ha0) as [_ [[-> ->]|[Hd Hold]]]; [reflexivity|].
      exfalso.
      apply seen_snoc in Hv as [Hv|[? _]]; [|contradiction].
      assert (Hlt : (d0 < d)%nat).
      { destruct Hv as [Hv|[Hv _]]; [exact Hv|contradiction]. }
      destruct (decide (1 <= d <= m)%nat) as [Hin|Hout].
      * destruct (s_cover _ _ _ HS d0 k b0 Hv Hold d Hin) as (c & Hc' & Hf).
        rewrite Hc in Hc'. inversion Hc'; subst c. congruence.
      * apply (Hlast d (BiMapping.set_phase b 0) Hlt).
        -- apply seen_snoc. right. auto.
        -- split; [|exact Hb]. unfold S'. now apply (visit_cell_self m d S k b Ha).
    + apply seen_snoc in Hv as [Hv|[_ ?]]; [|contradiction].
      unfold S'. rewrite visit_cell_other by exact Hne.
      apply (s_last _ _ _ HS d0 k0 b0 Hv (Hother _ _ _ Hne Ha0)); [|exact Hi].
      intros d' b' Hlt Hv' Ha'. apply (Hlast d' b' Hlt).
      * apply seen_snoc. now left.
      * destruct Ha' as [H1 H2]. split; [|exact H2].
        unfold S'. now rewrite visit_cell_other.
Qed.

Lemma settled_visits (m d : nat) (todo : list string) :
  forall done S, settled m (seen d done) S ->
    settled m (seen d (done ++ todo)) (fold_left (visit (Datatypes.S m) d) todo S).
Proof.
  induction todo as [|k todo IH]; intros done S HS; simpl.
  - now rewrite app_nil_r.
  - replace (done ++ k :: todo) with ((done ++ [k]) ++ todo)
      by (now rewrite <- app_assoc).
    apply IH. now apply settled_visit.
Qed.

Lemma visits_keys_at (n d : nat) (todo : list string) :
  forall S, dict_keys (dict_at (fold_left (visit n d) todo S) d) = dict_keys (dict_at S d).
Proof.
  induction todo as [|k todo IH]; intros S; simpl; [reflexivity|].
  now rewrite IH, visit_keys_at.
Qed.

Lemma seen_next (d : nat) (S : BiMappingList.t) (d' : nat) (k' : string) :
  seen (Datatypes.S d) [] d' k' -> is_Some (cell S d' k') ->
  seen d (dict_keys (dict_at S d)) d' k'.
Proof.
  intros [H|[_ H]] Hc; [|inversion H].
  destruct (decide (d' = d)) as [->|Hne].
  - right. split; [reflexivity|]. now apply cell_keys.
  - left. lia.
Qed.

Lemma seen_weaken (d : nat) (ks : list string) (d' : nat) (k' : string) :
  seen d ks d' k' -> seen (Datatypes.S d) [] d' k'.
Proof. intros [H|[-> _]]; left; lia. Qed.

Lemma settled_visit_dict (m d : nat) (S : BiMappingList.t) :
  settled m (seen d []) S ->
  settled m (seen (Datatypes.S d) []) (visit_dict (Datatypes.S m) d S).
Proof.
  intros HS. unfold visit_dict.
  apply (settled_mono m (seen d (dict_keys (dict_at S d)))).
  - intros d' k'. apply seen_weaken.
  - intros d' k' b Hv [Hc _].
    rewrite <- (visits_keys_at (Datatypes.S m) d (dict_keys (dict_at S d)) S).
    apply seen_next; [exact Hv|]. rewrite Hc. eauto.
  - apply (settled_visits m d (dict_keys (dict_at S d)) [] S HS).
Qed.

Lemma copies_length_le (l : list nat) (k : string) (b : BiMapping.t) (F : nat) :
  Forall (fun i => (i + 1 <= F)%nat) l ->
  forall S, (length S <= F)%nat -> (length (copies l k b S) <= F)%nat.
Proof.
  induction l as [|i l IH]; intros Hl S HS; simpl; [exact HS|].
  inversion Hl; subst. apply IH; [assumption|]. rewrite put_length. lia.
Qed.

Lemma visit_length_le (n d : nat) (S : BiMappingList.t) (k : string) (F : nat) :
  (n <= F)%nat -> (length S <= F)%nat -> (length (visit n d S k) <= F)%nat.
Proof.
  intros Hn HS. unfold visit. destruct (cell S d k) as [b|] eqn:Hc; [|exact HS].
  destruct (BiMapping.automatic_multiple_phase b); [|exact HS].
  destruct n as [|m]; [exact HS|].
  apply copies_length_le.
  - apply List.Forall_forall. intros i Hi. apply List.in_seq in Hi. lia.
  - rewrite put_length. apply cell_lt in Hc. lia.
Qed.

Lemma visit_dict_length_le (n d : nat) (S : BiMappingList.t) (F : nat) :
  (n <= F)%nat -> (length S <= F)%nat -> (length (visit_dict n d S) <= F)%nat.
Proof.
  intros Hn. unfold visit_dict. generalize (dict_keys (dict_at S d)) as ks.
  intros ks. revert S. induction ks as [|k ks IH]; intros S HS; simpl; [exact HS|].
  apply IH. now apply visit_length_le.
Qed.

(** The walk over the dictionaries ends because it has passed the last
    one, never for want of fuel. *)
Lemma pass_inv (n : nat) (Inv : nat -> BiMappingList.t -> Prop) (F : nat) :
  (n <= F)%nat ->
  (forall d S, Inv d S -> (d < length S)%nat -> Inv (Datatypes.S d) (visit_dict n d S)) ->
  forall fuel d S,
    (F <= fuel + d)%nat -> (length S <= F)%nat -> Inv d S ->
    exists d', (length (pass n fuel d S) <= d')%nat /\ Inv d' (pass n fuel d S).
Proof.
  intros Hn Hstep. induction fuel as [|fuel IH]; intros d S Hf HS HI; simpl.
  - exists d. split; [lia|exact HI].
  - destruct (Nat.ltb_spec d (length S)) as [Hlt|Hge].
    + apply IH; [lia| |now apply Hstep]. now apply visit_dict_length_le.
    + exists d. split; [lia|exact HI].
Qed.

Definition everywhere (d : nat) (k : string) : Prop := True.

Lemma settled_pass (m : nat) (S : BiMappingList.t) :
  settled m everywhere
    (pass (Datatypes.S m) (Nat.max (length S) (Datatypes.S m)) 0 S).
Proof.
  destruct (pass_inv (Datatypes.S m) (fun d S => settled m (seen d []) S)
              (Nat.max (length S) (Datatypes.S m)) ltac:(lia)
              (fun d S H _ => settled_visit_dict m d S H)
              (Nat.max (length S) (Datatypes.S m)) 0%nat S ltac:(lia) ltac:(lia))
    as (d' & Hlen & Hset).
  - split.
    + intros d k b [H|[_ H]]; [lia|inversion H].
    + intros d k b [H|[_ H]]; [lia|inversion H].
    + intros d k b [H|[_ H]]; [lia|inversion H].
  - apply (settled_mono m (seen d' [])); [| |exact Hset].
    + intros d k _. exact I.
    + intros d k b _ [Hc _]. left. apply cell_lt in Hc. lia.
Qed.

(** *** The second call: every write restores what the first one left *)

Definition auto_in (k : string) (dct : dict BiMapping.t) : bool :=
  match dict_get dct k with
  | Some b => BiMapping.automatic_multiple_phase b
  | None => false
  end.

(** Is there an automatic entry of name [k] in a dictionary after [d]? *)
Definition later_auto (L : BiMappingList.t) (k : string) (d : nat) : bool :=
  existsb (auto_in k) (drop (Datatypes.S d) L).

Lemma later_auto_true L k d :
  later_auto L k d = true -> exists d' b, (d < d')%nat /\ auto_at L d' k b.
Proof.
  unfold later_auto. intros H. apply List.existsb_exists in H as (dct & Hin & Ha).
  apply list_elem_of_In, list_elem_of_lookup in Hin as [j Hj].
  rewrite lookup_drop in Hj. unfold auto_in in Ha.
  destruct (dict_get dct k) as [b|] eqn:E; [|discriminate].
  exists (Datatypes.S d + j)%nat, b. split; [lia|]. split; [|exact Ha].
  unfold cell, dict_at. now rewrite Hj.
Qed.

Lemma later_auto_false L k d :
  later_auto L k d = false -> forall d' b, (d < d')%nat -> auto_at L d' k b -> False.
Proof.
  unfold later_auto. intros H d' b Hlt [Hc Ha].
  assert (Hex : existsb (auto_in k) (drop (Datatypes.S d) L) = true); [|congruence].
  apply List.existsb_exists. exists (dict_at L d'). split.
  - apply list_elem_of_In, list_elem_of_lookup. exists (d' - Datatypes.S d)%nat.
    rewrite lookup_drop. replace (Datatypes.S d + (d' - Datatypes.S d))%nat with d' by lia.
    unfold dict_at. destruct (L !! d') eqn:E; [reflexivity|].
    unfold cell, dict_at in Hc. rewrite E in Hc. discriminate.
  - unfold auto_in. unfold cell in Hc. now rewrite Hc.
Qed.

(** An automatic entry of name [k] the walk has not reached yet. *)
Definition pending (L : BiMappingList.t) (V : nat -> string -> Prop) (k : string) : Prop :=
  exists d b, ~ V d k /\ auto_at L d k b.

Record tracks (m : nat) (L : BiMappingList.t) (V : nat -> string -> Prop)
    (T : BiMappingList.t) : Prop :=
  { t_len : length T = length L;
    t_keys : forall i, dict_keys (dict_at T i) = dict_keys (dict_at L i);
    t_out : forall i k, ~ (1 <= i <= m)%nat -> cell T i k = cell L i k;
    t_in : forall i k, (1 <= i <= m)%nat ->
      cell T i k = cell L i k \/
      ((exists c, cell T i k = Some c /\ BiMapping.automatic_multiple_phase c = false) /\
       pending L V k) }.

Lemma tracks_mono (m : nat) (L : BiMappingList.t) (V V' : nat -> string -> Prop)
    (T : BiMappingList.t) :
  (forall d k b, V' d k -> auto_at L d k b -> V d k) ->
  tracks m L V T -> tracks m L V' T.
Proof.
  intros Hback [H1 H2 H3 H4]. split; auto.
  intros i k Hi. destruct (H4 i k Hi) as [H|[Hc (d & b & Hv & Ha)]]; [now left|].
  right. split; [exact Hc|]. exists d, b. split; [|exact Ha].
  intros Hv'. apply Hv. eapply Hback; eauto.
Qed.

Lemma copies_shape (l : list nat) (k : string) (b : BiMapping.t) :
  forall S, (forall i, i ∈ l -> is_Some (cell S i k)) ->
    length (copies l k b S) = length S /\
    forall j, dict_keys (dict_at (copies l k b S) j) = dict_keys (dict_at S j).
Proof.
  induction l as [|i l IH]; intros S HS; simpl; [auto|].
  assert (Hi : is_Some (cell S i k)) by (apply HS; left).
  destruct (IH (put i k (copy i b) S)) as [Hlen Hkeys].
  - intros j Hj. destruct (decide (i = j)) as [->|Hne].
    + rewrite cell_put_eq. eauto.
    + rewrite cell_put_ne by (left; exact Hne). apply HS. now right.
  - split.
    + rewrite Hlen, put_length. destruct Hi as [v Hv]. apply cell_lt in Hv. lia.
    + intros j. rewrite Hkeys. now apply put_keys.
Qed.

Lemma set_phase_id (b : BiMapping.t) :
  BiMapping.phase b = 0 -> BiMapping.set_phase b 0 = b.
Proof. destruct b as [ph a s f]. simpl. intros ->. reflexivity. Qed.

Lemma settled_no_auto_inside (m : nat) (L : BiMappingList.t) (d : nat) (k : string)
    (b : BiMapping.t) :
  settled m everywhere L -> (1 <= d <= m)%nat -> auto_at L d k b -> False.
Proof.
  intros HL Hd Ha. destruct (s_cover _ _ _ HL d k b I Ha d Hd) as (c & Hc & Hf).
  destruct Ha as [Hb Ha]. rewrite Hb in Hc. inversion Hc; subst c. congruence.
Qed.

Lemma tracks_visit (m : nat) (L : BiMappingList.t) (d : nat) (ks : list string)
    (k : string) (T : BiMappingList.t) :
  settled m everywhere L ->
  tracks m L (seen d ks) T ->
  tracks m L (seen d (ks ++ [k])) (visit (Datatypes.S m) d T k).
Proof.
  intros HL HT.
  destruct (cell T d k) as [b|] eqn:Hc;
    [destruct (BiMapping.automatic_multiple_phase b) eqn:Hb|].
  2,3: rewrite visit_noop by (intros b' [H1 H2]; congruence);
       apply (tracks_mono m L (seen d ks)); [|exact HT];
       intros d0 k0 b0 Hv Ha0; apply seen_snoc in Hv as [Hv|[-> ->]]; [exact Hv|];
       exfalso;
       (destruct (decide (1 <= d <= m)%nat) as [Hin|Hout];
        [exact (settled_no_auto_inside m L d k b0 HL Hin Ha0)
        |destruct Ha0 as [H1 H2]; rewrite <- (t_out _ _ _ _ HT d k Hout) in H1;
         congruence]).
  assert (Ha : auto_at T d k b) by (split; assumption).
  assert (Hout : ~ (1 <= d <= m)%nat).
  { intros Hin. destruct (t_in _ _ _ _ HT d k Hin) as [He|[(c & Hc' & Hf) _]].
    - apply (settled_no_auto_inside m L d k b HL Hin). split; congruence.
    - congruence. }
  assert (HaL : auto_at L d k b).
  { split; [|exact Hb]. now rewrite <- (t_out _ _ _ _ HT d k Hout). }
  assert (Hvisit : visit (Datatypes.S m) d T k = copies (seq 1 m) k b T).
  { rewrite (visit_auto _ _ _ _ _ Ha).
    rewrite (set_phase_id b (s_phase _ _ _ HL d k b I HaL)).
    now rewrite (put_id d k b T Hc). }
  assert (Hsome : forall i, i ∈ seq 1 m -> is_Some (cell T i k)).
  { intros i Hi. apply elem_of_seq1 in Hi.
    destruct (t_in _ _ _ _ HT i k Hi) as [He|[(c & Hc' & _) _]].
    - rewrite He. destruct (s_cover _ _ _ HL d k b I HaL i Hi) as (c & Hc' & _).
      rewrite Hc'. eauto.
    - rewrite Hc'. eauto. }
  destruct (copies_shape (seq 1 m) k b T Hsome) as [Hlen Hkeys].
  rewrite Hvisit. split.
  - rewrite Hlen. apply (t_len _ _ _ _ HT).
  - intros i. rewrite Hkeys. apply (t_keys _ _ _ _ HT).
  - intros i k0 Hi. rewrite cell_copies_out by (right; now rewrite elem_of_seq1).
    now apply (t_out _ _ _ _ HT).
  - intros i k0 Hi. destruct (decide (k0 = k)) as [->|Hne].
    + rewrite cell_copies_in by (now apply elem_of_seq1).
      destruct (later_auto L k d) eqn:Hlater.
      * right. split; [exists (copy i b); split; reflexivity|].
        apply later_auto_true in Hlater as (d' & b' & Hlt & Ha').
        exists d', b'. split; [|exact Ha'].
        intros [Hv|[Hv _]]; lia.
      * left. symmetry. apply (s_last _ _ _ HL d k b I HaL); [|exact Hi].
        intros d' b' Hlt _ Ha'. exact (later_auto_false L k d Hlater d' b' Hlt Ha').
    + rewrite cell_copies_out by (left; exact Hne).
      destruct (t_in _ _ _ _ HT i k0 Hi) as [He|[Hc' (d1 & b1 & Hv & Ha1)]]; [now left|].
      right. split; [exact Hc'|]. exists d1, b1. split; [|exact Ha1].
      intros Hv'. apply seen_snoc in Hv' as [Hv'|[_ ?]]; [auto|contradiction].
Qed.

Lemma tracks_visits (m : nat) (L : BiMappingList.t) (d : nat) (todo : list string) :
  settled m everywhere L ->
  forall done T, tracks m L (seen d done) T ->
    tracks m L (seen d (done ++ todo)) (fold_left (visit (Datatypes.S m) d) todo T).
Proof.
  intros HL. induction todo as [|k todo IH]; intros done T HT; simpl.
  - now rewrite app_nil_r.
  - replace (done ++ k :: todo) with ((done ++ [k]) ++ todo)
      by (now rewrite <- app_assoc).
    apply IH. now apply tracks_visit.
Qed.

Lemma tracks_visit_dict (m : nat) (L : BiMappingList.t) (d : nat) (T : BiMappingList.t) :
  settled m everywhere L ->
  tracks m L (seen d []) T ->
  tracks m L (seen (Datatypes.S d) []) (visit_dict (Datatypes.S m) d T).
Proof.
  intros HL HT. unfold visit_dict.
  apply (tracks_mono m L (seen d (dict_keys (dict_at T d)))).
  - intros d' k' b Hv [Hc _].
    rewrite (t_keys _ _ _ _ HT). apply seen_next; [exact Hv|]. rewrite Hc. eauto.
  - apply (tracks_visits m L d (dict_keys (dict_at T d)) HL [] T HT).
Qed.

(** Dictionaries with the same keys in the same order, distinct, and the
    same entry under each are equal. *)
Lemma dict_ext {V} (d1 d2 : dict V) :
  NoDup (dict_keys d1) ->
  dict_keys d1 = dict_keys d2 ->
  (forall k, dict_get d1 k = dict_get d2 k) ->
  d1 = d2.
Proof.
  revert d2. induction d1 as [|[k v] d1 IH]; intros [|[k' v'] d2] Hnd Hk Hg;
    try discriminate; [reflexivity|].
  simpl in Hk. injection Hk as Hkk Hrest. subst k'.
  unfold dict_keys in Hnd. simpl in Hnd.
  inversion Hnd as [|? ? Hnotin Hnd']; subst. clear Hnd.
  pose proof (Hg k) as Hgk. simpl in Hgk. rewrite String.eqb_refl in Hgk.
  inversion Hgk; subst v'. f_equal. apply IH; auto.
  intros k0. specialize (Hg k0). simpl in Hg.
  destruct (String.eqb k k0) eqn:E; [|exact Hg].
  apply String.eqb_eq in E. subst k0.
  assert (Hnone : forall d : dict V, k ∉ dict_keys d -> dict_get d k = None).
  { intros d Hd. destruct (dict_get d k) eqn:E; [|reflexivity].
    exfalso. apply Hd. unfold dict_keys.
    clear -E. induction d as [|[k1 v1] d IHd]; simpl in *; [discriminate|].
    destruct (String.eqb k1 k) eqn:E1.
    - apply String.eqb_eq in E1. subst. left.
    - right. auto. }
  rewrite (Hnone d1) by assumption. rewrite (Hnone d2); [reflexivity|].
  unfold dict_keys in *. now rewrite <- Hrest.
Qed.

(** *** Dictionaries keep distinct keys *)

(** Every dictionary of the list has distinct keys, as Python dictionaries
    do. *)
Definition distinct_keys {V} (S : list (dict V)) : Prop :=
  Forall (fun d : dict V => NoDup (dict_keys d)) S.

Lemma dict_set_keys_new {V} (d : dict V) k (v : V) :
  dict_get d k = None -> dict_keys (dict_set d k v) = dict_keys d ++ [k].
Proof.
  unfold dict_keys. induction d as [|[k0 v0] d IH]; simpl; [reflexivity|].
  destruct (String.eqb k0 k) eqn:E; [discriminate|].
  intros H. simpl. f_equal. auto.
Qed.

Lemma dict_get_none_keys {V} (d : dict V) k :
  dict_get d k = None -> k ∉ dict_keys d.
Proof.
  unfold dict_keys. induction d as [|[k0 v0] d IH]; simpl; intros H Hin.
  - inversion Hin.
  - destruct (String.eqb k0 k) eqn:E; [discriminate|].
    apply String.eqb_neq in E. inversion Hin; subst; [congruence|]. now apply IH.
Qed.

Lemma dict_set_nodup {V} (d : dict V) k (v : V) :
  NoDup (dict_keys d) -> NoDup (dict_keys (dict_set d k v)).
Proof.
  intros H. destruct (dict_get d k) as [v0|] eqn:E.
  - rewrite dict_set_keys by (rewrite E; eauto). exact H.
  - rewrite dict_set_keys_new by exact E.
    apply list.NoDup_app. split; [exact H|]. split.
    + intros x Hx Hk. apply list_elem_of_singleton in Hk. subst x.
      now apply dict_get_none_keys in E.
    + apply NoDup_singleton.
Qed.

Lemma distinct_keys_dict_at {V} (S : list (dict V)) (i : nat) :
  distinct_keys S -> NoDup (dict_keys (dict_at S i)).
Proof.
  intros H. unfold dict_at. destruct (S !! i) as [d|] eqn:E; simpl.
  - eapply (Forall_lookup_1 _ _ _ _ H E).
  - apply NoDup_nil_2.
Qed.

Lemma distinct_keys_put {V} (i : nat) k (v : V) (S : list (dict V)) :
  distinct_keys S -> distinct_keys (put i k v S).
Proof.
  intros H. unfold put.
  assert (H' : distinct_keys (S ++ replicate (i + 1 - length S) [])).
  { apply Forall_app. split; [exact H|]. apply Forall_replicate. apply NoDup_nil_2. }
  apply Forall_insert; [exact H'|].
  apply dict_set_nodup. now apply distinct_keys_dict_at.
Qed.

Lemma distinct_keys_visit (n d : nat) (S : BiMappingList.t) (k : string) :
  distinct_keys S -> distinct_keys (visit n d S k).
Proof.
  intros H. unfold visit. destruct (cell S d k) as [b|]; [|exact H].
  destruct (BiMapping.automatic_multiple_phase b); [|exact H].
  destruct n as [|m]; [exact H|].
  generalize (distinct_keys_put d k (BiMapping.set_phase b 0) S H).
  generalize (put d k (BiMapping.set_phase b 0) S). unfold copies.
  induction (seq 1 m) as [|i l IH]; intros S' HS'; simpl; [exact HS'|].
  apply IH. now apply distinct_keys_put.
Qed.

Lemma distinct_keys_pass (n fuel : nat) :
  forall d S, distinct_keys S -> distinct_keys (pass n fuel d S).
Proof.
  induction fuel as [|fuel IH]; intros d S H; simpl; [exact H|].
  destruct (d <? length S)%nat; [|exact H].
  apply IH. unfold visit_dict. generalize (dict_keys (dict_at S d)) as ks.
  intros ks. revert S H. induction ks as [|k ks IHk]; intros S H; simpl; [exact H|].
  apply IHk. now apply distinct_keys_visit.
Qed.

Lemma pass_zero (fuel : nat) : forall d S, pass 0 fuel d S = S.
Proof.
  induction fuel as [|fuel IH]; intros d S; simpl; [reflexivity|].
  destruct (d <? length S)%nat; [|reflexivity].
  replace (visit_dict 0 d S) with S; [apply IH|].
  unfold visit_dict. induction (dict_keys (dict_at S d)) as [|k ks IHk]; simpl; [reflexivity|].
  replace (visit 0 d S k) with S; [exact IHk|].
  unfold visit. destruct (cell S d k) as [b|]; [|reflexivity].
  now destruct (BiMapping.automatic_multiple_phase b).
Qed.

Lemma tracks_refl (m : nat) (L : BiMappingList.t) (V : nat -> string -> Prop) :
  tracks m L V L.
Proof. split; auto. Qed.

Lemma pass_again (m : nat) (L : BiMappingList.t) :
  distinct_keys L ->
  settled m everywhere L ->
  pass (Datatypes.S m) (Nat.max (length L) (Datatypes.S m)) 0 L = L.
Proof.
  intros Hd HL.
  destruct (pass_inv (Datatypes.S m) (fun d T => tracks m L (seen d []) T)
              (Nat.max (length L) (Datatypes.S m)) ltac:(lia)
              (fun d T H _ => tracks_visit_dict m L d T HL H)
              (Nat.max (length L) (Datatypes.S m)) 0%nat L ltac:(lia) ltac:(lia)
              (tracks_refl m L _))
    as (d' & Hlen & HT).
  set (T := pass (Datatypes.S m) (Nat.max (length L) (Datatypes.S m)) 0 L) in *.
  assert (Hcell : forall i k, cell T i k = cell L i k).
  { intros i k. destruct (decide (1 <= i <= m)%nat) as [Hin|Hout].
    - destruct (t_in _ _ _ _ HT i k Hin) as [He|[_ (d1 & b1 & Hv & Hc & _)]]; [exact He|].
      exfalso. apply Hv. left. apply cell_lt in Hc.
      rewrite <- (t_len _ _ _ _ HT) in Hc. lia.
    - now apply (t_out _ _ _ _ HT). }
  assert (Hdict : forall i, dict_at T i = dict_at L i).
  { intros i. apply dict_ext.
    - rewrite (t_keys _ _ _ _ HT). now apply distinct_keys_dict_at.
    - apply (t_keys _ _ _ _ HT).
    - intros k. apply Hcell. }
  apply list_eq. intros i. specialize (Hdict i). unfold dict_at in Hdict.
  pose proof (t_len _ _ _ _ HT) as Hl.
  destruct (T !! i) as [x|] eqn:Ex, (L !! i) as [y|] eqn:Ey; simpl in Hdict.
  - now subst.
  - apply lookup_lt_Some in Ex. apply lookup_ge_None in Ey. lia.
  - apply lookup_lt_Some in Ey. apply lookup_ge_None in Ex. lia.
  - reflexivity.
Qed.

(** C9.  On a list of dictionaries (each with distinct keys),
    [variable_mapping_fill_phases(n)] returns, and calling it again with the
    same [n] leaves every phase's named mappings exactly as the first call
    left them. *)
Theorem variable_mapping_fill_phases_idempotent (self : BiMappingList.t) (n : nat) :
  distinct_keys self ->
  exists once,
    BiMappingList.variable_mapping_fill_phases self n = Ok once /\
    BiMappingList.variable_mapping_fill_phases once n = Ok once.
Proof.
  intros Hd. unfold BiMappingList.variable_mapping_fill_phases.
  exists (pass n (Nat.max (length self) n) 0 self).
  rewrite !fill_from_pass. split; [reflexivity|]. f_equal.
  destruct n as [|m]; [apply pass_zero|].
  apply pass_again.
  - now apply distinct_keys_pass.
  - apply settled_pass.
Qed.

Lemma variable_mapping_fill_phases_idempotent_witness :
  let q := BiMapping.Build 0 true (Mapping.Build [Some 0; None] [1; 1])
             (Mapping.Build [Some 0] [1]) in
  exists once,
    BiMappingList.variable_mapping_fill_phases [[("q", q)]] 3 = Ok once /\
    BiMappingList.variable_mapping_fill_phases once 3 = Ok once.
Proof.
  apply variable_mapping_fill_phases_idempotent.
  repeat constructor. intros H. inversion H.
Defined.

Example fill_phases_replicates :
  let s := Mapping.Build [Some 0; None] [1; 1] in
  let f := Mapping.Build [Some 0] [1] in
  BiMappingList.variable_mapping_fill_phases [[("q", BiMapping.Build 0 true s f)]] 3
  = Ok [[("q", BiMapping.Build 0 true s f)];
        [("q", BiMapping.Build 1 false s f)];
        [("q", BiMapping.Build 2 false s f)]].
Proof. reflexivity. Qed.

(** ** [OptimizationVector.add_parameter] *)

Section AddParameter.
Context {R : Type}.

Import OptimizationVector.

Lemma index_of_last (name : string) (pool : list (parameter R)) (prm : parameter R) :
  index_of name pool = None -> prm_name prm = name ->
  index_of name (pool ++ [prm]) = Some (length pool).
Proof.
  intros Hnone Hname. induction pool as [|q pool IH]; simpl in *.
  - rewrite Hname, String.eqb_refl. reflexivity.
  - destruct (String.eqb (prm_name q) name); [discriminate|].
    destruct (index_of name pool); [discriminate|].
    rewrite IH by reflexivity. reflexivity.
Qed.

Lemma py_get_last {A} (l : list A) (x : A) :
  py_get (l ++ [x]) (Z.of_nat (length l)) = Ok x.
Proof. apply py_get_nat. apply list_lookup_middle. reflexivity. Qed.

Lemma py_set_last {A} (l : list A) (x y : A) :
  py_set (l ++ [x]) (Z.of_nat (length l)) y = Ok (l ++ [y]).
Proof.
  unfold py_set. rewrite py_index_nat by (rewrite length_app; simpl; lia).
  f_equal. replace (length l) with (length l + 0)%nat at 1 by lia.
  rewrite insert_app_r. reflexivity.
Qed.

(** The pool holds exactly one parameter of that name. *)
Definition one_entry (name : string) (pool : list (parameter R)) : Prop :=
  length (filter (fun prm => prm_name prm = name) pool) = 1%nat.

Lemma index_of_none_filter (name : string) (pool : list (parameter R)) :
  index_of name pool = None -> filter (fun prm => prm_name prm = name) pool = [].
Proof.
  induction pool as [|q pool IH]; simpl; [reflexivity|].
  destruct (String.eqb_spec (prm_name q) name) as [E|E]; [discriminate|].
  intros H. rewrite filter_cons_False by exact E. apply IH.
  now destruct (index_of name pool).
Qed.

(** C8.  On a pool that has no parameter of that name yet, adding two
    parameters of one name with the same defining function and equal extra
    configuration leaves one pool entry of that name, whose size is the sum
    of the two sizes and whose bounds are the first parameter's followed by
    the second's; with a different defining function the second call
    raises. *)
Theorem add_parameter_merges (self : t R) (p1 p2 : parameter R) :
  index_of (prm_name p1) (parameters_in_list self) = None ->
  prm_name p2 = prm_name p1 ->
  exists first,
    add_parameter self p1 = Ok first /\
    (prm_function p2 = prm_function p1 ->
     dict_eqb (prm_params p2) (prm_params p1) = true ->
     exists second merged,
       add_parameter first p2 = Ok second /\
       parameters_in_list second = parameters_in_list self ++ [merged] /\
       one_entry (prm_name p1) (parameters_in_list second) /\
       prm_name merged = prm_name p1 /\
       prm_size merged = (prm_size p1 + prm_size p2)%nat /\
       prm_min merged = prm_min p1 ++ prm_min p2 /\
       prm_max merged = prm_max p1 ++ prm_max p2) /\
    (prm_function p2 <> prm_function p1 ->
     add_parameter first p2 = Raise RuntimeError).
Proof.
  intros Hnew Hname.
  unfold add_parameter at 1. rewrite Hnew. simpl.
  eexists. split; [reflexivity|].
  set (entry1 := Prm _ _ _ _ _ _ _ _ _ _).
  assert (Hidx : index_of (prm_name p2) (parameters_in_list self ++ [entry1])
                 = Some (length (parameters_in_list self))).
  { apply index_of_last; [now rewrite Hname|]. now rewrite Hname. }
  split.
  - intros Hf Hp. unfold add_parameter. simpl parameters_in_list.
    rewrite Hidx, py_get_last. unfold entry1. simpl.
    rewrite Hf, Nat.eqb_refl, Hp. simpl. rewrite py_set_last. simpl.
    eexists. eexists. split; [reflexivity|]. simpl.
    split; [reflexivity|]. repeat split.
    unfold one_entry. rewrite list.filter_app, (index_of_none_filter _ _ Hnew).
    simpl. rewrite filter_cons_True by reflexivity. reflexivity.
  - intros Hf. unfold add_parameter. simpl parameters_in_list.
    rewrite Hidx, py_get_last. unfold entry1. simpl.
    destruct (Nat.eqb_spec (prm_function p2) (prm_function p1)); [contradiction|].
    reflexivity.
Qed.

End AddParameter.

Lemma add_parameter_merges_witness :
  let time1 := OptimizationVector.Prm "time" 1 None [] [1] [0] [5] [2] 7 [("phase", 0)] in
  let time2 := OptimizationVector.Prm "time" 2 None [] [1; 1] [1; 2] [6; 7] [3; 3] 7 [("phase", 0)] in
  exists first,
    OptimizationVector.add_parameter (OptimizationVector.init 2 0) time1 = Ok first /\
    (OptimizationVector.prm_function time2 = OptimizationVector.prm_function time1 ->
     OptimizationVector.dict_eqb (OptimizationVector.prm_params time2)
       (OptimizationVector.prm_params time1) = true ->
     exists second merged,
       OptimizationVector.add_parameter first time2 = Ok second /\
       OptimizationVector.parameters_in_list second
       = OptimizationVector.parameters_in_list (OptimizationVector.init 2 0) ++ [merged] /\
       one_entry "time" (OptimizationVector.parameters_in_list second) /\
       OptimizationVector.prm_name merged = "time" /\
       OptimizationVector.prm_size merged = 3%nat /\
       OptimizationVector.prm_min merged = [0; 1; 2] /\
       OptimizationVector.prm_max merged = [5; 6; 7]) /\
    (OptimizationVector.prm_function time2 <> OptimizationVector.prm_function time1 ->
     OptimizationVector.add_parameter first time2 = Raise RuntimeError).
Proof.
  apply (add_parameter_merges (OptimizationVector.init 2 0)
           (OptimizationVector.Prm "time" 1 None [] [1] [0] [5] [2] 7 [("phase", 0)])
           (OptimizationVector.Prm "time" 2 None [] [1; 1] [1; 2] [6; 7] [3; 3] 7 [("phase", 0)]));
    reflexivity.
Defined.

Example add_parameter_other_function :
  (let! first := OptimizationVector.add_parameter (OptimizationVector.init 1 0)
                   (OptimizationVector.Prm "time" 1 None [] [1] [0] [5] [2] 7 []) in
   OptimizationVector.add_parameter first
     (OptimizationVector.Prm "time" 1 None [] [1] [0] [5] [2] 8 []))
  = Raise RuntimeError.
Proof. reflexivity. Qed.

(** ** Concrete problems *)

Module Scenario.

Import OptimizationVector.

(** A direct multiple-shooting solver, and direct collocation with a
    polynomial of degree 2. *)
Definition shooting : OdeSolver := Ode false true 0 0 false false.
Definition collocation : OdeSolver := Ode true false 2 2 true false.

(** A path condition of [n] rows, the same at every node. *)
Definition constant_path (n : nat) (v : Z) : path Z := Path n (fun _ => replicate n v).

(** A phase with the states ["q"] ([n] rows) and the controls ["tau"] ([m]
    rows), constant controls, unit scaling. *)
Definition phase (ode : OdeSolver) (ns n m : nat)
    (states_mapping : dict NodeMappingIndex.t) : nlp Z :=
  Nlp ns CONSTANT ode [Element "q" n] [Element "tau" m] states_mapping []
      (replicate n 1) (replicate m 1)
      (constant_path n (-10)) (constant_path n 10)
      (constant_path m (-100)) (constant_path m 100)
      0 0 [] [] [] [].

(** The tables [get_variable_from_phase_idx] resolves, for two phases, from
    [NodeMappingList.add("q", map_states=True, phase_pre=0, phase_post=1,
    index=index, variable_mapping=...)] over the identity [BiMapping] of
    [n] rows. *)
Definition state_tables (n : nat) (index : list Z)
  : result (list (dict NodeMappingIndex.t)) :=
  let identity := BiMapping.ArgSeq (Some <$> py_range 0 n) in
  let! variable_mapping :=
    BiMappingList.add OptionDict.init "q" identity identity
      Mapping.OpposeNone Mapping.OpposeNone None (-1) in
  let! node_mappings :=
    NodeMappingList.add OptionDict.init "q" true false (Some 0) (Some 1) (Some index)
      (NodeMappingList.VmList variable_mapping) in
  let! tables := NodeMappingList.get_variable_from_phase_idx node_mappings 2 in
  Ok tables.1.1.

(** Two phases of [ns] shooting nodes and [n] states; phase 1 takes the
    rows [index] of its states from phase 0. *)
Definition two_phases (ns n : nat) (index : list Z) : result (list (nlp Z)) :=
  let! tables := state_tables n index in
  let! t0 := py_get tables 0 in
  let! t1 := py_get tables 1 in
  Ok [phase shooting ns n n t0; phase shooting ns n n t1].

(** [define_ocp_shooting_points] then [define_ocp_bounds], on a fresh
    vector; [get_nx_and_nu_phase_mapped] returning [(nx, nu)]. *)
Definition declare (ocp : list (nlp Z)) (nx nu : list nat)
  : result (t Z * list (nlp Z)) :=
  let! r := define_ocp_shooting_points (init (length ocp) 0) ocp in
  let! self := define_ocp_bounds 0 r.1 r.2 nx nu in
  Ok (self, r.2).

(** The lengths of [vector], [bounds.min] and [bounds.max]. *)
Definition lengths (ocp : list (nlp Z)) (nx nu : list nat) : result (nat * nat * nat) :=
  let! r := declare ocp nx nu in
  let! v := vector r.1 r.2 in
  let! b := bounds Z.div r.1 r.2 in
  Ok (length v, length (b_min b), length (b_max b)).

End Scenario.

(** The resolved tables of the full aliasing of three states. *)
Example state_tables_full :
  Scenario.state_tables 3 [0; 1; 2]
  = Ok [[]; [("q", NodeMappingIndex.Build 0 (Some [0; 1; 2])
                     (Some [Some 0; Some 1; Some 2]))]].
Proof. reflexivity. Qed.

(** Scenario 9 of the specification: one phase, 5 shooting nodes, 2 states,
    constant controls, no aliasing, no collocation. *)
Example single_phase_counts :
  (let ocp := [Scenario.phase Scenario.shooting 5 2 2 []] in
   let! r := Scenario.declare ocp [2%nat] [2%nat] in
   let! l := Scenario.lengths ocp [2%nat] [2%nat] in
   Ok (OptimizationVector.n_all_x r.1, OptimizationVector.n_all_u r.1, l))
  = Ok (12, 10, (22%nat, 22%nat, 22%nat)).
Proof. vm_compute. reflexivity. Qed.

(** C1, at the failing input: one phase under direct collocation (degree
    2), 2 shooting nodes, 1 state, 1 constant control.  [vector] has 5
    rows (one state per shooting node), the bounds have 9 (one per
    collocation point). *)
Lemma collocation_views_misaligned :
  Scenario.lengths [Scenario.phase Scenario.collocation 2 1 1 []] [1%nat] [1%nat]
  = Ok (5%nat, 9%nat, 9%nat).
Proof. vm_compute. reflexivity. Qed.

(** The same problem under direct shooting is aligned. *)
Example shooting_views_aligned :
  Scenario.lengths [Scenario.phase Scenario.shooting 2 1 1 []] [1%nat] [1%nat]
  = Ok (5%nat, 5%nat, 5%nat).
Proof. vm_compute. reflexivity. Qed.

(** C3, at the failing input: two phases of 2 shooting nodes and 3 states,
    phase 1 aliasing all three ([index=[0, 1, 2]]).  All the rows of phase
    1 are aliased, so its count should be [(3 - 3) * 3 = 0]; the code
    leaves [3 * 3 = 9]. *)
Lemma full_alias_count :
  (let! ocp := Scenario.two_phases 2 3 [0; 1; 2] in
   let! r := OptimizationVector.define_ocp_shooting_points
               (OptimizationVector.init 2 0) ocp in
   Ok (OptimizationVector.n_phase_x r.1, OptimizationVector.symbols r.1))
  = Ok ([9; 9], 21%nat).
Proof. vm_compute. reflexivity. Qed.

(** The scenario the claim singles out: phase 1 aliases 1 of the 3 states
    ([index=[0]]). *)
Example partial_alias_count :
  (let! ocp := Scenario.two_phases 2 3 [0] in
   let! r := OptimizationVector.define_ocp_shooting_points
               (OptimizationVector.init 2 0) ocp in
   Ok (OptimizationVector.n_phase_x r.1))
  = Ok [9; (3 - 1) * (2 + 1)].
Proof. vm_compute. reflexivity. Qed.

(** ** [define_ocp_shooting_points]: reuse and allocation *)

Section Declaration.
Context {R : Type}.

Import OptimizationVector Casadi.

(** [table[j][k][liberty]] and [nodes[k][liberty]], when they exist. *)
Definition at_node {A} (nodes : list (list A)) (k liberty : nat) : option A :=
  match nodes !! k with Some node => node !! liberty | None => None end.

Definition stored {A} (table : list (list (list A))) (j k liberty : nat) : option A :=
  match table !! j with Some nodes => at_node nodes k liberty | None => None end.

Lemma py_get_nat_inv {A} (l : list A) (i : nat) (x : A) :
  py_get l (Z.of_nat i) = Ok x -> l !! i = Some x.
Proof.
  unfold py_get. destruct (py_index (length l) (Z.of_nat i)) as [k|] eqn:E; [|discriminate].
  assert (k = i).
  { unfold py_index in E.
    destruct ((0 <=? Z.of_nat i) && (Z.of_nat i <? Z.of_nat (length l))) eqn:E1.
    - inversion E. lia.
    - destruct ((- Z.of_nat (length l) <=? Z.of_nat i) && (Z.of_nat i <? 0)) eqn:E2;
        [|discriminate].
      apply andb_prop in E2 as [_ E2]. lia. }
  subst k. destruct (l !! i); [|discriminate]. now intros [= ->].
Qed.

Lemma source_entry_stored {A} (previous : list (list (list A))) (p : nat)
    (current : list A) (use : Z) (k liberty : nat) (x : A) :
  length current = liberty ->
  source_entry previous p current use k liberty = Ok x ->
  exists j, py_index (p + 1) use = Some j /\ j <> p /\ stored previous j k liberty = Some x.
Proof.
  intros Hlen. unfold source_entry.
  destruct (py_index (p + 1) use) as [j|]; [|discriminate].
  destruct (Nat.eqb_spec j p) as [->|Hne].
  - intros H. apply py_get_nat_inv in H. apply lookup_lt_Some in H. lia.
  - intros H. apply bind_ok in H as (nodes & Hn & H).
    apply bind_ok in H as (node & Hk & H).
    apply py_get_nat_inv in Hn, Hk, H.
    exists j. repeat split; auto. unfold stored, at_node. now rewrite Hn, Hk.
Qed.

Lemma source_entry_same_phase {A B} (t1 : list (list (list A))) (t2 : list (list (list B)))
    (p : nat) (c1 : list A) (c2 : list B) (use : Z) (k liberty : nat) (x : A) (y : B) :
  length c1 = liberty ->
  source_entry t1 p c1 use k liberty = Ok x ->
  source_entry t2 p c2 use k liberty = Ok y ->
  exists j, py_index (p + 1) use = Some j /\ j <> p /\
            stored t1 j k liberty = Some x /\ stored t2 j k liberty = Some y.
Proof.
  intros Hlen H1 H2.
  destruct (source_entry_stored _ _ _ _ _ _ _ Hlen H1) as (j & Hj & Hne & Hs).
  exists j. repeat split; auto.
  unfold source_entry in H2. rewrite Hj in H2.
  destruct (Nat.eqb_spec j p); [contradiction|].
  apply bind_ok in H2 as (nodes & Hn & H2). apply bind_ok in H2 as (node & Hk & H2).
  apply py_get_nat_inv in Hn, Hk, H2. unfold stored, at_node. now rewrite Hn, Hk.
Qed.

(** The number of freshly allocated places among the first [m]. *)
Definition fresh_below (reuse : nat -> bool) (m : nat) : nat :=
  length (filter (fun l => reuse l = false) (seq 0 m)).

Lemma fresh_below_S (reuse : nat -> bool) (m : nat) :
  fresh_below reuse (S m) = (fresh_below reuse m + if reuse m then 0 else 1)%nat.
Proof.
  unfold fresh_below. rewrite seq_S, list.filter_app, length_app. simpl.
  destruct (reuse m) eqn:E.
  - rewrite filter_cons_False by congruence. reflexivity.
  - rewrite filter_cons_True by assumption. reflexivity.
Qed.

(** What place [liberty] of a node holds: the symbol and the unscaled value
    stored for the source phase, or the symbol of allocation rank
    [next + fresh_below liberty] with [w] columns and its scaled value. *)
Definition place (reuse : nat -> bool) (w : nat)
    (tx : list (list (list (expr R)))) (ts : list (list (list sym)))
    (p : nat) (use : Z) (k next : nat)
    (sc : list sym) (un : list (expr R)) (liberty : nat) : Prop :=
  if reuse liberty then
    exists j s e,
      py_index (p + 1) use = Some j /\ j <> p /\
      stored ts j k liberty = Some s /\ sc !! liberty = Some s /\
      stored tx j k liberty = Some e /\ un !! liberty = Some e
  else
    exists label f,
      sc !! liberty = Some (Sym (next + fresh_below reuse liberty) label 1 w) /\
      un !! liberty = Some (Scaled (Sym (next + fresh_below reuse liberty) label 1 w) f).

(** What one turn of the loop over the rows does. *)
Definition turn (reuse : nat -> bool) (w : nat)
    (tx : list (list (list (expr R)))) (ts : list (list (list sym)))
    (p : nat) (use : Z) (k : nat) (step : node R -> nat -> result (node R)) : Prop :=
  forall a liberty a',
    length (scaled a) = liberty ->
    step a liberty = Ok a' ->
    if reuse liberty then
      exists j s e,
        py_index (p + 1) use = Some j /\ j <> p /\
        stored ts j k liberty = Some s /\ stored tx j k liberty = Some e /\
        scaled a' = scaled a ++ [s] /\ unscaled a' = unscaled a ++ [e] /\
        next_sym a' = next_sym a
    else
      exists label f,
        scaled a' = scaled a ++ [Sym (next_sym a) label 1 w] /\
        unscaled a' = unscaled a ++ [Scaled (Sym (next_sym a) label 1 w) f] /\
        next_sym a' = S (next_sym a).

Lemma turns (reuse : nat -> bool) (w : nat) tx ts (p : nat) (use : Z) (k : nat) step :
  turn reuse w tx ts p use k step ->
  forall n next nd,
    foldM step (seq 0 n) (Node [] [] next 0) = Ok nd ->
    length (scaled nd) = n /\ length (unscaled nd) = n /\
    next_sym nd = (next + fresh_below reuse n)%nat /\
    forall liberty, (liberty < n)%nat ->
      place reuse w tx ts p use k next (scaled nd) (unscaled nd) liberty.
Proof.
  intros Hturn. induction n as [|n IH]; intros next nd H.
  - simpl in H. inversion H; subst nd. simpl. repeat split; [unfold fresh_below; simpl; lia|].
    intros liberty Hl. lia.
  - rewrite seq_S, foldM_app in H. simpl in H.
    apply bind_ok in H as (a & Ha & H).
    destruct (IH next a Ha) as (Hls & Hlu & Hnext & Hplaces).
    apply bind_ok in H as (a' & Hstep & [= <-]).
    specialize (Hturn a n a' Hls Hstep). rewrite fresh_below_S.
    assert (Hkeep : forall sc' un' liberty,
              (liberty < n)%nat ->
              place reuse w tx ts p use k next (scaled a ++ sc') (unscaled a ++ un') liberty).
    { intros sc' un' liberty Hl. specialize (Hplaces liberty Hl). unfold place in *.
      destruct (reuse liberty).
      - destruct Hplaces as (j & s & e & H1 & H2 & H3 & H4 & H5 & H6).
        exists j, s, e. repeat split; auto.
        + rewrite lookup_app_l by lia. exact H4.
        + rewrite lookup_app_l by lia. exact H6.
      - destruct Hplaces as (label & f & H1 & H2). exists label, f. split.
        + rewrite lookup_app_l by lia. exact H1.
        + rewrite lookup_app_l by lia. exact H2. }
    destruct (reuse n) eqn:En.
    + destruct Hturn as (j & s & e & H1 & H2 & H3 & H4 & H5 & H6 & H7).
      rewrite H5, H6, H7, !length_app. simpl.
      repeat split; try lia.
      intros liberty Hl. destruct (decide (liberty = n)) as [->|Hne].
      * unfold place. rewrite En. exists j, s, e. repeat split; auto.
        -- apply list_lookup_middle. now rewrite Hls.
        -- apply list_lookup_middle. now rewrite Hlu.
      * apply Hkeep. lia.
    + destruct Hturn as (label & f & H5 & H6 & H7).
      rewrite H5, H6, H7, !length_app. simpl.
      repeat split; try lia.
      intros liberty Hl. destruct (decide (liberty = n)) as [->|Hne].
      * unfold place. rewrite En. exists label, f. rewrite <- Hnext. split.
        -- apply list_lookup_middle. now rewrite Hls.
        -- apply list_lookup_middle. now rewrite Hlu.
      * apply Hkeep. lia.
Qed.

(** A row is reused when the phase takes its variables from another phase
    and the row is in the aggregated mapped index. *)
Definition reused (p : nat) (a : aggregate) (liberty : nat) : bool :=
  negb (Z.of_nat p =? agg_use a) && py_in (Z.of_nat liberty) (agg_mapped a).

Lemma allocate_inv (a a' : node R) label cols liberty scaling i count :
  length (scaled a) = liberty ->
  allocate a label cols liberty scaling i count = Ok a' ->
  exists f,
    scaled a' = scaled a ++ [Sym (next_sym a) label 1 cols] /\
    unscaled a' = unscaled a ++ [Scaled (Sym (next_sym a) label 1 cols) f] /\
    next_sym a' = S (next_sym a).
Proof.
  intros Hlen H. unfold allocate in H.
  apply bind_ok in H as (s & Hs & H). apply bind_ok in H as (f & Hf & [= <-]).
  apply py_get_nat_inv in Hs.
  rewrite list_lookup_middle in Hs by (now rewrite Hlen).
  inversion Hs; subst s. exists f. simpl. auto.
Qed.

(** The step of the loop over the state rows, and over the control rows. *)
Definition state_step (ph : nlp R) (p : nat) (sa : aggregate) (tb : tables R) (k : nat)
  : node R -> nat -> result (node R) :=
  if Z.of_nat p =? agg_use sa
  then own_state ph p k
  else alias_state ph p k (agg_use sa) (agg_mapped sa) (t_x tb) (t_x_scaled tb).

Definition control_step (ph : nlp R) (p : nat) (ca : aggregate) (tb : tables R) (k : nat)
  : node R -> nat -> result (node R) :=
  if Z.of_nat p =? agg_use ca
  then own_control ph p k
  else alias_control ph p k (agg_use ca) (agg_mapped ca) (t_u tb) (t_u_scaled tb).

Lemma state_turn (ph : nlp R) (p : nat) (sa : aggregate) (tb : tables R) (k : nat) :
  turn (reused p sa) (width ph k) (t_x tb) (t_x_scaled tb) p (agg_use sa) k
       (state_step ph p sa tb k).
Proof.
  intros a liberty a' Hlen H. unfold state_step in H. unfold reused, width.
  destruct (Z.of_nat p =? agg_use sa); simpl.
  - unfold own_state in H. destruct (collocated ph k);
      destruct (allocate_inv _ _ _ _ _ _ _ _ Hlen H) as (f & H1 & H2 & H3); eauto.
  - unfold alias_state in H. destruct (py_in (Z.of_nat liberty) (agg_mapped sa)).
    + apply bind_ok in H as (s & Hs & H). apply bind_ok in H as (e & He & [= <-]).
      destruct (source_entry_same_phase _ _ _ _ _ _ _ _ _ _ Hlen Hs He)
        as (j & Hj & Hne & H1 & H2).
      exists j, s, e. simpl. repeat split; auto.
    + destruct (collocated ph k);
        destruct (allocate_inv _ _ _ _ _ _ _ _ Hlen H) as (f & H1 & H2 & H3); eauto.
Qed.

Lemma control_turn (ph : nlp R) (p : nat) (ca : aggregate) (tb : tables R) (k : nat) :
  has_control ph k = true ->
  turn (reused p ca) 1 (t_u tb) (t_u_scaled tb) p (agg_use ca) k
       (control_step ph p ca tb k).
Proof.
  intros Hc a liberty a' Hlen H. unfold control_step in H. unfold reused.
  destruct (Z.of_nat p =? agg_use ca); simpl.
  - unfold own_control in H. rewrite Hc in H.
    destruct (allocate_inv _ _ _ _ _ _ _ _ Hlen H) as (f & H1 & H2 & H3); eauto.
  - unfold alias_control in H. rewrite Hc in H.
    destruct (py_in (Z.of_nat liberty) (agg_mapped ca)).
    + apply bind_ok in H as (s & Hs & H). apply bind_ok in H as (e & He & [= <-]).
      destruct (source_entry_same_phase _ _ _ _ _ _ _ _ _ _ Hlen Hs He)
        as (j & Hj & Hne & H1 & H2).
      exists j, s, e. simpl. repeat split; auto.
    + destruct (allocate_inv _ _ _ _ _ _ _ _ Hlen H) as (f & H1 & H2 & H3); eauto.
Qed.

Lemma control_idle (ph : nlp R) (p : nat) (ca : aggregate) (tb : tables R) (k : nat) :
  has_control ph k = false ->
  forall l a, foldM (control_step ph p ca tb k) l a = Ok a.
Proof.
  intros Hc. induction l as [|x l IH]; intros a; simpl; [reflexivity|].
  assert (Hstep : control_step ph p ca tb k a x = Ok a).
  { unfold control_step, own_control, alias_control. rewrite Hc.
    now destruct (Z.of_nat p =? agg_use ca). }
  rewrite Hstep. simpl. apply IH.
Qed.

(** The symbols one node costs, and the rank of the first symbol of node
    [k] when the phase starts at rank [c]. *)
Definition node_cost (ph : nlp R) (p : nat) (sa ca : aggregate) (k : nat) : nat :=
  (fresh_below (reused p sa) (shape (states ph))
   + if has_control ph k then fresh_below (reused p ca) (shape (controls ph)) else 0)%nat.

Definition node_start (ph : nlp R) (p : nat) (sa ca : aggregate) (c k : nat) : nat :=
  (c + sum_list_with (node_cost ph p sa ca) (seq 0 k))%nat.

(** What node [k] of the phase holds, for its states and its controls. *)
Definition node_places (ph : nlp R) (p : nat) (sa ca : aggregate) (tb : tables R)
    (c k : nat) (xs : list sym) (x : list (expr R)) (us : list sym) (u : list (expr R))
  : Prop :=
  (forall liberty, (liberty < shape (states ph))%nat ->
     place (reused p sa) (width ph k) (t_x tb) (t_x_scaled tb) p (agg_use sa) k
           (node_start ph p sa ca c k) xs x liberty) /\
  (has_control ph k = true ->
   forall liberty, (liberty < shape (controls ph))%nat ->
     place (reused p ca) 1 (t_u tb) (t_u_scaled tb) p (agg_use ca) k
           (node_start ph p sa ca c k + fresh_below (reused p sa) (shape (states ph)))
           us u liberty) /\
  (has_control ph k = false -> us = [] /\ u = []).

Lemma declare_node_places (ph : nlp R) (p : nat) (sa ca : aggregate) (tb : tables R)
    (acc acc' : nodes R) (c k : nat) :
  n_next acc = node_start ph p sa ca c k ->
  declare_node ph p sa ca tb acc k = Ok acc' ->
  exists xs x us u,
    n_x_scaled acc' = n_x_scaled acc ++ [xs] /\ n_x acc' = n_x acc ++ [x] /\
    n_u_scaled acc' = n_u_scaled acc ++ [us] /\ n_u acc' = n_u acc ++ [u] /\
    n_next acc' = node_start ph p sa ca c (S k) /\
    node_places ph p sa ca tb c k xs x us u.
Proof.
  intros Hstart H. unfold declare_node in H.
  apply bind_ok in H as (nx & Hx & H). apply bind_ok in H as (nu & Hu & [= <-]).
  exists (scaled nx), (unscaled nx), (scaled nu), (unscaled nu). simpl.
  destruct (turns _ _ _ _ _ _ _ _ (state_turn ph p sa tb k) _ _ _ Hx)
    as (_ & _ & Hnx & Hpx).
  assert (Hnext : node_start ph p sa ca c (S k)
                  = (node_start ph p sa ca c k + node_cost ph p sa ca k)%nat).
  { unfold node_start. rewrite seq_S, sum_list_with_app. simpl. lia. }
  rewrite Hstart in Hnx, Hpx.
  destruct (has_control ph k) eqn:Hc.
  - destruct (turns _ _ _ _ _ _ _ _ (control_turn ph p ca tb k Hc) _ _ _ Hu)
      as (_ & _ & Hnu & Hpu).
    repeat split; auto.
    + rewrite Hnext, Hnu, Hnx. unfold node_cost. rewrite Hc. lia.
    + intros _. rewrite Hnx in Hpu. exact Hpu.
    + congruence.
    + congruence.
  - unfold control_node in Hu. fold (control_step ph p ca tb k) in Hu.
    rewrite control_idle in Hu by exact Hc. inversion Hu; subst nu. simpl.
    repeat split; auto.
    + rewrite Hnext, Hnx. unfold node_cost. rewrite Hc. lia.
    + congruence.
Qed.

Lemma declare_nodes_places (ph : nlp R) (p : nat) (sa ca : aggregate) (tb : tables R)
    (c : nat) :
  forall n nd,
    foldM (declare_node ph p sa ca tb) (seq 0 n) (Nodes [] [] [] [] c) = Ok nd ->
    n_next nd = node_start ph p sa ca c n /\
    forall k, (k < n)%nat ->
      exists xs x us u,
        n_x_scaled nd !! k = Some xs /\ n_x nd !! k = Some x /\
        n_u_scaled nd !! k = Some us /\ n_u nd !! k = Some u /\
        node_places ph p sa ca tb c k xs x us u.
Proof.
  induction n as [|n IH]; intros nd H.
  - simpl in H. inversion H; subst nd. simpl. split.
    + unfold node_start. simpl. lia.
    + intros k Hk. lia.
  - rewrite seq_S, foldM_app in H. simpl in H.
    apply bind_ok in H as (acc & Hacc & H). apply bind_ok in H as (acc' & Hstep & [= <-]).
    destruct (IH acc Hacc) as (Hnext & Hnodes).
    assert (Hlen : length (n_x_scaled acc) = n /\ length (n_x acc) = n /\
                   length (n_u_scaled acc) = n /\ length (n_u acc) = n).
    { clear -Hacc. revert acc Hacc. induction n as [|n IHn]; intros acc Hacc.
      - simpl in Hacc. inversion Hacc. auto.
      - rewrite seq_S, foldM_app in Hacc. simpl in Hacc.
        apply bind_ok in Hacc as (a0 & Ha0 & H). apply bind_ok in H as (a1 & Hs & [= <-]).
        destruct (IHn a0 Ha0) as (H1 & H2 & H3 & H4).
        unfold declare_node in Hs.
        apply bind_ok in Hs as (nx & Hx & Hs). apply bind_ok in Hs as (nu & Hu & [= <-]).
        simpl. rewrite !length_app. simpl. lia. }
    destruct Hlen as (L1 & L2 & L3 & L4).
    destruct (declare_node_places _ _ _ _ _ _ _ _ _ Hnext Hstep)
      as (xs & x & us & u & E1 & E2 & E3 & E4 & E5 & Hplaces).
    split; [exact E5|].
    intros k Hk. rewrite E1, E2, E3, E4.
    destruct (decide (k = n)) as [->|Hne].
    + exists xs, x, us, u.
      rewrite !list_lookup_middle by (symmetry; assumption). auto.
    + destruct (Hnodes k ltac:(lia)) as (xs' & x' & us' & u' & F1 & F2 & F3 & F4 & F5).
      exists xs', x', us', u'.
      rewrite !lookup_app_l by lia. auto.
Qed.

(** The tables the loop reads are the [X], [X_scaled], [U], [U_scaled] of
    the records already declared. *)
Definition tables_of (l : list (nlp R)) : tables R :=
  Tables (X <$> l) (X_scaled <$> l) (U <$> l) (U_scaled <$> l).

Lemma declare_phase_inv (st st' : declaration R) (ph : nlp R) :
  declare_phase st ph = Ok st' ->
  exists sa ca nd ph',
    aggregate_elements (states_phase_mapping_idx ph) (length (d_nlp st)) (states ph) = Ok sa /\
    aggregate_elements (controls_phase_mapping_idx ph) (length (d_nlp st)) (controls ph) = Ok ca /\
    declare_nodes ph (length (d_nlp st)) sa ca (d_tables st) (symbols (d_self st)) = Ok nd /\
    d_nlp st' = d_nlp st ++ [ph'] /\
    X ph' = n_x nd /\ X_scaled ph' = n_x_scaled nd /\
    U ph' = n_u nd /\ U_scaled ph' = n_u_scaled nd /\
    use_states_from_phase ph' = agg_use sa /\
    use_controls_from_phase ph' = agg_use ca /\
    states_phase_mapping_idx ph' = with_all (states_phase_mapping_idx ph) sa /\
    states ph' = states ph /\ ns ph' = ns ph /\
    symbols (d_self st') = n_next nd /\
    d_tables st' = Tables (t_x (d_tables st) ++ [n_x nd])
                          (t_x_scaled (d_tables st) ++ [n_x_scaled nd])
                          (t_u (d_tables st) ++ [n_u nd])
                          (t_u_scaled (d_tables st) ++ [n_u_scaled nd]) /\
    exists m, scaled_all (n_x_scaled nd) = Ok m /\
      n_phase_x (d_self st') !! length (d_nlp st)
      = Some (n_phase (shape0 m) (agg_mapped sa) (ns ph + 1)) /\
      forall q, q <> length (d_nlp st) ->
                n_phase_x (d_self st') !! q = n_phase_x (d_self st) !! q.
Proof.
  intros H. unfold declare_phase in H.
  apply bind_ok in H as (sa & Hsa & H). apply bind_ok in H as (ca & Hca & H).
  destruct (negb (is_constant (control_type ph))
            && negb (is_linear_continuous (control_type ph))); [discriminate|].
  apply bind_ok in H as (nd & Hnd & H). apply bind_ok in H as (m & Hm & H).
  apply bind_ok in H as (xs & Hxs & H). apply bind_ok in H as (npx & Hnpx & H).
  apply bind_ok in H as (mu & Hmu & H). apply bind_ok in H as (us & Hus & H).
  apply bind_ok in H as (npu & Hnpu & [= <-]).
  exists sa, ca, nd. eexists. simpl.
  repeat (split; [first [eassumption|reflexivity]|]).
  exists m. split; [exact Hm|].
  unfold py_set in Hnpx.
  destruct (py_index (length (n_phase_x (d_self st))) (Z.of_nat (length (d_nlp st))))
    as [i|] eqn:Ei; [|discriminate].
  inversion Hnpx; subst npx.
  assert (i = length (d_nlp st)).
  { pose proof (py_index_lt _ _ _ Ei) as Hlt. unfold py_index in Ei.
    destruct ((0 <=? Z.of_nat (length (d_nlp st))) && _) eqn:E1.
    - inversion Ei. lia.
    - destruct ((_ <=? Z.of_nat (length (d_nlp st))) && (_ <? 0)) eqn:E2; [|discriminate].
      apply andb_prop in E2 as [_ E2]. lia. }
  subst i. split.
  - apply list_lookup_insert_eq. eapply py_index_lt; eauto.
  - intros q Hq. apply list_lookup_insert_ne. congruence.
Qed.

Lemma declared_tables (ocp : list (nlp R)) :
  forall st st',
    d_tables st = tables_of (d_nlp st) ->
    foldM declare_phase ocp st = Ok st' ->
    d_tables st' = tables_of (d_nlp st').
Proof.
  induction ocp as [|ph ocp IH]; intros st st' Hst H; simpl in H.
  - inversion H; subst. exact Hst.
  - apply bind_ok in H as (st1 & H1 & H). apply (IH st1 st'); [|exact H].
    destruct (declare_phase_inv _ _ _ H1)
      as (sa & ca & nd & ph' & _ & _ & _ & Hn & Hx & Hxs & Hu & Hus & _ & _ & _ & _ & _ & _ & Ht & _).
    rewrite Ht, Hn, Hst. unfold tables_of. simpl.
    rewrite !fmap_app. simpl. now rewrite Hx, Hxs, Hu, Hus.
Qed.

(** What the body of [for nlp in self.ocp.nlp] does with the list
    [index_variable_mapped] it gathers, when it goes through for the phase
    of index [p]: at every node [k], a row found in that list, in a phase
    that takes its variables from another phase, holds the very symbol and
    the very unscaled value stored for that phase at the same node and row;
    any other row holds a symbol created by this phase, and ranks are handed
    out to these rows only, in order.  The list is the code's own: besides
    the mapped indices of the aliased variables it holds the rows of every
    variable that is not aliased. *)
Theorem declare_phase_reuses (st st' : declaration R) (ph : nlp R) (sa ca : aggregate) :
  aggregate_elements (states_phase_mapping_idx ph) (length (d_nlp st)) (states ph) = Ok sa ->
  aggregate_elements (controls_phase_mapping_idx ph) (length (d_nlp st)) (controls ph) = Ok ca ->
  declare_phase st ph = Ok st' ->
  exists ph',
    d_nlp st' = d_nlp st ++ [ph'] /\
    use_states_from_phase ph' = agg_use sa /\
    use_controls_from_phase ph' = agg_use ca /\
    symbols (d_self st')
    = node_start ph (length (d_nlp st)) sa ca (symbols (d_self st)) (ns ph + 1) /\
    forall k, (k <= ns ph)%nat ->
      exists xs x us u,
        X_scaled ph' !! k = Some xs /\ X ph' !! k = Some x /\
        U_scaled ph' !! k = Some us /\ U ph' !! k = Some u /\
        node_places ph (length (d_nlp st)) sa ca (d_tables st) (symbols (d_self st))
                    k xs x us u.
Proof.
  intros Hsa Hca H.
  destruct (declare_phase_inv _ _ _ H)
    as (sa' & ca' & nd & ph' & Hsa' & Hca' & Hnd & Hn & Hx & Hxs & Hu & Hus
        & Hus1 & Hus2 & _ & _ & _ & Hsym & _).
  assert (sa' = sa) by congruence. assert (ca' = ca) by congruence. subst sa' ca'.
  exists ph'. repeat split; auto.
  - rewrite Hsym. unfold declare_nodes in Hnd.
    now destruct (declare_nodes_places _ _ _ _ _ _ _ _ Hnd) as [-> _].
  - intros k Hk. rewrite Hx, Hxs, Hu, Hus. unfold declare_nodes in Hnd.
    destruct (declare_nodes_places _ _ _ _ _ _ _ _ Hnd) as [_ Hnodes].
    apply Hnodes. lia.
Qed.

End Declaration.

(** Two phases of 2 shooting nodes and 3 states, phase 1 taking row 0 of
    its states from phase 0: the state of the loop before and after the
    second phase. *)
Module Partial.

Import OptimizationVector.

Definition unwrap {A} (d : A) (m : result A) : A :=
  match m with Ok a => a | Raise _ => d end.

Definition nothing : declaration Z := Declaration (init 0 0) [] (Tables [] [] [] []).

Definition first : nlp Z := Scenario.phase Scenario.shooting 2 3 3 [].

Definition second : nlp Z :=
  Scenario.phase Scenario.shooting 2 3 3
    [("q", NodeMappingIndex.Build 0 (Some [0]) (Some [Some 0]))].

Definition before : declaration Z :=
  Eval vm_compute in
    unwrap nothing (declare_phase (Declaration (init 2 0) [] (Tables [] [] [] [])) first).

Definition after : declaration Z :=
  Eval vm_compute in unwrap nothing (declare_phase before second).

Definition states_aggregate : aggregate :=
  Eval vm_compute in
    unwrap (Agg [] [] 0 0 false)
      (aggregate_elements (states_phase_mapping_idx second) 1 (states second)).

Definition controls_aggregate : aggregate :=
  Eval vm_compute in
    unwrap (Agg [] [] 0 0 false)
      (aggregate_elements (controls_phase_mapping_idx second) 1 (controls second)).

End Partial.

Lemma declare_phase_reuses_witness :
  exists ph',
    OptimizationVector.d_nlp Partial.after = OptimizationVector.d_nlp Partial.before ++ [ph'] /\
    OptimizationVector.use_states_from_phase ph' = 0 /\
    OptimizationVector.use_controls_from_phase ph' = 1 /\
    OptimizationVector.symbols (OptimizationVector.d_self Partial.after)
    = node_start Partial.second 1 Partial.states_aggregate Partial.controls_aggregate
        (OptimizationVector.symbols (OptimizationVector.d_self Partial.before)) (2 + 1) /\
    forall k, (k <= 2)%nat ->
      exists xs x us u,
        OptimizationVector.X_scaled ph' !! k = Some xs /\
        OptimizationVector.X ph' !! k = Some x /\
        OptimizationVector.U_scaled ph' !! k = Some us /\
        OptimizationVector.U ph' !! k = Some u /\
        node_places Partial.second 1 Partial.states_aggregate Partial.controls_aggregate
          (OptimizationVector.d_tables Partial.before)
          (OptimizationVector.symbols (OptimizationVector.d_self Partial.before))
          k xs x us u.
Proof.
  apply (declare_phase_reuses Partial.before Partial.after Partial.second
           Partial.states_aggregate Partial.controls_aggregate);
    vm_compute; reflexivity.
Defined.

(** In that problem phase 1 creates 2 state symbols per node, not 3, and
    its row 0 is phase 0's symbol at every node. *)
Example partial_alias_symbols :
  (let! ocp := Scenario.two_phases 2 3 [0] in
   let! r := OptimizationVector.define_ocp_shooting_points
               (OptimizationVector.init 2 0) ocp in
   let! p0 := py_get r.2 0 in
   let! p1 := py_get r.2 1 in
   Ok (List.map (List.map Casadi.sym_id) (OptimizationVector.X_scaled p0),
       List.map (List.map Casadi.sym_id) (OptimizationVector.X_scaled p1),
       OptimizationVector.symbols r.1))
  = Ok ([[0; 1; 2]; [6; 7; 8]; [12; 13; 14]]%nat,
        [[0; 15; 16]; [6; 20; 21]; [12; 25; 26]]%nat,
        27%nat).
Proof. vm_compute. reflexivity. Qed.

(** Two state variables, ["q"] and ["qdot"], of 2 rows each, with the
    scaling factors 10, 20, 30, 40; one shooting interval. *)
Module Mixed.

Import OptimizationVector.

Definition phase (states_mapping : dict NodeMappingIndex.t) : nlp Z :=
  Nlp 1 CONSTANT Scenario.shooting [Element "q" 2; Element "qdot" 2] [Element "tau" 1]
      states_mapping [] [10; 20; 30; 40] [1]
      (Scenario.constant_path 4 (-10)) (Scenario.constant_path 4 10)
      (Scenario.constant_path 1 (-100)) (Scenario.constant_path 1 100)
      0 0 [] [] [] [].

(** The rank of the symbol and the scaling factor of each row of a node. *)
Definition rows (x : list (expr Z)) : list (nat * Z) :=
  (fun e => match e with Scaled s factor => (Casadi.sym_id s, factor) end) <$> x.

End Mixed.

(** C5, at the failing input: two such phases, phase 1 aliasing row 0 of
    ["q"] to phase 0 and nothing else
    ([add("q", map_states=True, phase_pre=0, phase_post=1, index=[0], ...)]).
    Row 0 of phase 1 holds phase 0's symbol at every node, as the claim
    says.  Rows 2 and 3, those of ["qdot"], are in no aliased set, yet they
    hold phase 0's symbols (ranks 2, 3 and 7, 8) instead of fresh ones; and
    the fresh symbol of row 1 (ranks 9 and 11) is scaled by 10, the factor
    of row 0, where the non-aliased case (phase 0) scales row 1 by 20. *)
Lemma partial_alias_unaliased_rows :
  (let! tables := Scenario.state_tables 2 [0] in
   let! t0 := py_get tables 0 in
   let! t1 := py_get tables 1 in
   let! r := OptimizationVector.define_ocp_shooting_points (OptimizationVector.init 2 0)
               [Mixed.phase t0; Mixed.phase t1] in
   let! p0 := py_get r.2 0 in
   let! p1 := py_get r.2 1 in
   Ok (t1, Mixed.rows <$> OptimizationVector.X p0, Mixed.rows <$> OptimizationVector.X p1))
  = Ok ([("q", NodeMappingIndex.Build 0 (Some [0]) (Some [Some 0]))],
        [[(0%nat, 10); (1%nat, 20); (2%nat, 30); (3%nat, 40)];
         [(5%nat, 10); (6%nat, 20); (7%nat, 30); (8%nat, 40)]],
        [[(0%nat, 10); (9%nat, 10); (2%nat, 30); (3%nat, 40)];
         [(5%nat, 10); (11%nat, 10); (7%nat, 30); (8%nat, 40)]]).
Proof. vm_compute. reflexivity. Qed.

(** ** A phase that aliases all the states of the phase before it *)

Lemma py_in_range (n liberty : nat) :
  (liberty < n)%nat ->
  OptimizationVector.py_in (Z.of_nat liberty) (Some <$> py_range 0 n) = true.
Proof.
  intros H. unfold OptimizationVector.py_in. apply List.existsb_exists.
  exists (Some (Z.of_nat liberty)). split; [|apply Z.eqb_refl].
  apply list_elem_of_In. apply list_elem_of_fmap. exists (Z.of_nat liberty).
  split; [reflexivity|]. unfold py_range. apply list_elem_of_fmap.
  exists liberty. split; [reflexivity|]. apply list_elem_of_In, List.in_seq. lia.
Qed.

Lemma foldM_idle {A St} (f : St -> A -> result St) (l : list A) (st : St) :
  (forall x, x ∈ l -> f st x = Ok st) -> foldM f l st = Ok st.
Proof.
  induction l as [|x l IH]; intros H; simpl; [reflexivity|].
  rewrite H by left. simpl. apply IH. intros y Hy. apply H. now right.
Qed.

Section FullAlias.
Context {R : Type}.

Import OptimizationVector Casadi.

Variables (ph0 ph1 : nlp R) (name : string) (n : nat).

Hypothesis owner : states_phase_mapping_idx ph0 = [].
Hypothesis one_block : states ph1 = [Element name n].
Hypothesis all_rows :
  states_phase_mapping_idx ph1
  = [(name, NodeMappingIndex.init 0 (Some (py_range 0 n)) (Some (Some <$> py_range 0 n)))].
Hypothesis not_all : name <> "all".

Lemma aggregate_owner (p : nat) (els : list element) :
  forall a a', foldM (aggregate_step []) els a = Ok a' ->
               agg_use a' = agg_use a /\ agg_any a' = agg_any a.
Proof.
  induction els as [|el els IH]; intros a a' H; simpl in H.
  - inversion H. auto.
  - destruct (IH _ _ H) as [H1 H2]. simpl in H1, H2. auto.
Qed.

Definition full_aggregate : aggregate :=
  Agg (py_range 0 n) (Some <$> py_range 0 n) n 0 true.

Lemma aggregate_full (p : nat) :
  aggregate_elements (states_phase_mapping_idx ph1) p (states ph1) = Ok full_aggregate.
Proof.
  rewrite all_rows, one_block. unfold aggregate_elements.
  cbn [foldM]. unfold aggregate_step. cbn [dict_get el_name].
  rewrite String.eqb_refl. simpl. unfold full_aggregate. repeat f_equal; lia.
Qed.

Lemma full_table :
  dict_get (with_all (states_phase_mapping_idx ph1) full_aggregate) "all"
  = Some (NodeMappingIndex.Build 0 (Some (py_range 0 n)) (Some (Some <$> py_range 0 n))).
Proof. unfold with_all. simpl. now rewrite dict_get_set_eq. Qed.

(** The two turns of the declaration loop. *)
Lemma two_phases_inv (self0 self : t R) (ocp' : list (nlp R)) :
  define_ocp_shooting_points self0 [ph0; ph1] = Ok (self, ocp') ->
  exists st1 st2 q0 q1,
    declare_phase (Declaration self0 [] (Tables [] [] [] [])) ph0 = Ok st1 /\
    declare_phase st1 ph1 = Ok st2 /\
    d_nlp st1 = [q0] /\ d_nlp st2 = [q0; q1] /\ ocp' = [q0; q1] /\
    d_tables st1 = tables_of [q0] /\
    n_phase_x self = n_phase_x (d_self st2) /\
    x_scaled self = x_scaled (d_self st2) /\
    use_states_from_phase q0 = 0 /\ states q0 = states ph0 /\
    use_states_from_phase q1 = 0 /\ states q1 = states ph1 /\ ns q1 = ns ph1 /\
    states_phase_mapping_idx q1 = with_all (states_phase_mapping_idx ph1) full_aggregate.
Proof.
  intros H. unfold define_ocp_shooting_points in H.
  apply bind_ok in H as (st & Hst & [= <- <-]). simpl in Hst.
  apply bind_ok in Hst as (st1 & H1 & Hst). apply bind_ok in Hst as (st2 & H2 & [= <-]).
  destruct (declare_phase_inv _ _ _ H1)
    as (sa0 & ca0 & nd0 & q0 & Hsa0 & _ & _ & Hn0 & _ & _ & _ & _ & Hu0 & _ & _ & Hs0 & _).
  destruct (declare_phase_inv _ _ _ H2)
    as (sa1 & ca1 & nd1 & q1 & Hsa1 & _ & _ & Hn1 & _ & _ & _ & _ & Hu1 & _ & Hm1 & Hs1
        & Hns1 & _).
  simpl in Hn0. rewrite Hn0 in Hn1, Hsa1. simpl in Hn1.
  rewrite aggregate_full in Hsa1. inversion Hsa1; subst sa1.
  simpl in Hsa0. rewrite owner in Hsa0. unfold aggregate_elements in Hsa0.
  destruct (aggregate_owner 0 _ _ _ Hsa0) as [Huse0 _]. simpl in Huse0.
  exists st1, st2, q0, q1. repeat split; auto.
  - rewrite <- Hn0.
    apply (declared_tables [ph0] (Declaration self0 [] (Tables [] [] [] []))); [reflexivity|].
    simpl. now rewrite H1.
  - rewrite Hu0, Huse0. reflexivity.
Qed.

(** Every state place of phase 1 holds the symbol of phase 0 at the same
    node and row. *)
Lemma full_alias_symbols (self0 self : t R) (q0 q1 : nlp R) :
  define_ocp_shooting_points self0 [ph0; ph1] = Ok (self, [q0; q1]) ->
  forall k liberty, (k <= ns ph1)%nat -> (liberty < n)%nat ->
    exists s, at_node (X_scaled q1) k liberty = Some s /\
              at_node (X_scaled q0) k liberty = Some s.
Proof.
  intros H k liberty Hk Hl.
  destruct (two_phases_inv _ _ _ H)
    as (st1 & st2 & q0' & q1' & H1 & H2 & Hn1 & Hn2 & He & Ht & _).
  inversion He; subst q0' q1'.
  destruct (declare_phase_inv _ _ _ H2) as (sa1 & ca1 & _ & _ & Hsa1 & Hca1 & _).
  rewrite aggregate_full in Hsa1. inversion Hsa1; subst sa1.
  destruct (declare_phase_reuses st1 st2 ph1 full_aggregate ca1
              (aggregate_full _) Hca1 H2) as (ph' & Hn & _ & _ & _ & Hnodes).
  rewrite Hn1, Hn2 in Hn. simpl in Hn. inversion Hn; subst ph'.
  destruct (Hnodes k Hk) as (xs & x & us & u & Hxs & _ & _ & _ & Hplaces & _).
  assert (Hshape : (liberty < shape (states ph1))%nat).
  { rewrite one_block. unfold shape. simpl. lia. }
  specialize (Hplaces liberty Hshape). unfold place in Hplaces.
  rewrite Hn1 in Hplaces. simpl length in Hplaces.
  assert (Hreuse : reused 1 full_aggregate liberty = true).
  { unfold reused. simpl. now apply py_in_range. }
  rewrite Hreuse in Hplaces.
  destruct Hplaces as (j & s & e & Hj & _ & Hst & Hs & _).
  simpl in Hj. inversion Hj; subst j.
  rewrite Ht in Hst. simpl in Hst.
  exists s. split; [|exact Hst]. unfold at_node. now rewrite Hxs.
Qed.

(** [vector] adds no state of phase 1 to its list. *)
Lemma full_alias_vector (self0 self : t R) (q0 q1 : nlp R) :
  define_ocp_shooting_points self0 [ph0; ph1] = Ok (self, [q0; q1]) ->
  forall k xs,
    foldM (vector_state self 1 q1 k) (seq 0 (shape (states q1))) xs = Ok xs.
Proof.
  intros H k xs.
  destruct (two_phases_inv _ _ _ H)
    as (st1 & st2 & q0' & q1' & _ & _ & _ & _ & He & _ & _ & _ & _ & _ & Hu1 & Hs1 & _ & Hm1).
  inversion He; subst q0' q1'.
  apply foldM_idle. intros liberty Hin.
  apply list_elem_of_In, List.in_seq in Hin.
  rewrite Hs1, one_block in Hin. unfold shape in Hin. simpl in Hin.
  unfold vector_state. rewrite Hu1, Hm1, full_table. simpl.
  rewrite py_in_range by lia. reflexivity.
Qed.

Lemma store_inv (v_array : list R) (st st' : unpacking) (ph : nlp R) (m : Z)
    (n_var : nat) (each : element -> nat) :
  store v_array st ph m n_var each = Ok st' ->
  exists x_array d ds,
    reshape_F n_var (py_slice v_array (offset st) (offset st + m)) = Ok x_array /\
    py_get (data_states st) (Z.of_nat (p_idx st)) = Ok d /\
    py_set (data_states st) (Z.of_nat (p_idx st))
      (split_variables x_array each (states ph) (dict_set d "all" x_array)) = Ok ds /\
    st' = Unpacking ds (offset st + m) (S (p_idx st)).
Proof.
  unfold store. intros H.
  apply bind_ok in H as (x_array & Hx & H). apply bind_ok in H as (d & Hd & H).
  apply bind_ok in H as (ds & Hds & [= <-]).
  exists x_array, d, ds. auto.
Qed.

(** [to_dictionaries] fills phase 1's ["all"] entry from the values that
    follow phase 0's in the solver's vector. *)
Lemma full_alias_dictionaries (self0 self : t R) (q0 q1 : nlp R)
    (data : list R) (ds : list (dict (list (list R)))) :
  define_ocp_shooting_points self0 [ph0; ph1] = Ok (self, [q0; q1]) ->
  to_dictionaries_states self [q0; q1] data = Ok ds ->
  exists n0 n1 x_array,
    n_phase_x self !! 0%nat = Some n0 /\
    n_phase_x self !! 1%nat = Some n1 /\
    reshape_F n (py_slice data n0 (n0 + n1)) = Ok x_array /\
    registered ds 1 "all" = Ok x_array.
Proof.
  intros H Hd.
  destruct (two_phases_inv _ _ _ H)
    as (st1 & st2 & q0' & q1' & _ & _ & _ & _ & He & _ & _ & _ & Hu0 & _ & Hu1 & Hs1 & _ & Hm1).
  inversion He; subst q0' q1'.
  unfold to_dictionaries_states in Hd.
  apply bind_ok in Hd as (st & Hst & [= <-]). simpl in Hst.
  apply bind_ok in Hst as (sA & HA & Hst). apply bind_ok in Hst as (sB & HB & [= <-]).
  unfold unpack_states in HA. simpl in HA.
  apply bind_ok in HA as (n0 & Hn0 & HA). rewrite Hu0 in HA. simpl in HA.
  apply store_inv in HA as (x0 & d0 & ds0 & _ & _ & _ & ->).
  unfold unpack_states in HB. simpl in HB.
  apply bind_ok in HB as (n1 & Hn1 & HB). rewrite Hu1, Hm1, full_table in HB. simpl in HB.
  apply store_inv in HB as (x1 & d1 & ds1 & Hx1 & Hd1 & Hds1 & ->). simpl in *.
  exists n0, n1, x1.
  apply (py_get_nat_inv _ 0) in Hn0. apply (py_get_nat_inv _ 1) in Hn1.
  rewrite length_fmap in Hx1.
  assert (Hlen : length (py_range 0 n) = n).
  { unfold py_range. rewrite length_fmap, length_seq. lia. }
  rewrite Hlen in Hx1.
  repeat split; auto.
  unfold registered, OptionDict.getitem.
  pose proof (py_get_set_eq _ _ _ _ Hds1) as Hg.
  change (Z.of_nat 1) with 1 in Hg. rewrite Hg. simpl.
  rewrite Hs1, one_block. unfold split_variables. simpl.
  unfold dict_item. rewrite dict_get_set_ne by exact not_all.
  now rewrite dict_get_set_eq.
Qed.

End FullAlias.

(** C2, at the failing input: two phases of 1 shooting interval and one
    block of 2 states, phase 1 aliasing both rows of phase 0 through the
    identity.  [n_phase_x] is [[4; 4]], not [[4; 0]]; [vector] has 8 rows,
    the 4 states of phase 0 and the 4 controls, no state of phase 1 among
    them, as the claim says; and from the solution [1 .. 8]
    [to_dictionaries] files under phase 1's ["all"] key the values 5 to 8,
    those of the controls, not phase 0's states 1 to 4. *)
Lemma full_alias_round_trip_fails :
  (let! ocp := Scenario.two_phases 1 2 [0; 1] in
   let! r := OptimizationVector.define_ocp_shooting_points
               (OptimizationVector.init 2 0) ocp in
   let! v := OptimizationVector.vector r.1 r.2 in
   let! ds := OptimizationVector.to_dictionaries_states r.1 r.2 [1; 2; 3; 4; 5; 6; 7; 8] in
   let! all0 := registered ds 0 "all" in
   let! all1 := registered ds 1 "all" in
   Ok (OptimizationVector.n_phase_x r.1, length v, all0, all1))
  = Ok ([4; 4], 8%nat, [[1; 3]; [2; 4]], [[5; 7]; [6; 8]]).
Proof. vm_compute. reflexivity. Qed.

(** What the code does for two phases where phase 1 holds one block of
    [n] states, all of them aliased to phase 0 through the identity, once
    [define_ocp_shooting_points] has run: phase 1 takes its states from
    phase 0, each of its state places holding phase 0's symbol for the same
    node and row; [vector] emits no state of phase 1; and what
    [to_dictionaries] files under phase 1's ["all"] key is read from the
    [n_phase_x[1]] values that follow phase 0's [n_phase_x[0]] values in
    the solver's vector, whatever they are. *)
Theorem full_alias_views {R : Type} (ph0 ph1 : OptimizationVector.nlp R)
    (name : string) (n : nat)
    (self0 self : OptimizationVector.t R) (ocp' : list (OptimizationVector.nlp R)) :
  OptimizationVector.states_phase_mapping_idx ph0 = [] ->
  OptimizationVector.states ph1 = [OptimizationVector.Element name n] ->
  OptimizationVector.states_phase_mapping_idx ph1
  = [(name, NodeMappingIndex.init 0 (Some (py_range 0 n)) (Some (Some <$> py_range 0 n)))] ->
  name <> "all" ->
  OptimizationVector.define_ocp_shooting_points self0 [ph0; ph1] = Ok (self, ocp') ->
  exists q0 q1,
    ocp' = [q0; q1] /\
    OptimizationVector.use_states_from_phase q1 = 0 /\
    (forall k liberty, (k <= OptimizationVector.ns ph1)%nat -> (liberty < n)%nat ->
       exists s, at_node (OptimizationVector.X_scaled q1) k liberty = Some s /\
                 at_node (OptimizationVector.X_scaled q0) k liberty = Some s) /\
    (forall k xs,
       foldM (OptimizationVector.vector_state self 1 q1 k)
             (seq 0 (OptimizationVector.shape (OptimizationVector.states q1))) xs = Ok xs) /\
    (forall data ds,
       OptimizationVector.to_dictionaries_states self ocp' data = Ok ds ->
       exists n0 n1 x_array,
         OptimizationVector.n_phase_x self !! 0%nat = Some n0 /\
         OptimizationVector.n_phase_x self !! 1%nat = Some n1 /\
         OptimizationVector.reshape_F n (OptimizationVector.py_slice data n0 (n0 + n1))
         = Ok x_array /\
         registered ds 1 "all" = Ok x_array).
Proof.
  intros Howner Hblock Hrows Hname H.
  destruct (two_phases_inv ph0 ph1 name n Howner Hblock Hrows _ _ _ H)
    as (st1 & st2 & q0 & q1 & _ & _ & _ & _ & -> & _ & _ & _ & _ & _ & Hu1 & _).
  exists q0, q1. split; [reflexivity|]. split; [exact Hu1|]. split; [|split].
  - apply (full_alias_symbols ph0 ph1 name n Howner Hblock Hrows self0 self q0 q1 H).
  - apply (full_alias_vector ph0 ph1 name n Howner Hblock Hrows self0 self q0 q1 H).
  - intros data ds Hds.
    apply (full_alias_dictionaries ph0 ph1 name n Howner Hblock Hrows Hname
             self0 self q0 q1 data ds H Hds).
Qed.

(** Two phases of 1 shooting node and 2 states, phase 1 aliasing both. *)
Module Full.

Import OptimizationVector.

Definition first : nlp Z := Scenario.phase Scenario.shooting 1 2 2 [].

Definition second : nlp Z :=
  Scenario.phase Scenario.shooting 1 2 2
    [("q", NodeMappingIndex.init 0 (Some (py_range 0 2)) (Some (Some <$> py_range 0 2)))].

Definition declared : t Z * list (nlp Z) :=
  Eval vm_compute in
    Partial.unwrap (init 0 0, [])
      (define_ocp_shooting_points (init 2 0) [first; second]).

End Full.

Lemma full_alias_views_witness :
  exists q0 q1,
    Full.declared.2 = [q0; q1] /\
    OptimizationVector.use_states_from_phase q1 = 0 /\
    (forall k liberty, (k <= OptimizationVector.ns Full.second)%nat -> (liberty < 2)%nat ->
       exists s, at_node (OptimizationVector.X_scaled q1) k liberty = Some s /\
                 at_node (OptimizationVector.X_scaled q0) k liberty = Some s) /\
    (forall k xs,
       foldM (OptimizationVector.vector_state Full.declared.1 1 q1 k)
             (seq 0 (OptimizationVector.shape (OptimizationVector.states q1))) xs = Ok xs) /\
    (forall data ds,
       OptimizationVector.to_dictionaries_states Full.declared.1 Full.declared.2 data = Ok ds ->
       exists n0 n1 x_array,
         OptimizationVector.n_phase_x Full.declared.1 !! 0%nat = Some n0 /\
         OptimizationVector.n_phase_x Full.declared.1 !! 1%nat = Some n1 /\
         OptimizationVector.reshape_F 2 (OptimizationVector.py_slice data n0 (n0 + n1))
         = Ok x_array /\
         registered ds 1 "all" = Ok x_array).
Proof.
  apply (full_alias_views Full.first Full.second "q" 2
           (OptimizationVector.init 2 0) Full.declared.1 Full.declared.2).
  - reflexivity.
  - reflexivity.
  - reflexivity.
  - discriminate.
  - vm_compute. reflexivity.
Defined.

(* ================================================================= *)
(** * Further properties *)

(** ** [Mapping.__init__] *)

(** The indices listed by the [oppose] argument. *)
Definition oppose_indices (opp : Mapping.oppose_arg) : list Z :=
  match opp with
  | Mapping.OpposeNone => []
  | Mapping.OpposeInt i => [i]
  | Mapping.OpposeSeq l => l
  end.

(** Does one of the indices [l] denote position [k] of a list of length [n]? *)
Definition denoted (n : nat) (l : list Z) (k : nat) : bool :=
  existsb (fun i => bool_decide (py_index n i = Some k)) l.

Lemma init_flips (idx : list (option Z)) (opp : Mapping.oppose_arg) :
  Mapping.init idx opp
  = let! o := foldM (fun o i => py_set o i (-1)) (oppose_indices opp)
                (replicate (length idx) 1) in
    Ok (Mapping.Build idx o).
Proof. destruct opp; reflexivity. Qed.

Lemma flips_lookup (l : list Z) :
  forall o o', foldM (fun o i => py_set o i (-1)) l o = Ok o' ->
    length o' = length o /\
    forall k, o' !! k = if denoted (length o) l k then (fun _ => -1) <$> o !! k else o !! k.
Proof.
  induction l as [|i l IH]; intros o o'; simpl.
  - intros [= <-]. split; [reflexivity|]. intros k. reflexivity.
  - intros H. apply bind_ok in H as (o1 & H1 & H2).
    unfold py_set in H1. destruct (py_index (length o) i) as [n|] eqn:E; [|discriminate].
    inversion H1; subst o1. clear H1.
    destruct (IH _ _ H2) as [Hl Hk]. rewrite length_insert in Hl, Hk.
    split; [exact Hl|]. intros k. rewrite Hk.
    apply py_index_lt in E as Hn.
    destruct (decide (n = k)) as [->|Hne].
    + rewrite bool_decide_eq_true_2 by reflexivity. simpl.
      rewrite list_lookup_insert_eq by exact Hn.
      destruct (lookup_lt_is_Some_2 o k Hn) as [x ->]. simpl.
      destruct (denoted (length o) l k); reflexivity.
    + rewrite bool_decide_eq_false_2 by congruence. simpl.
      rewrite list_lookup_insert_ne by exact Hne. reflexivity.
Qed.

Lemma flips_ok (l : list Z) :
  forall o, Forall (fun i => is_Some (py_index (length o) i)) l ->
    exists o', foldM (fun o i => py_set o i (-1)) l o = Ok o'.
Proof.
  induction l as [|i l IH]; intros o Hl; simpl; [eauto|].
  inversion Hl as [|? ? [n Hn] Hl']; subst.
  unfold py_set at 1. rewrite Hn. simpl. apply IH. now rewrite length_insert.
Qed.

Lemma flips_error (l : list Z) :
  forall o, Exists (fun i => py_index (length o) i = None) l ->
    foldM (fun o i => py_set o i (-1)) l o = Raise IndexError.
Proof.
  induction l as [|i l IH]; intros o Hl; simpl; [inversion Hl|].
  unfold py_set at 1. destruct (py_index (length o) i) as [n|] eqn:E; simpl; [|reflexivity].
  apply IH. rewrite length_insert. inversion Hl; subst; [congruence|assumption].
Qed.

(** X1.  The constructor keeps [map_idx] and builds [oppose] with one sign
    per entry: [-1] at the positions the [oppose] argument denotes (an
    [int] or a sequence, a negative index counting from the end, a repeated
    index counting once), [1] everywhere else. *)
Theorem Mapping_init_signs (idx : list (option Z)) (opp : Mapping.oppose_arg)
    (m : Mapping.t) :
  Mapping.init idx opp = Ok m ->
  Mapping.map_idx m = idx /\
  length (Mapping.oppose m) = length idx /\
  forall k, (k < length idx)%nat ->
    Mapping.oppose m !! k
    = Some (if denoted (length idx) (oppose_indices opp) k then -1 else 1).
Proof.
  rewrite init_flips. intros H. apply bind_ok in H as (o & Ho & [= <-]). simpl.
  destruct (flips_lookup _ _ _ Ho) as [Hl Hk]. rewrite length_replicate in Hl, Hk.
  repeat split; auto. intros k Hlt. rewrite Hk.
  rewrite lookup_replicate_2 by exact Hlt.
  destruct (denoted _ _ k); reflexivity.
Qed.

Lemma Mapping_init_signs_witness :
  Mapping.map_idx (Mapping.Build [Some 0; Some 1; None; Some 1] [1; -1; 1; -1])
  = [Some 0; Some 1; None; Some 1] /\
  length (Mapping.oppose (Mapping.Build [Some 0; Some 1; None; Some 1] [1; -1; 1; -1]))
  = 4%nat /\
  forall k, (k < 4)%nat ->
    Mapping.oppose (Mapping.Build [Some 0; Some 1; None; Some 1] [1; -1; 1; -1]) !! k
    = Some (if denoted 4 [-1; 1; -3] k then -1 else 1).
Proof.
  apply (Mapping_init_signs [Some 0; Some 1; None; Some 1] (Mapping.OpposeSeq [-1; 1; -3])).
  reflexivity.
Defined.

(** X2.  The constructor fails exactly when an index of the [oppose]
    argument is out of range for [map_idx], and then with [IndexError]; in
    particular any [oppose] index on an empty [map_idx] fails. *)
Theorem Mapping_init_index_error (idx : list (option Z)) (opp : Mapping.oppose_arg) :
  match Mapping.init idx opp with
  | Ok _ => forallb (fun i => bool_decide (is_Some (py_index (length idx) i)))
              (oppose_indices opp) = true
  | Raise e =>
      e = IndexError /\
      existsb (fun i => bool_decide (py_index (length idx) i = None))
        (oppose_indices opp) = true
  end.
Proof.
  rewrite init_flips.
  destruct (forallb (fun i => bool_decide (is_Some (py_index (length idx) i)))
              (oppose_indices opp)) eqn:E.
  - assert (H : Forall (fun i => is_Some (py_index (length (replicate (length idx) 1)) i))
                  (oppose_indices opp)).
    { rewrite length_replicate. apply List.Forall_forall. intros i Hi.
      rewrite List.forallb_forall in E. specialize (E i Hi).
      apply bool_decide_eq_true in E. exact E. }
    destruct (flips_ok _ _ H) as [o' ->]. reflexivity.
  - assert (H : Exists (fun i => py_index (length idx) i = None) (oppose_indices opp)).
    { induction (oppose_indices opp) as [|i l IH]; [discriminate|].
      simpl in E. apply andb_false_iff in E as [E|E].
      - left. apply bool_decide_eq_false in E.
        destruct (py_index (length idx) i); [exfalso; apply E; eauto|reflexivity].
      - right. auto. }
    rewrite flips_error by (now rewrite length_replicate).
    simpl. split; [reflexivity|].
    apply List.existsb_exists. apply List.Exists_exists in H as (i & Hi & Hn).
    exists i. split; [exact Hi|]. apply bool_decide_eq_true. exact Hn.
Qed.

(** ** [Mapping.map] through a [BiMapping] *)

Lemma py_get_inv {A} (l : list A) (i : Z) (x : A) :
  py_get l i = Ok x -> exists k, py_index (length l) i = Some k /\ l !! k = Some x.
Proof.
  unfold py_get. destruct (py_index (length l) i) as [k|]; [|discriminate].
  destruct (l !! k) eqn:E; [|discriminate]. intros [= <-]. eauto.
Qed.

Section RoundTrip.
Context {T : Type} (zero : T) (neg : T -> T).
Hypothesis neg_involutive : forall x, neg (neg x) = x.



End RoundTrip.


(** ** [variable_mapping_fill_phases]: what it writes *)

(** The automatic entries are all in the first dictionary: the state of a
    list whose entries for all phases were added before any phase of its
    own was. *)
Definition automatic_in_first (S : BiMappingList.t) : Prop :=
  forall d k b, auto_at S d k b -> d = 0%nat.

(** What [variable_mapping_fill_phases] leaves under [self.options[i][k]]. *)
Definition replicated (m : nat) (S : BiMappingList.t) (i : nat) (k : string)
  : option BiMapping.t :=
  match cell S 0 k with
  | Some b =>
      if BiMapping.automatic_multiple_phase b then
        if (i =? 0)%nat then Some (BiMapping.set_phase b 0)
        else if (i <=? m)%nat then Some (copy i b)
        else cell S i k
      else cell S i k
  | None => cell S i k
  end.

(** The entries after the keys [done] of the first dictionary were
    visited. *)
Definition replicated_for (m : nat) (S : BiMappingList.t) (done : list string)
    (i : nat) (k : string) : option BiMapping.t :=
  if bool_decide (k ∈ done) then replicated m S i k else cell S i k.

Lemma replicated_visit (m : nat) (S : BiMappingList.t) (done : list string) (k : string)
    (T : BiMappingList.t) :
  (forall i k', cell T i k' = replicated_for m S done i k') ->
  forall i k', cell (visit (Datatypes.S m) 0 T k) i k' = replicated_for m S (done ++ [k]) i k'.
Proof.
  intros HT i k'.
  assert (Hother : k' <> k -> replicated_for m S (done ++ [k]) i k' = replicated_for m S done i k').
  { intros Hne. unfold replicated_for.
    destruct (decide (k' ∈ done)) as [Hin|Hout].
    - rewrite !bool_decide_eq_true_2; auto. apply elem_of_app. auto.
    - rewrite !bool_decide_eq_false_2; auto.
      rewrite elem_of_app, list_elem_of_singleton. tauto. }
  destruct (decide (k' = k)) as [->|Hne].
  2:{ rewrite visit_cell_other by exact Hne. rewrite Hother by exact Hne. apply HT. }
  assert (Hin : replicated_for m S (done ++ [k]) i k = replicated m S i k).
  { unfold replicated_for. rewrite bool_decide_eq_true_2; [reflexivity|].
    apply elem_of_app. right. now apply list_elem_of_singleton. }
  rewrite Hin.
  assert (H0 : cell T 0 k = match cell S 0 k with
                            | Some b => if BiMapping.automatic_multiple_phase b
                                        then if bool_decide (k ∈ done)
                                             then Some (BiMapping.set_phase b 0) else Some b
                                        else Some b
                            | None => None
                            end).
  { rewrite HT. unfold replicated_for, replicated.
    destruct (cell S 0 k) as [b|] eqn:E; destruct (bool_decide (k ∈ done));
      try reflexivity; try (rewrite E); destruct (BiMapping.automatic_multiple_phase b);
      reflexivity. }
  assert (Hi : cell T i k = if bool_decide (k ∈ done) then replicated m S i k else cell S i k).
  { apply HT. }
  unfold replicated in *.
  destruct (cell S 0 k) as [b|] eqn:E.
  2:{ rewrite visit_noop; [|intros b [Hc _]; congruence].
      rewrite Hi. now destruct (bool_decide (k ∈ done)). }
  destruct (BiMapping.automatic_multiple_phase b) eqn:Ea.
  2:{ rewrite visit_noop; [|intros b' [Hc Ha]; rewrite H0 in Hc; congruence].
      rewrite Hi. now destruct (bool_decide (k ∈ done)). }
  set (b' := if bool_decide (k ∈ done) then BiMapping.set_phase b 0 else b).
  assert (Hauto : auto_at T 0 k b').
  { split; [rewrite H0; unfold b'; now destruct (bool_decide (k ∈ done))|].
    unfold b'. destruct (bool_decide (k ∈ done)); exact Ea. }
  assert (Hcopy : forall j, copy j b' = copy j b).
  { intros j. unfold b'. destruct (bool_decide (k ∈ done)); [apply copy_set_phase|reflexivity]. }
  assert (Hset : BiMapping.set_phase b' 0 = BiMapping.set_phase b 0).
  { unfold b'. destruct (bool_decide (k ∈ done)); reflexivity. }
  destruct (Nat.eqb_spec i 0) as [->|Hi0].
  - rewrite (visit_cell_self _ _ _ _ _ Hauto) by lia. now rewrite Hset.
  - destruct (Nat.leb_spec i m) as [Hle|Hgt].
    + rewrite (visit_cell_in _ _ _ _ _ _ Hauto) by lia. now rewrite Hcopy.
    + rewrite visit_cell_far by lia. rewrite Hi.
      destruct (bool_decide (k ∈ done)); [|reflexivity].
      destruct (Nat.eqb_spec i 0); [lia|]. destruct (Nat.leb_spec i m); [lia|reflexivity].
Qed.

Lemma replicated_visits (m : nat) (S : BiMappingList.t) (todo : list string) :
  forall done T,
    (forall i k, cell T i k = replicated_for m S done i k) ->
    forall i k, cell (fold_left (visit (Datatypes.S m) 0) todo T) i k
                = replicated_for m S (done ++ todo) i k.
Proof.
  induction todo as [|k todo IH]; intros done T HT i k'; simpl.
  - rewrite app_nil_r. apply HT.
  - rewrite (cons_middle k done todo), app_assoc. apply IH.
    now apply replicated_visit.
Qed.

Lemma replicated_first (m : nat) (S : BiMappingList.t) :
  forall i k, cell (visit_dict (Datatypes.S m) 0 S) i k = replicated m S i k.
Proof.
  intros i k. unfold visit_dict.
  rewrite (replicated_visits m S (dict_keys (dict_at S 0)) [] S) by reflexivity.
  simpl. unfold replicated_for.
  destruct (decide (k ∈ dict_keys (dict_at S 0))) as [Hin|Hout].
  - now rewrite bool_decide_eq_true_2.
  - rewrite bool_decide_eq_false_2 by exact Hout.
    rewrite <- cell_keys in Hout. unfold replicated.
    destruct (cell S 0 k) as [b|]; [exfalso; apply Hout; eauto|reflexivity].
Qed.

Lemma visit_dict_noop (n d : nat) (S : BiMappingList.t) :
  (forall k b, auto_at S d k b -> False) -> visit_dict n d S = S.
Proof.
  intros H. unfold visit_dict.
  induction (dict_keys (dict_at S d)) as [|k ks IH]; simpl; [reflexivity|].
  rewrite visit_noop by (apply H). exact IH.
Qed.

Lemma pass_noop (n fuel : nat) (S : BiMappingList.t) :
  forall d, (forall d' k b, (d <= d')%nat -> auto_at S d' k b -> False) ->
            pass n fuel d S = S.
Proof.
  induction fuel as [|fuel IH]; intros d H; simpl; [reflexivity|].
  destruct (d <? length S)%nat; [|reflexivity].
  rewrite visit_dict_noop by (intros k b; apply H; lia).
  apply IH. intros d' k b Hd. apply H. lia.
Qed.

(** X4.  On a list whose automatic entries are all in the first dictionary,
    [variable_mapping_fill_phases(n)] with [n >= 1] returns the list in
    which every automatic entry [b] of name [k] has its phase set to 0 and
    is copied, with the same two mappings, under [k] in each of the
    dictionaries [1 .. n-1] (the copy of phase [i] carrying phase [i] and
    not flagged automatic); every other entry is left as it was. *)
Theorem variable_mapping_fill_phases_replicates (self : BiMappingList.t) (m : nat) :
  automatic_in_first self ->
  exists once,
    BiMappingList.variable_mapping_fill_phases self (Datatypes.S m) = Ok once /\
    forall i k, cell once i k = replicated m self i k.
Proof.
  intros Hfirst. unfold BiMappingList.variable_mapping_fill_phases.
  rewrite fill_from_pass. eexists. split; [reflexivity|].
  destruct (Nat.max (length self) (Datatypes.S m)) as [|fuel] eqn:Ef; [lia|].
  simpl. destruct (0 <? length self)%nat eqn:El.
  - rewrite pass_noop; [apply replicated_first|].
    intros d' k b Hd [Hc Ha]. rewrite replicated_first in Hc. unfold replicated in Hc.
    assert (Hself : cell self d' k = Some b -> False).
    { intros H. specialize (Hfirst d' k b (conj H Ha)). lia. }
    destruct (cell self 0 k) as [b0|]; [|auto].
    destruct (BiMapping.automatic_multiple_phase b0); [|auto].
    destruct (Nat.eqb_spec d' 0); [lia|].
    destruct (d' <=? m)%nat; [|auto].
    inversion Hc; subst b. discriminate.
  - intros i k. apply Nat.ltb_ge in El.
    assert (Hnil : self = []) by (destruct self; [reflexivity|simpl in El; lia]).
    subst self. reflexivity.
Qed.

Lemma variable_mapping_fill_phases_replicates_witness :
  let q := BiMapping.Build 0 true (Mapping.Build [Some 0; None] [1; 1])
             (Mapping.Build [Some 0] [1]) in
  let r := BiMapping.Build 1 false (Mapping.Build [Some 0] [1]) (Mapping.Build [Some 0] [1]) in
  exists once,
    BiMappingList.variable_mapping_fill_phases [[("q", q)]; [("r", r)]] 3 = Ok once /\
    forall i k, cell once i k = replicated 2 [[("q", q)]; [("r", r)]] i k.
Proof.
  intros q r.
  apply (variable_mapping_fill_phases_replicates [[("q", q)]; [("r", r)]] 2).
  intros d k b [Hc Ha]. destruct d as [|[|d]]; [reflexivity| |].
  - change (cell _ 1 k) with (if String.eqb "r" k then Some r else None) in Hc.
    destruct (String.eqb "r" k); [|discriminate]. inversion Hc; subst b.
    unfold r in Ha. discriminate.
  - change (cell _ (Datatypes.S (Datatypes.S d)) k) with (@None BiMapping.t) in Hc.
    discriminate.
Defined.

(** X5.  With [n_phases = 0], or on a list that holds no automatic entry,
    [variable_mapping_fill_phases] returns the list as it is: no phase is
    rewritten and no dictionary is added. *)
Theorem variable_mapping_fill_phases_idle (self : BiMappingList.t) (n : nat) :
  n = 0%nat \/ (forall d k b, auto_at self d k b -> False) ->
  BiMappingList.variable_mapping_fill_phases self n = Ok self.
Proof.
  intros H. unfold BiMappingList.variable_mapping_fill_phases. rewrite fill_from_pass.
  f_equal. destruct H as [->|H].
  - apply pass_zero.
  - apply pass_noop. intros d' k b _. apply H.
Qed.

Lemma variable_mapping_fill_phases_idle_witness :
  let r := BiMapping.Build 1 false (Mapping.Build [Some 0] [1]) (Mapping.Build [Some 0] [1]) in
  BiMappingList.variable_mapping_fill_phases [[]; [("r", r)]] 0 = Ok [[]; [("r", r)]].
Proof.
  intros r. apply (variable_mapping_fill_phases_idle [[]; [("r", r)]] 0). left. reflexivity.
Defined.

(** ** [BiMappingList.add] with a [BiMapping] *)

(** X6.  When a [BiMapping] is handed to [add], the two [oppose] arguments
    have no effect, not even an index that no mapping has: the call does
    what it does without them, and the entry it files carries the
    [to_second] and [to_first] of the [BiMapping] as they are. *)
Theorem BiMappingList_add_bimapping_as_is (self : BiMappingList.t) (name : string)
    (oppose_to_second oppose_to_first : Mapping.oppose_arg)
    (b : BiMapping.t) (phase : Z) :
  BiMappingList.add self name BiMapping.ArgNone BiMapping.ArgNone
    oppose_to_second oppose_to_first (Some b) phase
  = BiMappingList.add self name BiMapping.ArgNone BiMapping.ArgNone
      Mapping.OpposeNone Mapping.OpposeNone (Some b) phase /\
  match BiMappingList.add self name BiMapping.ArgNone BiMapping.ArgNone
          oppose_to_second oppose_to_first (Some b) phase with
  | Ok self' =>
      exists b', registered self' phase name = Ok b' /\
                 BiMapping.to_second b' = BiMapping.to_second b /\
                 BiMapping.to_first b' = BiMapping.to_first b
  | Raise _ => True
  end.
Proof.
  split; [reflexivity|].
  destruct (BiMappingList.add _ _ _ _ _ _ _ _) as [self'|e] eqn:E.
  - unfold BiMappingList.add, BiMappingList.add_maps in E. simpl in E.
    apply OptionDict_add_registers in E as (v & Hv & Hreg).
    exists v. split; [exact Hreg|].
    unfold BiMapping.init in Hv. destruct (OptionDict.generic_phase phase) as [ph auto].
    simpl in Hv. inversion Hv; subst v. split; reflexivity.
  - exact I.
Qed.

(** ** [NodeMappingList.get_variable_from_phase_idx] *)

Lemma foldM_concat {A St} (f : St -> A -> result St) (ll : list (list A)) :
  forall st, foldM (fun acc l => foldM f l acc) ll st = foldM f (concat ll) st.
Proof.
  induction ll as [|l ll IH]; intros st; simpl; [reflexivity|].
  rewrite foldM_app. destruct (foldM f l st); simpl; auto.
Qed.

Lemma foldM_is_ok {A St} (f : St -> A -> result St) (good : A -> bool)
    (Inv : St -> Prop) :
  (forall st x, Inv st ->
     is_ok (f st x) = good x /\ forall st', f st x = Ok st' -> Inv st') ->
  forall l st, Inv st ->
    is_ok (foldM f l st) = forallb good l /\
    forall st', foldM f l st = Ok st' -> Inv st'.
Proof.
  intros Hstep. induction l as [|x l IH]; intros st Hst; simpl.
  - split; [reflexivity|]. intros st' [= <-]. exact Hst.
  - destruct (Hstep st x Hst) as [Hok Hinv].
    destruct (f st x) as [st1|e]; simpl in *.
    + rewrite <- Hok. simpl. apply IH. now apply Hinv.
    + rewrite <- Hok. split; [reflexivity|discriminate].
Qed.

(** Can the entry be resolved for a problem of [n] phases?  An entry that
    maps neither states nor controls is passed over; any other needs an
    index list, each index of it denoting an entry of
    [variable_mapping.to_second.map_idx], and a [phase_post] that denotes
    one of the [n] phases. *)
Definition resolvable (n : nat) (nm : NodeMapping.t) : bool :=
  if NodeMapping.map_states nm || NodeMapping.map_controls nm then
    match NodeMapping.index nm with
    | Some index =>
        forallb (fun j => bool_decide (is_Some (py_index
                   (length (Mapping.map_idx (BiMapping.to_second
                                               (NodeMapping.variable_mapping nm)))) j)))
                index
        && bool_decide (is_Some (py_index n (NodeMapping.phase_post nm)))
    | None => false
    end
  else true.

Lemma mapped_indices_is_ok (map_idx : list (option Z)) (index : list Z) :
  is_ok (NodeMappingList.mapped_indices map_idx index)
  = forallb (fun j => bool_decide (is_Some (py_index (length map_idx) j))) index.
Proof.
  induction index as [|j index IH]; [reflexivity|].
  cbn [NodeMappingList.mapped_indices forallb]. rewrite <- IH.
  unfold py_get. destruct (py_index (length map_idx) j) as [k|] eqn:E.
  - rewrite bool_decide_eq_true_2 by eauto.
    destruct (lookup_lt_is_Some_2 map_idx k (py_index_lt _ _ _ E)) as [v ->]. simpl.
    now destruct (NodeMappingList.mapped_indices map_idx index).
  - rewrite bool_decide_eq_false_2; [reflexivity|]. intros [? ?]. discriminate.
Qed.

Lemma publish_put (tables tables' : list (dict NodeMappingIndex.t)) (post : Z)
    (key : string) (e : NodeMappingIndex.t) :
  NodeMappingList.publish tables post key e = Ok tables' ->
  exists q, py_index (length tables) post = Some q /\ tables' = put q key e tables.
Proof.
  unfold NodeMappingList.publish. intros H. apply bind_ok in H as (d & Hd & H).
  apply py_get_inv in Hd as (q & Hq & Hd). exists q. split; [exact Hq|].
  unfold py_set in H. rewrite Hq in H. inversion H; subst tables'.
  apply lookup_lt_Some in Hd as Hlt. unfold put.
  replace (q + 1 - length tables)%nat with 0%nat by lia. simpl. rewrite app_nil_r.
  unfold dict_at. now rewrite Hd.
Qed.

Lemma publish_is_ok (tables : list (dict NodeMappingIndex.t)) (post : Z)
    (key : string) (e : NodeMappingIndex.t) :
  is_ok (NodeMappingList.publish tables post key e)
  = bool_decide (is_Some (py_index (length tables) post)).
Proof.
  unfold NodeMappingList.publish, py_get, py_set.
  destruct (py_index (length tables) post) as [q|] eqn:E.
  - rewrite bool_decide_eq_true_2 by eauto.
    destruct (lookup_lt_is_Some_2 tables q (py_index_lt _ _ _ E)) as [d ->]. reflexivity.
  - rewrite bool_decide_eq_false_2; [reflexivity|]. intros [? ?]. discriminate.
Qed.

Lemma node_mapping_index_is_ok (nm : NodeMapping.t) :
  is_ok (NodeMappingList.node_mapping_index nm)
  = match NodeMapping.index nm with
    | Some index =>
        forallb (fun j => bool_decide (is_Some (py_index
                   (length (Mapping.map_idx (BiMapping.to_second
                                               (NodeMapping.variable_mapping nm)))) j)))
                index
    | None => false
    end.
Proof.
  unfold NodeMappingList.node_mapping_index.
  destruct (NodeMapping.index nm) as [index|]; [|reflexivity].
  rewrite <- mapped_indices_is_ok.
  now destruct (NodeMappingList.mapped_indices _ index).
Qed.

(** The tables keep one dictionary per phase. *)
Definition sized (n : nat) (acc : NodeMappingList.tables) : Prop :=
  length acc.1.1 = n /\ length acc.1.2 = n /\ length acc.2 = n.

Lemma resolve_entry_is_ok (n : nat) (acc : NodeMappingList.tables)
    (kv : string * NodeMapping.t) :
  sized n acc ->
  is_ok (NodeMappingList.resolve_entry acc kv) = resolvable n kv.2 /\
  forall acc', NodeMappingList.resolve_entry acc kv = Ok acc' -> sized n acc'.
Proof.
  destruct acc as [[s sd] c], kv as [key nm]. intros (Hs & Hsd & Hc). simpl in *.
  unfold resolvable.
  pose proof (node_mapping_index_is_ok nm) as Hn.
  destruct (NodeMappingList.node_mapping_index nm) as [e|err] eqn:En; simpl in Hn.
  - pose proof (publish_is_ok s (NodeMapping.phase_post nm) key e) as Hps.
    pose proof (publish_is_ok sd (NodeMapping.phase_post nm) key e) as Hpsd.
    pose proof (publish_is_ok c (NodeMapping.phase_post nm) key e) as Hpc.
    rewrite Hs in Hps. rewrite Hsd in Hpsd. rewrite Hc in Hpc.
    destruct (NodeMapping.index nm) as [index|]; [|discriminate]. rewrite <- Hn. simpl.
    destruct (NodeMapping.map_states nm), (NodeMapping.map_controls nm); simpl.
    + destruct (NodeMappingList.publish s _ key e) as [s'|] eqn:E1; simpl in *;
        [|rewrite <- Hps; split; [reflexivity|discriminate]].
      destruct (NodeMappingList.publish sd _ key e) as [sd'|] eqn:E2; simpl in *;
        [|rewrite <- Hpsd; split; [reflexivity|discriminate]].
      destruct (NodeMappingList.publish c _ key e) as [c'|] eqn:E3; simpl in *;
        [|rewrite <- Hpc; split; [reflexivity|discriminate]].
      rewrite <- Hps. split; [reflexivity|]. intros acc' [= <-].
      apply publish_put in E1 as (? & ? & ->), E2 as (? & ? & ->), E3 as (? & ? & ->).
      unfold sized. simpl. rewrite !put_length.
      repeat match goal with H : py_index _ _ = Some _ |- _ => apply py_index_lt in H end.
      lia.
    + destruct (NodeMappingList.publish s _ key e) as [s'|] eqn:E1; simpl in *;
        [|rewrite <- Hps; split; [reflexivity|discriminate]].
      destruct (NodeMappingList.publish sd _ key e) as [sd'|] eqn:E2; simpl in *;
        [|rewrite <- Hpsd; split; [reflexivity|discriminate]].
      rewrite <- Hps. split; [reflexivity|]. intros acc' [= <-].
      apply publish_put in E1 as (? & ? & ->), E2 as (? & ? & ->).
      unfold sized. simpl. rewrite !put_length.
      repeat match goal with H : py_index _ _ = Some _ |- _ => apply py_index_lt in H end.
      lia.
    + destruct (NodeMappingList.publish c _ key e) as [c'|] eqn:E3; simpl in *;
        [|rewrite <- Hpc; split; [reflexivity|discriminate]].
      rewrite <- Hpc. split; [reflexivity|]. intros acc' [= <-].
      apply publish_put in E3 as (? & ? & ->).
      unfold sized. simpl. rewrite !put_length.
      repeat match goal with H : py_index _ _ = Some _ |- _ => apply py_index_lt in H end.
      lia.
    + split; [reflexivity|]. intros acc' [= <-]. unfold sized. auto.
  - assert (Hf : match NodeMapping.index nm with
                 | Some index =>
                     forallb (fun j => bool_decide (is_Some (py_index
                       (length (Mapping.map_idx (BiMapping.to_second
                                  (NodeMapping.variable_mapping nm)))) j))) index
                     && bool_decide (is_Some (py_index n (NodeMapping.phase_post nm)))
                 | None => false
                 end = false).
    { destruct (NodeMapping.index nm); [|reflexivity]. now rewrite <- Hn. }
    rewrite Hf.
    destruct (NodeMapping.map_states nm), (NodeMapping.map_controls nm); simpl;
      try (split; [reflexivity|discriminate]).
    split; [reflexivity|]. intros acc' [= <-]. unfold sized. auto.
Qed.

(** X7.  [get_variable_from_phase_idx] goes through exactly when every
    entry of the list that maps states or controls can be resolved: it has
    an index list (the default [index=None] cannot be iterated), each index
    denotes an entry of its variable mapping's [to_second.map_idx], and its
    [phase_post] denotes one of the [n_phases] phases. *)
Theorem get_variable_from_phase_idx_succeeds (self : NodeMappingList.t) (n : nat) :
  is_ok (NodeMappingList.get_variable_from_phase_idx self n)
  = forallb (forallb (fun kv : string * NodeMapping.t => resolvable n kv.2)) self.
Proof.
  unfold NodeMappingList.get_variable_from_phase_idx.
  set (empty := replicate n []).
  assert (H0 : sized n (empty, empty, empty)).
  { unfold sized, empty. simpl. now rewrite length_replicate. }
  apply (foldM_is_ok (fun acc node_mapping =>
                        foldM NodeMappingList.resolve_entry node_mapping acc)
           (forallb (fun kv : string * NodeMapping.t => resolvable n kv.2))
           (sized n)); [|exact H0].
  intros st d Hst.
  apply (foldM_is_ok NodeMappingList.resolve_entry
           (fun kv : string * NodeMapping.t => resolvable n kv.2) (sized n));
    [|exact Hst].
  intros st' kv. apply resolve_entry_is_ok.
Qed.

(** What a table holds once the entries [done] have been resolved, [flag]
    telling which of them the table is for: whatever is found under a
    phase and a name was put there for an entry of that name whose
    [phase_post] is that phase, and is the [NodeMappingIndex] of its
    [phase_pre], its [index] and the entries of [to_second.map_idx] at
    these indices; and every such entry has something under its
    [phase_post] and name. *)
Definition published_from (n : nat) (flag : NodeMapping.t -> bool)
    (done : list (string * NodeMapping.t))
    (table : list (dict NodeMappingIndex.t)) : Prop :=
  (forall q key e, cell table q key = Some e ->
     exists nm index vmi,
       (key, nm) ∈ done /\ flag nm = true /\
       py_index n (NodeMapping.phase_post nm) = Some q /\
       NodeMapping.index nm = Some index /\
       NodeMappingList.mapped_indices
         (Mapping.map_idx (BiMapping.to_second (NodeMapping.variable_mapping nm))) index
       = Ok vmi /\
       e = NodeMappingIndex.Build (NodeMapping.phase_pre nm) (Some index) (Some vmi)) /\
  (forall key nm, (key, nm) ∈ done -> flag nm = true ->
     exists q, py_index n (NodeMapping.phase_post nm) = Some q /\
               is_Some (cell table q key)).

Lemma node_mapping_index_inv (nm : NodeMapping.t) (e : NodeMappingIndex.t) :
  NodeMappingList.node_mapping_index nm = Ok e ->
  exists index vmi,
    NodeMapping.index nm = Some index /\
    NodeMappingList.mapped_indices
      (Mapping.map_idx (BiMapping.to_second (NodeMapping.variable_mapping nm))) index
    = Ok vmi /\
    e = NodeMappingIndex.Build (NodeMapping.phase_pre nm) (Some index) (Some vmi).
Proof.
  unfold NodeMappingList.node_mapping_index.
  destruct (NodeMapping.index nm) as [index|]; [|discriminate].
  intros H. apply bind_ok in H as (vmi & Hv & [= <-]). eauto.
Qed.

(** What resolving one entry does to a table. *)
Definition published_entry (flag : NodeMapping.t -> bool) (key : string)
    (nm : NodeMapping.t) (table table' : list (dict NodeMappingIndex.t)) : Prop :=
  if flag nm then
    exists e q, NodeMappingList.node_mapping_index nm = Ok e /\
                py_index (length table) (NodeMapping.phase_post nm) = Some q /\
                table' = put q key e table
  else table' = table.

Lemma resolve_entry_inv (s sd c s' sd' c' : list (dict NodeMappingIndex.t))
    (key : string) (nm : NodeMapping.t) :
  NodeMappingList.resolve_entry (s, sd, c) (key, nm) = Ok (s', sd', c') ->
  published_entry NodeMapping.map_states key nm s s' /\
  published_entry NodeMapping.map_states key nm sd sd' /\
  published_entry NodeMapping.map_controls key nm c c'.
Proof.
  unfold NodeMappingList.resolve_entry, published_entry. intros H.
  apply bind_ok in H as ([s1 sd1] & H1 & H2).
  assert (Hc : if NodeMapping.map_controls nm
               then exists e q, NodeMappingList.node_mapping_index nm = Ok e /\
                      py_index (length c) (NodeMapping.phase_post nm) = Some q /\
                      c' = put q key e c
               else c' = c).
  { destruct (NodeMapping.map_controls nm).
    - apply bind_ok in H2 as (e & He & H2). apply bind_ok in H2 as (c1 & Hp & [= _ _ <-]).
      apply publish_put in Hp as (q & Hq & ->). eauto.
    - now inversion H2. }
  assert (Hs : s' = s1 /\ sd' = sd1).
  { destruct (NodeMapping.map_controls nm).
    - apply bind_ok in H2 as (e & He & H2). apply bind_ok in H2 as (c1 & Hp & [= <- <- _]).
      auto.
    - now inversion H2. }
  destruct Hs as [-> ->]. clear H2.
  destruct (NodeMapping.map_states nm).
  - apply bind_ok in H1 as (e & He & H1). apply bind_ok in H1 as (s2 & Hp & H1).
    apply bind_ok in H1 as (e2 & He2 & H1). apply bind_ok in H1 as (sd2 & Hp2 & [= <- <-]).
    rewrite He in He2. inversion He2; subst e2.
    apply publish_put in Hp as (q & Hq & ->), Hp2 as (q2 & Hq2 & ->).
    repeat split; eauto.
  - inversion H1; subst. auto.
Qed.

Lemma published_step (n : nat) (flag : NodeMapping.t -> bool)
    (done : list (string * NodeMapping.t)) (key : string) (nm : NodeMapping.t)
    (table table' : list (dict NodeMappingIndex.t)) :
  length table = n ->
  published_from n flag done table ->
  published_entry flag key nm table table' ->
  length table' = n /\ published_from n flag (done ++ [(key, nm)]) table'.
Proof.
  intros Hlen [Hsound Hcomplete] Hstep. unfold published_entry in Hstep.
  destruct (flag nm) eqn:Ef.
  - destruct Hstep as (e & q & He & Hq & ->). rewrite Hlen in Hq.
    apply py_index_lt in Hq as Hlt.
    split; [rewrite put_length; lia|]. split.
    + intros q0 k0 e0 Hcell.
      destruct (decide (q = q0 /\ key = k0)) as [[<- <-]|Hne].
      * rewrite cell_put_eq in Hcell. inversion Hcell; subst e0.
        apply node_mapping_index_inv in He as (index & vmi & Hi & Hv & ->).
        exists nm, index, vmi. repeat split; auto.
        apply elem_of_app. right. now apply list_elem_of_singleton.
      * rewrite cell_put_ne in Hcell by (destruct (decide (q = q0)); [right|left]; tauto).
        destruct (Hsound _ _ _ Hcell) as (nm0 & index & vmi & Hin & H).
        exists nm0, index, vmi. split; [|exact H]. apply elem_of_app. now left.
    + intros k0 nm0 Hin Hflag. apply elem_of_app in Hin as [Hin|Hin].
      * destruct (Hcomplete _ _ Hin Hflag) as (q0 & Hq0 & Hsome).
        exists q0. split; [exact Hq0|].
        destruct (decide (q = q0 /\ key = k0)) as [[<- <-]|Hne].
        -- rewrite cell_put_eq. eauto.
        -- rewrite cell_put_ne by (destruct (decide (q = q0)); [right|left]; tauto).
           exact Hsome.
      * apply list_elem_of_singleton in Hin. inversion Hin; subst k0 nm0.
        exists q. split; [exact Hq|]. rewrite cell_put_eq. eauto.
  - subst table'. split; [exact Hlen|]. split.
    + intros q0 k0 e0 Hcell.
      destruct (Hsound _ _ _ Hcell) as (nm0 & index & vmi & Hin & H).
      exists nm0, index, vmi. split; [|exact H]. apply elem_of_app. now left.
    + intros k0 nm0 Hin Hflag. apply elem_of_app in Hin as [Hin|Hin].
      * now apply Hcomplete.
      * apply list_elem_of_singleton in Hin. inversion Hin; subst k0 nm0. congruence.
Qed.

Lemma published_empty (n : nat) (flag : NodeMapping.t -> bool) :
  published_from n flag [] (replicate n []).
Proof.
  split.
  - intros q key e H. unfold cell, dict_at in H.
    destruct (replicate n [] !! q) as [d|] eqn:E; simpl in H; [|discriminate].
    apply lookup_replicate in E as [-> _]. discriminate.
  - intros key nm H. now apply elem_of_nil in H.
Qed.

Lemma resolved_entries (n : nat) (todo : list (string * NodeMapping.t)) :
  forall done s sd c s' sd' c',
    length s = n -> length c = n -> sd = s ->
    published_from n NodeMapping.map_states done s ->
    published_from n NodeMapping.map_controls done c ->
    foldM NodeMappingList.resolve_entry todo (s, sd, c) = Ok (s', sd', c') ->
    sd' = s' /\ length s' = n /\ length c' = n /\
    published_from n NodeMapping.map_states (done ++ todo) s' /\
    published_from n NodeMapping.map_controls (done ++ todo) c'.
Proof.
  induction todo as [|[key nm] todo IH]; intros done s sd c s' sd' c' Hs Hc Hsd Ps Pc H.
  - simpl in H. inversion H; subst. rewrite app_nil_r. auto.
  - simpl in H. apply bind_ok in H as ([[s1 sd1] c1] & H1 & H2).
    apply resolve_entry_inv in H1 as (Es & Esd & Ec). subst sd.
    destruct (published_step n _ done key nm s s1 Hs Ps Es) as [Hs1 Ps1].
    destruct (published_step n _ done key nm c c1 Hc Pc Ec) as [Hc1 Pc1].
    assert (sd1 = s1).
    { unfold published_entry in Es, Esd. destruct (NodeMapping.map_states nm).
      - destruct Es as (e & q & He & Hq & ->), Esd as (e' & q' & He' & Hq' & ->).
        congruence.
      - congruence. }
    rewrite (cons_middle (key, nm) done todo), app_assoc.
    apply (IH (done ++ [(key, nm)]) s1 sd1 c1 s' sd' c'); assumption.
Qed.

(** X8.  When [get_variable_from_phase_idx] returns, each of the three
    tables has one dictionary per phase and the table of the state
    derivatives is the table of the states.  Whatever the states table holds
    under a phase and a name comes from an entry of that name that maps
    states and whose [phase_post] is that phase: it is the
    [NodeMappingIndex] of the entry's [phase_pre], its [index], and the
    entries of its [to_second.map_idx] at these indices; and every entry
    that maps states has something under its [phase_post] and name.  The
    same holds of the controls table and the entries that map controls. *)
Theorem get_variable_from_phase_idx_tables (self : NodeMappingList.t) (n : nat)
    (states states_dot controls : list (dict NodeMappingIndex.t)) :
  NodeMappingList.get_variable_from_phase_idx self n = Ok (states, states_dot, controls) ->
  states_dot = states /\ length states = n /\ length controls = n /\
  published_from n NodeMapping.map_states (concat self) states /\
  published_from n NodeMapping.map_controls (concat self) controls.
Proof.
  unfold NodeMappingList.get_variable_from_phase_idx. rewrite foldM_concat. intros H.
  apply (resolved_entries n (concat self) [] (replicate n []) (replicate n [])
           (replicate n []) states states_dot controls);
    auto using length_replicate, published_empty.
Qed.

Lemma get_variable_from_phase_idx_tables_witness :
  let b := BiMapping.Build 0 true (Mapping.Build [Some 0; Some 1; Some 2] [1; 1; 1])
             (Mapping.Build [Some 0; Some 1; Some 2] [1; 1; 1]) in
  let self := [[("q", NodeMapping.Build 0 false true false 0 1 (Some [0; 2]) b)]] in
  let states :=
    [[]; [("q", NodeMappingIndex.Build 0 (Some [0; 2]) (Some [Some 0; Some 2]))]] in
  let controls : list (dict NodeMappingIndex.t) := [[]; []] in
  states = states /\ length states = 2%nat /\ length controls = 2%nat /\
  published_from 2 NodeMapping.map_states (concat self) states /\
  published_from 2 NodeMapping.map_controls (concat self) controls.
Proof.
  intros b self states controls.
  exact (get_variable_from_phase_idx_tables self 2 states states controls eq_refl).
Defined.

(** ** [define_ocp_bounds]: the layout of the bounds *)

Section Bounds.
Context {R : Type} (zero : R).

Import OptimizationVector.

(** Writing a block of [n] values over the [n] places that follow [pre]. *)
Lemma write_block (pre filler rest values : list R) :
  length filler = length values ->
  write_slice (pre ++ filler ++ rest) (length pre) (length pre + length values) values
  = Ok (pre ++ values ++ rest).
Proof.
  intros Hf. unfold write_slice. rewrite !length_app.
  replace (Nat.min (length pre) (length pre + (length filler + length rest)))
    with (length pre) by lia.
  replace (Nat.max (length pre)
             (Nat.min (length pre + length values)
                (length pre + (length filler + length rest))))
    with (length pre + length values)%nat by lia.
  replace (length pre + length values - length pre)%nat with (length values) by lia.
  rewrite Nat.eqb_refl.
  rewrite take_app_length.
  rewrite drop_app_ge by lia.
  replace (length pre + length values - length pre)%nat with (length filler) by lia.
  now rewrite drop_app_length.
Qed.

(** The shooting point whose bounds are written for point [p] of node [k]. *)
Definition shooting_point (k p : nat) : nat :=
  match k with
  | O => match p with O => O | _ => 1%nat end
  | _ => k
  end.

(** The points written for one node: [repeat] of them, one for the last
    node. *)
Definition points_per_node (ph : nlp R) : nat :=
  if is_direct_collocation (ode_solver ph)
  then (polynomial_degree (ode_solver ph) + 1)%nat else 1%nat.

Definition node_points (ph : nlp R) (k : nat) : list nat :=
  shooting_point k <$> seq 0 (if (k =? ns ph)%nat then 1 else points_per_node ph).

(** The shooting point behind each block of the state bounds, in order. *)
Definition state_points (ph : nlp R) : list nat :=
  concat (node_points ph <$> seq 0 (ns ph + 1)).

(** The bounds evaluated at the listed shooting points, one block after the
    other. *)
Definition blocks (pmin pmax : path R) (points : list nat) : bounds_value R :=
  Bounds (concat (evaluate_at pmin <$> points)) (concat (evaluate_at pmax <$> points)).

Lemma blocks_length (pc : path R) (n : nat) (points : list nat) :
  (forall pt, length (evaluate_at pc pt) = n) ->
  length (concat (evaluate_at pc <$> points)) = (length points * n)%nat.
Proof.
  intros H. induction points as [|pt points IH]; [reflexivity|].
  rewrite fmap_cons. cbn [concat]. rewrite length_app, H, IH. simpl. lia.
Qed.

Lemma replicate_mul_S (n m : nat) :
  replicate (n * S m) zero = replicate n zero ++ replicate (n * m) zero.
Proof. rewrite <- replicate_add. f_equal. lia. Qed.

(** The loop over the points of node [k]. *)
Lemma bound_points (pmin pmax : path R) (nx oo k : nat) (dmin dmax : list R) :
  (forall pt, length (evaluate_at pmin pt) = nx) ->
  (forall pt, length (evaluate_at pmax pt) = nx) ->
  length dmin = (k * oo)%nat -> length dmax = (k * oo)%nat ->
  forall r rest,
    foldM (bound_point pmin pmax nx oo k) (seq 0 r)
      (Bounds (dmin ++ replicate (nx * (r + rest)) zero)
              (dmax ++ replicate (nx * (r + rest)) zero))
    = Ok (Bounds
            (dmin ++ concat (evaluate_at pmin <$> (shooting_point k <$> seq 0 r))
                  ++ replicate (nx * rest) zero)
            (dmax ++ concat (evaluate_at pmax <$> (shooting_point k <$> seq 0 r))
                  ++ replicate (nx * rest) zero)).
Proof.
  intros Hmin Hmax Hdmin Hdmax.
  induction r as [|r IH]; intros rest.
  - reflexivity.
  - rewrite seq_S, foldM_app. change (0 + r)%nat with r.
    replace (S r + rest)%nat with (r + S rest)%nat by lia.
    rewrite (IH (S rest)). cbn [bind foldM].
    rewrite !fmap_app, !concat_app. cbn [fmap list_fmap concat].
    rewrite !app_nil_r.
    unfold bound_point. cbn [b_min b_max].
    set (vmin := evaluate_at pmin _). set (vmax := evaluate_at pmax _).
    set (cmin := concat (evaluate_at pmin <$> (shooting_point k <$> seq 0 r))).
    set (cmax := concat (evaluate_at pmax <$> (shooting_point k <$> seq 0 r))).
    assert (Hcmin : length cmin = (r * nx)%nat).
    { unfold cmin. rewrite (blocks_length pmin nx) by exact Hmin.
      now rewrite length_fmap, length_seq. }
    assert (Hcmax : length cmax = (r * nx)%nat).
    { unfold cmax. rewrite (blocks_length pmax nx) by exact Hmax.
      now rewrite length_fmap, length_seq. }
    rewrite replicate_mul_S.
    replace (k * oo + r * nx)%nat with (length (dmin ++ cmin))
      by (rewrite length_app; lia).
    replace (k * oo + (r + 1) * nx)%nat with (length (dmin ++ cmin) + length vmin)%nat
      by (rewrite length_app; unfold vmin; rewrite Hmin; lia).
    rewrite (app_assoc dmin cmin).
    rewrite write_block by (rewrite length_replicate; unfold vmin; now rewrite Hmin).
    cbn [bind].
    replace (length (dmin ++ cmin)) with (length (dmax ++ cmax))
      by (rewrite !length_app; lia).
    replace (length vmin) with (length vmax) by (unfold vmin, vmax; now rewrite Hmin, Hmax).
    rewrite (app_assoc dmax cmax).
    rewrite write_block by (rewrite length_replicate; unfold vmax; now rewrite Hmax).
    cbn [bind]. rewrite <- !app_assoc. reflexivity.
Qed.

Lemma node_points_length (ph : nlp R) (k : nat) :
  (k < ns ph)%nat -> length (node_points ph k) = points_per_node ph.
Proof.
  intros Hk. unfold node_points. rewrite length_fmap, length_seq.
  destruct (Nat.eqb_spec k (ns ph)); [lia|reflexivity].
Qed.

Lemma inner_points_length (ph : nlp R) (k : nat) :
  (k <= ns ph)%nat ->
  length (concat (node_points ph <$> seq 0 k)) = (k * points_per_node ph)%nat.
Proof.
  induction k as [|k IH]; intros Hk; [reflexivity|].
  rewrite seq_S, fmap_app, concat_app, length_app, IH by lia. simpl.
  rewrite app_nil_r, node_points_length by lia. lia.
Qed.

(** The state bounds of a phase ("For states"): when the user bounds
    give [nx] values at every shooting point, [define_ocp_bounds] builds,
    for [min] and for [max], the concatenation of the user bounds evaluated
    once per point, in node order and leaving no initial zero behind: in
    direct shooting one block per node [0 .. ns], at the shooting point of
    the node; in direct collocation [polynomial_degree + 1] blocks per
    node, all at the shooting point of the node except that the points
    after the first of node 0 take the bounds of shooting point 1, then one
    block for node [ns]. *)
Lemma state_bounds_blocks (ph : nlp R) (nx : nat) :
  (forall pt, length (evaluate_at (x_bounds_min ph) pt) = nx) ->
  (forall pt, length (evaluate_at (x_bounds_max ph) pt) = nx) ->
  state_bounds zero ph nx = Ok (blocks (x_bounds_min ph) (x_bounds_max ph) (state_points ph)).
Proof.
  intros Hmin Hmax. unfold state_bounds.
  set (rp := points_per_node ph).
  set (oo := if is_direct_collocation (ode_solver ph)
             then (nx * (polynomial_degree (ode_solver ph) + 1))%nat else nx).
  set (F := fun (b : bounds_value R) (k : nat) =>
              foldM (bound_point (x_bounds_min ph) (x_bounds_max ph) nx oo k)
                (seq 0 (if (k =? ns ph)%nat then 1
                        else if is_direct_collocation (ode_solver ph)
                             then (polynomial_degree (ode_solver ph) + 1)%nat else 1%nat)) b).
  assert (Hoo : oo = (rp * nx)%nat).
  { unfold oo, rp, points_per_node. destruct (is_direct_collocation (ode_solver ph)); lia. }
  assert (Hall : (if is_direct_collocation (ode_solver ph)
                  then (nx * ns ph * (polynomial_degree (ode_solver ph) + 1) + nx)%nat
                  else (nx * (ns ph + 1))%nat) = (nx * (ns ph * rp + 1))%nat).
  { unfold rp, points_per_node. destruct (is_direct_collocation (ode_solver ph)); lia. }
  rewrite Hall.
  assert (Hloop : forall k, (k <= ns ph)%nat ->
            foldM F (seq 0 k)
              (Bounds (replicate (nx * (ns ph * rp + 1)) zero)
                      (replicate (nx * (ns ph * rp + 1)) zero))
            = Ok (Bounds
                    (concat (evaluate_at (x_bounds_min ph)
                               <$> concat (node_points ph <$> seq 0 k))
                     ++ replicate (nx * ((ns ph - k) * rp + 1)) zero)
                    (concat (evaluate_at (x_bounds_max ph)
                               <$> concat (node_points ph <$> seq 0 k))
                     ++ replicate (nx * ((ns ph - k) * rp + 1)) zero))).
  { induction k as [|k IH]; intros Hk.
    - simpl. now rewrite Nat.sub_0_r.
    - rewrite seq_S, foldM_app, IH by lia. cbn [bind foldM Nat.add].
      unfold F at 1. destruct (Nat.eqb_spec k (ns ph)) as [->|_]; [lia|].
      fold rp.
      replace ((ns ph - k) * rp + 1)%nat with (rp + ((ns ph - S k) * rp + 1))%nat by nia.
      rewrite (bound_points (x_bounds_min ph) (x_bounds_max ph) nx oo k _ _ Hmin Hmax).
      + cbn [bind]. rewrite !fmap_app, !concat_app. cbn [fmap list_fmap concat].
        rewrite !app_nil_r, !fmap_app, !concat_app, <- !app_assoc.
        assert (Hnp : node_points ph k = shooting_point k <$> seq 0 rp).
        { unfold node_points. destruct (Nat.eqb_spec k (ns ph)); [lia|reflexivity]. }
        rewrite Hnp. reflexivity.
      + rewrite (blocks_length _ nx) by exact Hmin. rewrite inner_points_length by lia. nia.
      + rewrite (blocks_length _ nx) by exact Hmax. rewrite inner_points_length by lia. nia. }
  replace (ns ph + 1)%nat with (S (ns ph)) by lia.
  rewrite seq_S, foldM_app, Hloop by lia. cbn [bind foldM Nat.add].
  unfold F. rewrite Nat.eqb_refl.
  replace ((ns ph - ns ph) * rp + 1)%nat with (1 + 0)%nat by lia.
  rewrite (bound_points (x_bounds_min ph) (x_bounds_max ph) nx oo (ns ph) _ _ Hmin Hmax).
  - cbn [bind]. unfold blocks, state_points.
    assert (Hsp : concat (node_points ph <$> seq 0 (ns ph + 1))
                  = concat (node_points ph <$> seq 0 (ns ph))
                    ++ (shooting_point (ns ph) <$> seq 0 1)).
    { replace (ns ph + 1)%nat with (S (ns ph)) by lia.
      rewrite seq_S, fmap_app, concat_app. cbn [fmap list_fmap concat Nat.add].
      rewrite app_nil_r. unfold node_points at 2. now rewrite Nat.eqb_refl. }
    rewrite Hsp, !fmap_app, !concat_app, Nat.mul_0_r. cbn [replicate].
    rewrite !app_nil_r. reflexivity.
  - rewrite (blocks_length _ nx) by exact Hmin. rewrite inner_points_length by lia. nia.
  - rewrite (blocks_length _ nx) by exact Hmax. rewrite inner_points_length by lia. nia.
Qed.

(** The nodes that carry controls: one per interval when the controls are
    constant, one per node when they are linear. *)
Definition control_nodes (ph : nlp R) : nat :=
  if is_constant (control_type ph) then ns ph else (ns ph + 1)%nat.

Lemma control_blocks (pmin pmax : path R) (nu : nat) :
  (forall pt, length (evaluate_at pmin pt) = nu) ->
  (forall pt, length (evaluate_at pmax pt) = nu) ->
  forall r rest,
    foldM (fun b k =>
             let! lo := write_slice (b_min b) (k * nu) ((k + 1) * nu) (evaluate_at pmin k) in
             let! hi := write_slice (b_max b) (k * nu) ((k + 1) * nu) (evaluate_at pmax k) in
             Ok (Bounds lo hi))
      (seq 0 r)
      (Bounds (replicate (nu * (r + rest)) zero) (replicate (nu * (r + rest)) zero))
    = Ok (Bounds (concat (evaluate_at pmin <$> seq 0 r) ++ replicate (nu * rest) zero)
                 (concat (evaluate_at pmax <$> seq 0 r) ++ replicate (nu * rest) zero)).
Proof.
  intros Hmin Hmax. induction r as [|r IH]; intros rest.
  - reflexivity.
  - rewrite seq_S, foldM_app. change (0 + r)%nat with r.
    replace (S r + rest)%nat with (r + S rest)%nat by lia.
    rewrite (IH (S rest)). cbn [bind foldM b_min b_max].
    rewrite !fmap_app, !concat_app. cbn [fmap list_fmap concat].
    rewrite !app_nil_r.
    set (vmin := evaluate_at pmin r). set (vmax := evaluate_at pmax r).
    set (cmin := concat (evaluate_at pmin <$> seq 0 r)).
    set (cmax := concat (evaluate_at pmax <$> seq 0 r)).
    assert (Hcmin : length cmin = (r * nu)%nat).
    { unfold cmin. rewrite (blocks_length pmin nu) by exact Hmin. now rewrite length_seq. }
    assert (Hcmax : length cmax = (r * nu)%nat).
    { unfold cmax. rewrite (blocks_length pmax nu) by exact Hmax. now rewrite length_seq. }
    rewrite replicate_mul_S.
    replace (r * nu)%nat with (length cmin) by lia.
    replace ((r + 1) * nu)%nat with (length cmin + length vmin)%nat
      by (unfold vmin; rewrite Hmin; lia).
    rewrite write_block by (rewrite length_replicate; unfold vmin; now rewrite Hmin).
    cbn [bind].
    replace (length cmin) with (length cmax) by lia.
    replace (length vmin) with (length vmax) by (unfold vmin, vmax; now rewrite Hmin, Hmax).
    rewrite write_block by (rewrite length_replicate; unfold vmax; now rewrite Hmax).
    cbn [bind]. rewrite <- !app_assoc. reflexivity.
Qed.

Lemma control_bounds_blocks (ph : nlp R) (nu : nat) :
  control_type ph <> OTHER_CONTROL ->
  (forall pt, length (evaluate_at (u_bounds_min ph) pt) = nu) ->
  (forall pt, length (evaluate_at (u_bounds_max ph) pt) = nu) ->
  control_bounds zero ph nu
  = Ok (blocks (u_bounds_min ph) (u_bounds_max ph) (seq 0 (control_nodes ph))).
Proof.
  intros Hct Hmin Hmax. unfold control_bounds, control_nodes, blocks.
  assert (H : forall n,
            foldM (fun b k =>
                     let! lo := write_slice (b_min b) (k * nu) ((k + 1) * nu)
                                  (evaluate_at (u_bounds_min ph) k) in
                     let! hi := write_slice (b_max b) (k * nu) ((k + 1) * nu)
                                  (evaluate_at (u_bounds_max ph) k) in
                     Ok (Bounds lo hi))
              (seq 0 n) (Bounds (replicate (nu * n) zero) (replicate (nu * n) zero))
            = Ok (Bounds (concat (evaluate_at (u_bounds_min ph) <$> seq 0 n))
                         (concat (evaluate_at (u_bounds_max ph) <$> seq 0 n)))).
  { intros n. pose proof (control_blocks _ _ nu Hmin Hmax n 0) as Hc.
    rewrite Nat.add_0_r, Nat.mul_0_r in Hc. cbn [replicate] in Hc.
    rewrite !app_nil_r in Hc. exact Hc. }
  destruct (control_type ph); simpl; [apply H|apply H|congruence].
Qed.

(** What [define_ocp_bounds] needs of phase [i]: the sizes [nx[i]] and
    [nu[i]], user bounds of these sizes that give as many values at every
    shooting point, and constant or linear controls. *)
Definition bounded (nx nu : list nat) (i : nat) (ph : nlp R) : Prop :=
  exists n m,
    nx !! i = Some n /\ nu !! i = Some m /\
    path_rows (x_bounds_min ph) = n /\ path_rows (x_bounds_max ph) = n /\
    path_rows (u_bounds_min ph) = m /\ path_rows (u_bounds_max ph) = m /\
    control_type ph <> OTHER_CONTROL /\
    (forall pt, length (evaluate_at (x_bounds_min ph) pt) = n) /\
    (forall pt, length (evaluate_at (x_bounds_max ph) pt) = n) /\
    (forall pt, length (evaluate_at (u_bounds_min ph) pt) = m) /\
    (forall pt, length (evaluate_at (u_bounds_max ph) pt) = m).

Definition state_blocks (ph : nlp R) : bounds_value R :=
  blocks (x_bounds_min ph) (x_bounds_max ph) (state_points ph).

Definition control_blocks_of (ph : nlp R) : bounds_value R :=
  blocks (u_bounds_min ph) (u_bounds_max ph) (seq 0 (control_nodes ph)).

Lemma check_phases (nx nu : list nat) (l : list (nlp R)) :
  (forall i ph, l !! i = Some ph -> bounded nx nu i ph) ->
  foldM (fun _ iph => check_phase nx nu iph) (imap pair l) tt = Ok tt.
Proof.
  intros H. apply foldM_idle. intros [i ph] Hin.
  apply list_elem_of_lookup in Hin as [j Hj]. rewrite list_lookup_imap in Hj.
  destruct (l !! j) as [ph'|] eqn:E; [|discriminate]. simpl in Hj.
  inversion Hj; subst i ph'.
  destruct (H j ph E) as (n & m & Hn & Hm & H1 & H2 & H3 & H4 & Hct & _).
  unfold check_phase, check_and_adjust_dimensions.
  rewrite (py_get_nat _ _ _ Hn), (py_get_nat _ _ _ Hm). simpl.
  rewrite H1, H2, H3, H4, !Nat.eqb_refl. simpl.
  destruct (control_type ph); [reflexivity|reflexivity|congruence].
Qed.

Lemma insert_next {A} (done : list A) (rest : list A) (x : A) :
  (length done < length rest)%nat ->
  <[length done := x]> (done ++ drop (length done) rest)
  = (done ++ [x]) ++ drop (length (done ++ [x])) rest.
Proof.
  intros Hlt. destruct (lookup_lt_is_Some_2 rest (length done) Hlt) as [y Hy].
  rewrite (drop_S rest y (length done) Hy).
  rewrite insert_app_r_alt by lia. rewrite Nat.sub_diag. simpl.
  rewrite length_app. simpl. rewrite Nat.add_1_r, <- app_assoc. reflexivity.
Qed.

Lemma insert_next_fmap {A B} (f : A -> B) (l : list A) (rest : list B) (a : A) :
  (length l < length rest)%nat ->
  <[length l := f a]> ((f <$> l) ++ drop (length l) rest)
  = (f <$> (l ++ [a])) ++ drop (length (l ++ [a])) rest.
Proof.
  intros Hlt. pose proof (insert_next (f <$> l) rest (f a)) as H.
  rewrite length_app, !length_fmap in H. rewrite H by exact Hlt.
  rewrite fmap_app, length_app. reflexivity.
Qed.

Lemma bound_phases (nx nu : list nat) (self : t R) (l : list (nlp R)) :
  (length l <= length (x_bounds self))%nat ->
  (length l <= length (u_bounds self))%nat ->
  (forall i ph, l !! i = Some ph -> bounded nx nu i ph) ->
  foldM (bound_phase zero nx nu) (imap pair l) self
  = Ok (Build (parameters_in_list self) (x_scaled self)
              ((state_blocks <$> l) ++ drop (length l) (x_bounds self))
              (n_all_x self) (n_phase_x self) (u_scaled self)
              ((control_blocks_of <$> l) ++ drop (length l) (u_bounds self))
              (n_all_u self) (n_phase_u self) (symbols self)).
Proof.
  induction l as [|ph l IH] using rev_ind; intros Hx Hu Hb.
  - simpl. rewrite !drop_0. now destruct self.
  - rewrite length_app in Hx, Hu. simpl in Hx, Hu.
    rewrite imap_app, foldM_app, IH; try lia.
    2:{ intros i q Hi. apply Hb. now apply lookup_app_l_Some. }
    cbn [bind imap foldM]. rewrite Nat.add_0_r.
    destruct (Hb (length l) ph) as (n & m & Hn & Hm & _ & _ & _ & _ & Hct & E1 & E2 & E3 & E4).
    { now apply list_lookup_middle. }
    unfold bound_phase. cbn [x_bounds u_bounds parameters_in_list x_scaled n_all_x
                              n_phase_x u_scaled n_all_u n_phase_u symbols].
    rewrite (py_get_nat _ _ _ Hn), (py_get_nat _ _ _ Hm). cbn [bind].
    rewrite (state_bounds_blocks ph n E1 E2). cbn [bind].
    rewrite (control_bounds_blocks ph m Hct E3 E4).
    unfold py_set. rewrite !py_index_nat
      by (rewrite length_app, length_fmap, length_drop; lia).
    cbn [bind]. fold (state_blocks ph). fold (control_blocks_of ph).
    rewrite (insert_next_fmap state_blocks l (x_bounds self) ph) by lia.
    rewrite (insert_next_fmap control_blocks_of l (u_bounds self) ph) by lia.
    reflexivity.
Qed.

(** X9.  [define_ocp_bounds]: when every phase has constant or linear
    controls and user bounds of the sizes [nx], [nu] the problem announces,
    the call goes through and changes [x_bounds] and [u_bounds] only.  The
    state bounds of a phase are, for [min] and for [max], the user bounds
    evaluated once per point and laid end to end in node order, with no
    initial zero left: in direct shooting one block per node [0 .. ns] at
    the shooting point of the node; in direct collocation
    [polynomial_degree + 1] blocks per node, at the shooting point of the
    node except that the points after the first of node 0 take shooting
    point 1, then one block for node [ns].  The control bounds are one
    block per node that carries controls ([ns] of them when constant,
    [ns + 1] when linear). *)
Theorem define_ocp_bounds_blocks (self : t R) (ocp : list (nlp R)) (nx nu : list nat) :
  length (x_bounds self) = length ocp ->
  length (u_bounds self) = length ocp ->
  (forall i ph, ocp !! i = Some ph -> bounded nx nu i ph) ->
  define_ocp_bounds zero self ocp nx nu
  = Ok (Build (parameters_in_list self) (x_scaled self)
              (state_blocks <$> ocp) (n_all_x self) (n_phase_x self)
              (u_scaled self) (control_blocks_of <$> ocp)
              (n_all_u self) (n_phase_u self) (symbols self)).
Proof.
  intros Hx Hu Hb. unfold define_ocp_bounds.
  rewrite check_phases by exact Hb. cbn [bind].
  rewrite bound_phases by (try lia; exact Hb).
  rewrite !drop_ge, !app_nil_r by lia. reflexivity.
Qed.

End Bounds.

Lemma define_ocp_bounds_blocks_witness :
  let ph := Scenario.phase Scenario.collocation 2 1 1 [] in
  let self := OptimizationVector.init 1 0 in
  OptimizationVector.define_ocp_bounds 0 self [ph] [1%nat] [1%nat]
  = Ok (OptimizationVector.Build
          (OptimizationVector.parameters_in_list self) (OptimizationVector.x_scaled self)
          (state_blocks <$> [ph])
          (OptimizationVector.n_all_x self) (OptimizationVector.n_phase_x self)
          (OptimizationVector.u_scaled self) (control_blocks_of <$> [ph])
          (OptimizationVector.n_all_u self) (OptimizationVector.n_phase_u self)
          (OptimizationVector.symbols self)).
Proof.
  intros ph self.
  apply (define_ocp_bounds_blocks 0 self [ph] [1%nat] [1%nat]); try reflexivity.
  intros i q Hi. destruct i as [|i]; [|discriminate]. inversion Hi; subst q.
  exists 1%nat, 1%nat. repeat split; try reflexivity. discriminate.
Defined.

(** In that problem (direct collocation of degree 2, two intervals) the
    blocks of the state bounds are those of the shooting points 0, 1, 1,
    then 1, 1, 1, then 2. *)
Example state_points_collocation :
  state_points (Scenario.phase Scenario.collocation 2 1 1 []) = [0; 1; 1; 1; 1; 1; 2]%nat.
Proof. reflexivity. Qed.

(** ** [define_ocp_shooting_points] without node mapping *)

Section Plain.
Context {R : Type}.

Import OptimizationVector Casadi.

(** *** The index lists of a phase without node mapping *)

Lemma aggregate_plain (els : list element) :
  forall a,
    exists a', foldM (aggregate_step []) els a = Ok a' /\
               agg_use a' = agg_use a /\ agg_any a' = agg_any a /\
               length (agg_mapped a') = (length (agg_mapped a) + shape els)%nat.
Proof.
  induction els as [|el els IH]; intros a.
  - exists a. simpl. repeat split; auto; unfold shape; simpl; lia.
  - cbn [foldM]. unfold aggregate_step at 1. cbn [dict_get bind].
    match goal with |- context [foldM _ els ?x] => destruct (IH x) as (a' & Ha & Hu & Hn & Hl) end.
    exists a'. split; [exact Ha|]. simpl in Hu, Hn, Hl.
    repeat split; auto. rewrite Hl, length_app, length_fmap. unfold py_range, shape.
    rewrite length_fmap, length_seq. simpl.
    change (list_fmap element nat el_size els) with (el_size <$> els). lia.
Qed.

Lemma aggregate_elements_plain (p : nat) (els : list element) :
  exists a, aggregate_elements [] p els = Ok a /\
            agg_use a = Z.of_nat p /\ agg_any a = false /\
            length (agg_mapped a) = shape els.
Proof.
  destruct (aggregate_plain els (Agg [] [] 0 (Z.of_nat p) false)) as (a & Ha & Hu & Hn & Hl).
  exists a. repeat split; auto.
Qed.

(** *** The symbols of one node *)

(** The label of the state symbol of row [liberty] at node [k]. *)
Definition state_label (ph : nlp R) (p k liberty : nat) : sym_name :=
  NodeName (if collocated ph k then "X_scaled" else "X_scaled_") p k liberty.

(** The state symbols of node [k], created from rank [next] on. *)
Definition state_syms (ph : nlp R) (p k next n : nat) : list sym :=
  (fun liberty => Sym (next + liberty) (state_label ph p k liberty) 1 (width ph k))
    <$> seq 0 n.

Definition control_syms (p k next m : nat) : list sym :=
  (fun liberty => Sym (next + liberty) (NodeName "U_scaled" p k liberty) 1 1) <$> seq 0 m.

Lemma take_snoc {A} (l : list A) (n : nat) (x : A) :
  l !! n = Some x -> take (S n) l = take n l ++ [x].
Proof. intros H. now apply take_S_r. Qed.

Lemma zip_with_snoc {A B C} (f : A -> B -> C) (l : list A) (k : list B) (a : A) (b : B) :
  length l = length k ->
  zip_with f (l ++ [a]) (k ++ [b]) = zip_with f l k ++ [f a b].
Proof. intros H. now rewrite zip_with_app. Qed.

Lemma py_get_snoc {A} (l : list A) (x : A) (n : nat) :
  length l = n -> py_get (l ++ [x]) (Z.of_nat n) = Ok x.
Proof. intros <-. apply py_get_last. Qed.

Lemma own_states (ph : nlp R) (p k next : nat) :
  forall n, (n <= length (x_scaling ph))%nat ->
    foldM (own_state ph p k) (seq 0 n) (Node [] [] next 0)
    = Ok (Node (state_syms ph p k next n)
               (zip_with Scaled (state_syms ph p k next n) (take n (x_scaling ph)))
               (next + n) 0).
Proof.
  induction n as [|n IH]; intros Hn.
  - simpl. now rewrite Nat.add_0_r.
  - rewrite seq_S, foldM_app, IH by lia. cbn [bind foldM Nat.add].
    destruct (lookup_lt_is_Some_2 (x_scaling ph) n ltac:(lia)) as [f Hf].
    assert (Hlen : length (state_syms ph p k next n) = n).
    { unfold state_syms. now rewrite length_fmap, length_seq. }
    assert (Hstep : forall label w,
              allocate (Node (state_syms ph p k next n)
                             (zip_with Scaled (state_syms ph p k next n) (take n (x_scaling ph)))
                             (next + n) 0)
                       label w n (x_scaling ph) n 0
              = Ok (Node (state_syms ph p k next n ++ [Sym (next + n) label 1 w])
                         (zip_with Scaled (state_syms ph p k next n) (take n (x_scaling ph))
                          ++ [Scaled (Sym (next + n) label 1 w) f])
                         (S (next + n)) 0)).
    { intros label w. unfold allocate. cbn [scaled unscaled next_sym].
      rewrite (py_get_snoc _ _ _ Hlen). cbn [bind].
      rewrite (py_get_nat _ _ _ Hf). reflexivity. }
    unfold own_state. cbn [new_variable_count].
    assert (Hsyms : state_syms ph p k next (S n)
                    = state_syms ph p k next n
                      ++ [Sym (next + n) (state_label ph p k n) 1 (width ph k)]).
    { unfold state_syms. now rewrite seq_S, fmap_app. }
    rewrite Hsyms, (take_snoc _ _ _ Hf).
    rewrite zip_with_snoc by (rewrite Hlen, length_take; lia).
    replace (next + S n)%nat with (S (next + n)) by lia.
    unfold state_label, width.
    destruct (collocated ph k); rewrite Hstep; reflexivity.
Qed.

Lemma own_controls (ph : nlp R) (p k next : nat) :
  has_control ph k = true ->
  forall m, (m <= length (u_scaling ph))%nat ->
    foldM (own_control ph p k) (seq 0 m) (Node [] [] next 0)
    = Ok (Node (control_syms p k next m)
               (zip_with Scaled (control_syms p k next m) (take m (u_scaling ph)))
               (next + m) 0).
Proof.
  intros Hc. induction m as [|m IH]; intros Hm.
  - simpl. now rewrite Nat.add_0_r.
  - rewrite seq_S, foldM_app, IH by lia. cbn [bind foldM Nat.add].
    destruct (lookup_lt_is_Some_2 (u_scaling ph) m ltac:(lia)) as [f Hf].
    assert (Hlen : length (control_syms p k next m) = m).
    { unfold control_syms. now rewrite length_fmap, length_seq. }
    unfold own_control. rewrite Hc. unfold allocate. cbn [scaled unscaled next_sym
                                                            new_variable_count].
    rewrite (py_get_snoc _ _ _ Hlen). cbn [bind].
    rewrite (py_get_nat _ _ _ Hf). cbn [bind].
    assert (Hsyms : control_syms p k next (S m)
                    = control_syms p k next m
                      ++ [Sym (next + m) (NodeName "U_scaled" p k m) 1 1]).
    { unfold control_syms. now rewrite seq_S, fmap_app. }
    rewrite Hsyms, (take_snoc _ _ _ Hf).
    rewrite zip_with_snoc by (rewrite Hlen, length_take; lia).
    replace (next + S m)%nat with (S (next + m)) by lia. reflexivity.
Qed.

(** *** The nodes of a phase that owns its states and controls *)

Lemma has_control_nodes (ph : nlp R) (k : nat) :
  (k <= ns ph)%nat -> has_control ph k = bool_decide (k < control_nodes ph)%nat.
Proof.
  intros Hk. unfold has_control, control_nodes.
  destruct (is_constant (control_type ph)); simpl.
  - destruct (Nat.eqb_spec k (ns ph)); simpl.
    + rewrite bool_decide_eq_false_2; [reflexivity|lia].
    + rewrite bool_decide_eq_true_2; [reflexivity|lia].
  - rewrite bool_decide_eq_true_2; [reflexivity|lia].
Qed.

(** The rank of the first symbol of node [k], for a phase that starts at
    rank [c]: every node before it took one symbol per state and, where it
    carries controls, one per control. *)
Definition plain_start (ph : nlp R) (c k : nat) : nat :=
  (c + k * shape (states ph) + Nat.min k (control_nodes ph) * shape (controls ph))%nat.

Definition plain_x_scaled (ph : nlp R) (p c k : nat) : list sym :=
  state_syms ph p k (plain_start ph c k) (shape (states ph)).

Definition plain_u_scaled (ph : nlp R) (p c k : nat) : list sym :=
  if has_control ph k
  then control_syms p k (plain_start ph c k + shape (states ph)) (shape (controls ph))
  else [].

Definition plain_x (ph : nlp R) (p c k : nat) : list (expr R) :=
  zip_with Scaled (plain_x_scaled ph p c k) (take (shape (states ph)) (x_scaling ph)).

Definition plain_u (ph : nlp R) (p c k : nat) : list (expr R) :=
  zip_with Scaled (plain_u_scaled ph p c k) (take (shape (controls ph)) (u_scaling ph)).

(** The first [j] nodes of the phase. *)
Definition plain_nodes (ph : nlp R) (p c j : nat) : nodes R :=
  Nodes (plain_x ph p c <$> seq 0 j) (plain_x_scaled ph p c <$> seq 0 j)
        (plain_u ph p c <$> seq 0 j) (plain_u_scaled ph p c <$> seq 0 j)
        (plain_start ph c j).

Lemma state_node_plain (ph : nlp R) (p : nat) (sa : aggregate) (tb : tables R)
    (next k : nat) :
  agg_use sa = Z.of_nat p ->
  (shape (states ph) <= length (x_scaling ph))%nat ->
  state_node ph p sa tb next k
  = Ok (Node (state_syms ph p k next (shape (states ph)))
             (zip_with Scaled (state_syms ph p k next (shape (states ph)))
                (take (shape (states ph)) (x_scaling ph)))
             (next + shape (states ph)) 0).
Proof.
  intros Hu Hs. unfold state_node. rewrite Hu, Z.eqb_refl. now apply own_states.
Qed.

Lemma control_node_plain (ph : nlp R) (p : nat) (ca : aggregate) (tb : tables R)
    (next k : nat) :
  agg_use ca = Z.of_nat p ->
  (shape (controls ph) <= length (u_scaling ph))%nat ->
  control_node ph p ca tb next k
  = Ok (if has_control ph k
        then Node (control_syms p k next (shape (controls ph)))
                  (zip_with Scaled (control_syms p k next (shape (controls ph)))
                     (take (shape (controls ph)) (u_scaling ph)))
                  (next + shape (controls ph)) 0
        else Node [] [] next 0).
Proof.
  intros Hu Hs. unfold control_node. rewrite Hu, Z.eqb_refl.
  destruct (has_control ph k) eqn:Hc.
  - now apply own_controls.
  - apply foldM_idle. intros l _. unfold own_control. now rewrite Hc.
Qed.

Lemma declare_nodes_plain (ph : nlp R) (p : nat) (sa ca : aggregate) (tb : tables R)
    (c : nat) :
  agg_use sa = Z.of_nat p -> agg_use ca = Z.of_nat p ->
  (shape (states ph) <= length (x_scaling ph))%nat ->
  (shape (controls ph) <= length (u_scaling ph))%nat ->
  forall j, (j <= ns ph + 1)%nat ->
    foldM (declare_node ph p sa ca tb) (seq 0 j) (Nodes [] [] [] [] c)
    = Ok (plain_nodes ph p c j).
Proof.
  intros Hsa Hca Hx Hu. induction j as [|j IH]; intros Hj.
  - unfold plain_nodes, plain_start. simpl. do 2 f_equal. lia.
  - rewrite seq_S, foldM_app, IH by lia. cbn [bind foldM Nat.add].
    unfold declare_node. cbn [plain_nodes n_next n_x n_x_scaled n_u n_u_scaled].
    rewrite (state_node_plain ph p sa tb _ j Hsa Hx). cbn [bind next_sym].
    rewrite (control_node_plain ph p ca tb _ j Hca Hu). cbn [bind].
    unfold plain_nodes. rewrite !seq_S, !fmap_app. cbn [fmap list_fmap Nat.add].
    assert (Hnext : plain_start ph c (S j)
                    = (plain_start ph c j + shape (states ph)
                       + if has_control ph j then shape (controls ph) else 0)%nat).
    { rewrite has_control_nodes by lia. unfold plain_start.
      destruct (decide (j < control_nodes ph)%nat).
      - rewrite bool_decide_eq_true_2 by assumption.
        replace (Nat.min (S j) (control_nodes ph)) with (S (Nat.min j (control_nodes ph)))
          by lia. lia.
      - rewrite bool_decide_eq_false_2 by assumption.
        replace (Nat.min (S j) (control_nodes ph)) with (Nat.min j (control_nodes ph))
          by lia. lia. }
    rewrite Hnext. unfold plain_x, plain_u, plain_x_scaled, plain_u_scaled.
    destruct (has_control ph j); cbn [scaled unscaled next_sym].
    + reflexivity.
    + rewrite Nat.add_0_r. reflexivity.
Qed.

(** *** The matrix of a phase *)

(** The columns a node contributes to the matrix of its phase: as many as
    its symbols are wide, each holding one element per symbol. *)
Definition node_columns (node : list sym) : list (list entry) :=
  match node with
  | [] => []
  | s :: _ => (fun c => (fun s' => Entry s' 0 c) <$> node) <$> seq 0 (sym_cols s)
  end.

(** A node of [r] symbols of one width, or of none. *)
Definition row_block (r : nat) (node : list sym) : Prop :=
  node = [] \/
  (length node = r /\ exists w, (1 <= w)%nat /\ Forall (fun s => sym_cols s = w) node).

Lemma vertcat_block (r : nat) (node : list sym) :
  (0 < r)%nat -> length node = r ->
  (exists w, (1 <= w)%nat /\ Forall (fun s => sym_cols s = w) node) ->
  vertcat node = Ok (Mx r (node_columns node)) /\
  is_empty (Mx r (node_columns node)) = false.
Proof.
  intros Hr Hl (w & Hw & Hall). destruct node as [|s node]; [simpl in Hl; lia|].
  unfold vertcat, node_columns.
  assert (Hs : sym_cols s = w) by (now inversion Hall).
  assert (Hf : forallb (fun s' => (sym_cols s' =? sym_cols s)%nat) (s :: node) = true).
  { apply List.forallb_forall. intros s' Hin.
    rewrite List.Forall_forall in Hall. rewrite (Hall s' Hin), Hs. apply Nat.eqb_refl. }
  rewrite Hf, Hl. split; [reflexivity|].
  unfold is_empty. cbn [nrows columns]. rewrite length_fmap, length_seq, Hs.
  destruct r; [lia|]. destruct w; [lia|]. reflexivity.
Qed.

Lemma concatenate_blocks (r : nat) (l : list (list sym)) :
  (0 < r)%nat -> Forall (row_block r) l ->
  forall cols, is_empty (Mx r cols) = false ->
    concatenate_nodes (Mx r cols) l = Ok (Mx r (cols ++ concat (node_columns <$> l))).
Proof.
  intros Hr. induction l as [|node l IH]; intros Hl cols Hc.
  - simpl. now rewrite app_nil_r.
  - inversion Hl as [|? ? Hnode Hl']; subst. cbn [concatenate_nodes].
    destruct Hnode as [->|[Hlen Hw]].
    + cbn [vertcat bind]. unfold horzcat. cbn [is_empty nrows columns length Nat.eqb orb].
      cbn [bind fmap list_fmap concat node_columns app]. now apply IH.
    + destruct (vertcat_block r node Hr Hlen Hw) as [-> He]. cbn [bind].
      unfold horzcat. rewrite He, Hc. cbn [nrows columns]. rewrite Nat.eqb_refl.
      cbn [bind fmap list_fmap concat]. rewrite app_assoc. apply IH; [exact Hl'|].
      unfold is_empty in *. cbn [nrows columns] in *. rewrite length_app.
      apply orb_false_iff in Hc as [H1 H2]. rewrite H1. simpl.
      apply Nat.eqb_neq. apply Nat.eqb_neq in H2. lia.
Qed.

Lemma scaled_all_blocks (r : nat) (node : list sym) (l : list (list sym)) :
  (0 < r)%nat -> length node = r ->
  (exists w, (1 <= w)%nat /\ Forall (fun s => sym_cols s = w) node) ->
  Forall (row_block r) l ->
  scaled_all (node :: l) = Ok (Mx r (concat (node_columns <$> node :: l))).
Proof.
  intros Hr Hlen Hw Hl. unfold scaled_all.
  destruct (vertcat_block r node Hr Hlen Hw) as [-> He]. cbn [bind].
  now apply concatenate_blocks.
Qed.

Lemma concatenate_empty (l : list (list sym)) (acc : matrix) :
  Forall (fun node => node = []) l -> concatenate_nodes acc l = Ok acc.
Proof.
  revert acc. induction l as [|node l IH]; intros acc Hl; [reflexivity|].
  inversion Hl; subst. cbn [concatenate_nodes vertcat bind].
  unfold horzcat. cbn [is_empty nrows columns length Nat.eqb orb bind]. now apply IH.
Qed.

Lemma scaled_all_empty (l : list (list sym)) :
  Forall (fun node => node = []) l -> scaled_all ([] :: l) = Ok (Mx 0 [[]]).
Proof. intros Hl. unfold scaled_all. cbn [vertcat bind]. now apply concatenate_empty. Qed.

Lemma state_syms_block (ph : nlp R) (p k next n : nat) :
  length (state_syms ph p k next n) = n /\
  exists w, (1 <= w)%nat /\ Forall (fun s => sym_cols s = w) (state_syms ph p k next n).
Proof.
  unfold state_syms. rewrite length_fmap, length_seq. split; [reflexivity|].
  exists (width ph k). split.
  - unfold width. destruct (collocated ph k); lia.
  - apply Forall_fmap, Forall_forall. intros x _. reflexivity.
Qed.

Lemma control_syms_block (p k next m : nat) :
  length (control_syms p k next m) = m /\
  exists w, (1 <= w)%nat /\ Forall (fun s => sym_cols s = w) (control_syms p k next m).
Proof.
  unfold control_syms. rewrite length_fmap, length_seq. split; [reflexivity|].
  exists 1%nat. split; [lia|].
  apply Forall_fmap, Forall_forall. intros x _. reflexivity.
Qed.

(** The matrix of the states of a phase: a row per state, the columns of
    the nodes side by side. *)
Definition plain_x_matrix (ph : nlp R) (p c : nat) : matrix :=
  if (shape (states ph) =? 0)%nat then Mx 0 [[]]
  else Mx (shape (states ph))
          (concat (node_columns <$> (plain_x_scaled ph p c <$> seq 0 (ns ph + 1)))).

(** The matrix of the controls: empty when no node carries a control. *)
Definition plain_u_matrix (ph : nlp R) (p c : nat) : matrix :=
  if (shape (controls ph) =? 0)%nat || negb (has_control ph 0) then Mx 0 [[]]
  else Mx (shape (controls ph))
          (concat (node_columns <$> (plain_u_scaled ph p c <$> seq 0 (ns ph + 1)))).

Lemma plain_x_scaled_all (ph : nlp R) (p c : nat) :
  scaled_all (plain_x_scaled ph p c <$> seq 0 (ns ph + 1)) = Ok (plain_x_matrix ph p c).
Proof.
  unfold plain_x_matrix.
  replace (ns ph + 1)%nat with (S (ns ph)) by lia. cbn [seq fmap list_fmap].
  destruct (Nat.eqb_spec (shape (states ph)) 0) as [Hz|Hnz].
  - unfold plain_x_scaled at 1. rewrite Hz. unfold state_syms at 1. cbn [seq fmap list_fmap].
    apply scaled_all_empty. apply Forall_fmap, Forall_forall. intros k _.
    unfold plain_x_scaled. now rewrite Hz.
  - apply (scaled_all_blocks (shape (states ph))); try lia; try apply state_syms_block.
    apply Forall_fmap, Forall_forall. intros k _. right. apply state_syms_block.
Qed.

Lemma plain_u_block (ph : nlp R) (p c k : nat) :
  row_block (shape (controls ph)) (plain_u_scaled ph p c k).
Proof.
  unfold plain_u_scaled. destruct (has_control ph k); [right|now left].
  apply control_syms_block.
Qed.

Lemma no_control_at_start (ph : nlp R) :
  has_control ph 0 = false -> ns ph = 0%nat /\ control_nodes ph = 0%nat.
Proof.
  unfold has_control, control_nodes.
  destruct (is_constant (control_type ph)); cbn [negb orb andb]; [|discriminate].
  destruct (Nat.eqb_spec 0 (ns ph)); cbn [negb]; [lia|discriminate].
Qed.

Lemma plain_u_scaled_all (ph : nlp R) (p c : nat) :
  scaled_all (plain_u_scaled ph p c <$> seq 0 (ns ph + 1)) = Ok (plain_u_matrix ph p c).
Proof.
  unfold plain_u_matrix.
  replace (ns ph + 1)%nat with (S (ns ph)) by lia. cbn [seq fmap list_fmap].
  destruct (Nat.eqb_spec (shape (controls ph)) 0) as [Hz|Hnz]; cbn [orb].
  - assert (Hnil : forall k, plain_u_scaled ph p c k = []).
    { intros k. unfold plain_u_scaled. rewrite Hz. now destruct (has_control ph k). }
    rewrite Hnil. apply scaled_all_empty. apply Forall_fmap, Forall_forall. intros k _.
    apply Hnil.
  - destruct (has_control ph 0) eqn:Hc; cbn [negb].
    + apply (scaled_all_blocks (shape (controls ph))); try lia.
      * unfold plain_u_scaled. rewrite Hc. apply control_syms_block.
      * unfold plain_u_scaled. rewrite Hc. apply control_syms_block.
      * apply Forall_fmap, Forall_forall. intros k _. apply plain_u_block.
    + destruct (no_control_at_start ph Hc) as [Hns _].
      rewrite Hns. cbn [seq fmap list_fmap]. unfold plain_u_scaled. rewrite Hc. reflexivity.
Qed.

Lemma plain_x_count (ph : nlp R) (p c : nat) (mapped : list (option Z)) :
  length mapped = shape (states ph) ->
  n_phase (shape0 (plain_x_matrix ph p c)) mapped (ns ph + 1)
  = Z.of_nat (shape (states ph) * (ns ph + 1)).
Proof.
  intros Hl. unfold n_phase, plain_x_matrix.
  destruct (Nat.eqb_spec (shape (states ph)) 0) as [Hz|Hnz]; cbn [shape0 nrows];
    rewrite Hl.
  - rewrite Hz. simpl. lia.
  - rewrite Nat.eqb_refl. lia.
Qed.

Lemma plain_u_count (ph : nlp R) (p c : nat) (mapped : list (option Z)) :
  length mapped = shape (controls ph) ->
  n_phase (shape0 (plain_u_matrix ph p c)) mapped (control_nodes ph)
  = Z.of_nat (shape (controls ph) * control_nodes ph).
Proof.
  intros Hl. unfold n_phase, plain_u_matrix.
  destruct (Nat.eqb_spec (shape (controls ph)) 0) as [Hz|Hnz]; cbn [orb shape0 nrows].
  - rewrite Hl, Hz. simpl. lia.
  - destruct (has_control ph 0) eqn:Hc; cbn [negb shape0 nrows]; rewrite Hl.
    + rewrite Nat.eqb_refl. lia.
    + destruct (no_control_at_start ph Hc) as [_ Hcn].
      rewrite Hcn. destruct (shape (controls ph) =? 0)%nat; lia.
Qed.

(** *** One phase, then all of them *)

(** A phase without node mapping, as [define_ocp_shooting_points] can
    declare it: constant or linear controls, and a scaling factor for every
    state and every control. *)
Definition plain (ph : nlp R) : Prop :=
  states_phase_mapping_idx ph = [] /\ controls_phase_mapping_idx ph = [] /\
  control_type ph <> OTHER_CONTROL /\
  (shape (states ph) <= length (x_scaling ph))%nat /\
  (shape (controls ph) <= length (u_scaling ph))%nat.

(** The symbols the phase creates. *)
Definition plain_cost (ph : nlp R) : nat :=
  (shape (states ph) * (ns ph + 1) + shape (controls ph) * control_nodes ph)%nat.

(** The record of the phase of index [p] after its declaration from rank
    [c] on. *)
Definition plain_phase (ph : nlp R) (p c : nat) : nlp R :=
  Nlp (ns ph) (control_type ph) (ode_solver ph) (states ph) (controls ph)
      (states_phase_mapping_idx ph) (controls_phase_mapping_idx ph)
      (x_scaling ph) (u_scaling ph)
      (x_bounds_min ph) (x_bounds_max ph) (u_bounds_min ph) (u_bounds_max ph)
      (Z.of_nat p) (Z.of_nat p)
      (plain_x ph p c <$> seq 0 (ns ph + 1)) (plain_x_scaled ph p c <$> seq 0 (ns ph + 1))
      (plain_u ph p c <$> seq 0 (ns ph + 1)) (plain_u_scaled ph p c <$> seq 0 (ns ph + 1)).

(** The state of the loop after the phase. *)
Definition plain_step (st : declaration R) (ph : nlp R) : declaration R :=
  let self := d_self st in
  let p := length (d_nlp st) in
  let c := symbols self in
  let q := plain_phase ph p c in
  Declaration
    (Build (parameters_in_list self)
           (<[p := plain_x_matrix ph p c]> (x_scaled self)) (x_bounds self) (n_all_x self)
           (<[p := Z.of_nat (shape (states ph) * (ns ph + 1))]> (n_phase_x self))
           (<[p := plain_u_matrix ph p c]> (u_scaled self)) (u_bounds self) (n_all_u self)
           (<[p := Z.of_nat (shape (controls ph) * control_nodes ph)]> (n_phase_u self))
           (c + plain_cost ph))
    (d_nlp st ++ [q])
    (Tables (t_x (d_tables st) ++ [X q]) (t_x_scaled (d_tables st) ++ [X_scaled q])
            (t_u (d_tables st) ++ [U q]) (t_u_scaled (d_tables st) ++ [U_scaled q])).

(** The lists of the vector have a place for the phases still to come. *)
Definition roomy (st : declaration R) (more : nat) : Prop :=
  (length (d_nlp st) + more <= length (x_scaled (d_self st)))%nat /\
  (length (d_nlp st) + more <= length (n_phase_x (d_self st)))%nat /\
  (length (d_nlp st) + more <= length (u_scaled (d_self st)))%nat /\
  (length (d_nlp st) + more <= length (n_phase_u (d_self st)))%nat.

Lemma plain_start_end (ph : nlp R) (c : nat) :
  plain_start ph c (ns ph + 1) = (c + plain_cost ph)%nat.
Proof.
  unfold plain_start, plain_cost.
  replace (Nat.min (ns ph + 1) (control_nodes ph)) with (control_nodes ph); [lia|].
  unfold control_nodes. destruct (is_constant (control_type ph)); lia.
Qed.

Lemma declare_phase_plain (st : declaration R) (ph : nlp R) :
  plain ph -> roomy st 1 -> declare_phase st ph = Ok (plain_step st ph).
Proof.
  intros (Hs & Hc & Hct & Hx & Hu) (L1 & L2 & L3 & L4).
  unfold declare_phase. rewrite Hs, Hc.
  destruct (aggregate_elements_plain (length (d_nlp st)) (states ph))
    as (sa & -> & Hsu & Hsn & Hsl).
  destruct (aggregate_elements_plain (length (d_nlp st)) (controls ph))
    as (ca & -> & Hcu & Hcn & Hcl).
  cbn [bind].
  assert (Hsup : negb (is_constant (control_type ph))
                 && negb (is_linear_continuous (control_type ph)) = false).
  { destruct (control_type ph); try reflexivity. congruence. }
  rewrite Hsup. unfold declare_nodes.
  rewrite (declare_nodes_plain ph _ sa ca _ _ Hsu Hcu Hx Hu (ns ph + 1)) by lia.
  cbn [bind plain_nodes n_x n_x_scaled n_u n_u_scaled n_next].
  rewrite plain_x_scaled_all, plain_u_scaled_all. cbn [bind].
  unfold py_set. rewrite !py_index_nat by lia. cbn [bind].
  rewrite plain_x_count by exact Hsl.
  replace (if is_constant (control_type ph) then ns ph else (ns ph + 1)%nat)
    with (control_nodes ph) by reflexivity.
  rewrite plain_u_count by exact Hcl.
  unfold with_all. rewrite Hsn, Hcn, Hsu, Hcu, plain_start_end.
  unfold plain_step, plain_phase. rewrite Hs, Hc. reflexivity.
Qed.

Lemma roomy_step (st : declaration R) (ph : nlp R) (more : nat) :
  roomy st (S more) -> roomy (plain_step st ph) more.
Proof.
  unfold roomy, plain_step. cbn [d_self d_nlp x_scaled n_phase_x u_scaled n_phase_u].
  rewrite length_app, !length_insert. simpl. lia.
Qed.

Lemma declare_phases_plain (ocp : list (nlp R)) :
  Forall plain ocp ->
  forall st, roomy st (length ocp) ->
    foldM declare_phase ocp st = Ok (fold_left plain_step ocp st).
Proof.
  induction ocp as [|ph ocp IH]; intros Hp st Hr; [reflexivity|].
  inversion Hp; subst. cbn [foldM fold_left].
  rewrite declare_phase_plain; auto.
  - cbn [bind]. apply IH; auto. now apply roomy_step.
  - unfold roomy in *. simpl in Hr. lia.
Qed.

(** The rank at which phase [p] starts: the symbols that exist before the
    call, and those of the phases before [p]. *)
Definition plain_rank (c : nat) (ocp : list (nlp R)) (p : nat) : nat :=
  (c + sum_list (plain_cost <$> take p ocp))%nat.

Definition count_x (ph : nlp R) : Z := Z.of_nat (shape (states ph) * (ns ph + 1)).
Definition count_u (ph : nlp R) : Z := Z.of_nat (shape (controls ph) * control_nodes ph).

Lemma plain_steps (ocp : list (nlp R)) :
  forall st, roomy st (length ocp) ->
    let r := fold_left plain_step ocp st in
    let p0 := length (d_nlp st) in
    symbols (d_self r) = (symbols (d_self st) + sum_list (plain_cost <$> ocp))%nat /\
    parameters_in_list (d_self r) = parameters_in_list (d_self st) /\
    x_bounds (d_self r) = x_bounds (d_self st) /\
    u_bounds (d_self r) = u_bounds (d_self st) /\
    length (x_scaled (d_self r)) = length (x_scaled (d_self st)) /\
    length (n_phase_x (d_self r)) = length (n_phase_x (d_self st)) /\
    length (u_scaled (d_self r)) = length (u_scaled (d_self st)) /\
    length (n_phase_u (d_self r)) = length (n_phase_u (d_self st)) /\
    length (d_nlp r) = (p0 + length ocp)%nat /\
    (forall i, (i < p0)%nat ->
       d_nlp r !! i = d_nlp st !! i /\
       x_scaled (d_self r) !! i = x_scaled (d_self st) !! i /\
       n_phase_x (d_self r) !! i = n_phase_x (d_self st) !! i /\
       u_scaled (d_self r) !! i = u_scaled (d_self st) !! i /\
       n_phase_u (d_self r) !! i = n_phase_u (d_self st) !! i) /\
    (forall i ph, ocp !! i = Some ph ->
       let c := plain_rank (symbols (d_self st)) ocp i in
       d_nlp r !! (p0 + i)%nat = Some (plain_phase ph (p0 + i) c) /\
       x_scaled (d_self r) !! (p0 + i)%nat = Some (plain_x_matrix ph (p0 + i) c) /\
       n_phase_x (d_self r) !! (p0 + i)%nat = Some (count_x ph) /\
       u_scaled (d_self r) !! (p0 + i)%nat = Some (plain_u_matrix ph (p0 + i) c) /\
       n_phase_u (d_self r) !! (p0 + i)%nat = Some (count_u ph)).
Proof.
  induction ocp as [|ph ocp IH]; intros st Hr.
  - cbn [fold_left length]. rewrite Nat.add_0_r. cbn zeta.
    repeat (apply conj); auto; try lia. intros i q Hq. discriminate.
  - cbn [fold_left]. pose proof Hr as Hr0.
    apply roomy_step with (ph := ph) in Hr. specialize (IH _ Hr).
    cbn zeta in IH.
    destruct IH as (I1 & I2 & I3 & I4 & I5 & I6 & I7 & I8 & I9 & Iold & Inew).
    destruct Hr0 as (L1 & L2 & L3 & L4). simpl length in L1, L2, L3, L4.
    set (r := fold_left plain_step ocp (plain_step st ph)) in *.
    assert (Hp : length (d_nlp (plain_step st ph)) = S (length (d_nlp st))).
    { unfold plain_step. cbn [d_nlp]. rewrite length_app. simpl. lia. }
    rewrite Hp in *.
    unfold plain_step in I1, I2, I3, I4, I5, I6, I7, I8.
    cbn [d_self symbols parameters_in_list x_bounds u_bounds x_scaled n_phase_x
         u_scaled n_phase_u] in I1, I2, I3, I4, I5, I6, I7, I8.
    rewrite !length_insert in *.
    cbn zeta. repeat (apply conj); auto.
    + rewrite I1. rewrite fmap_cons. simpl. lia.
    + rewrite I9. simpl. lia.
    + intros i Hi. destruct (Iold i ltac:(lia)) as (E1 & E2 & E3 & E4 & E5).
      rewrite E1, E2, E3, E4, E5. unfold plain_step.
      cbn [d_self d_nlp x_scaled n_phase_x u_scaled n_phase_u].
      rewrite !list_lookup_insert_ne by lia. rewrite lookup_app_l by lia.
      repeat split.
    + intros i q Hq. destruct i as [|i].
      * inversion Hq; subst q. rewrite Nat.add_0_r.
        destruct (Iold (length (d_nlp st)) ltac:(lia)) as (E1 & E2 & E3 & E4 & E5).
        rewrite E1, E2, E3, E4, E5. unfold plain_step, plain_rank.
        cbn [d_self d_nlp x_scaled n_phase_x u_scaled n_phase_u take fmap list_fmap sum_list
             sum_list_with].
        rewrite Nat.add_0_r.
        rewrite !list_lookup_insert_eq by lia.
        rewrite list_lookup_middle by reflexivity. repeat split.
      * simpl in Hq. specialize (Inew i q Hq). cbn zeta in Inew.
        replace (length (d_nlp st) + S i)%nat with (S (length (d_nlp st)) + i)%nat by lia.
        replace (plain_rank (symbols (d_self st)) (ph :: ocp) (S i))
          with (plain_rank (symbols (d_self (plain_step st ph))) ocp i); [exact Inew|].
        unfold plain_rank, plain_step. cbn [d_self symbols take]. rewrite fmap_cons.
        simpl. lia.
Qed.

(** The declaration of a problem without node mapping: the records it
    leaves, and what it writes in the vector. *)
Lemma plain_declared (self : t R) (ocp : list (nlp R)) :
  Forall plain ocp ->
  length (x_scaled self) = length ocp -> length (n_phase_x self) = length ocp ->
  length (u_scaled self) = length ocp -> length (n_phase_u self) = length ocp ->
  exists self',
    define_ocp_shooting_points self ocp
    = Ok (self', imap (fun p ph => plain_phase ph p (plain_rank (symbols self) ocp p)) ocp) /\
    n_phase_x self' = count_x <$> ocp /\
    n_phase_u self' = count_u <$> ocp /\
    n_all_x self' = sum_Z (count_x <$> ocp) /\
    n_all_u self' = sum_Z (count_u <$> ocp) /\
    symbols self' = (symbols self + sum_list (plain_cost <$> ocp))%nat /\
    parameters_in_list self' = parameters_in_list self /\
    x_bounds self' = x_bounds self /\ u_bounds self' = u_bounds self /\
    forall p ph, ocp !! p = Some ph ->
      x_scaled self' !! p = Some (plain_x_matrix ph p (plain_rank (symbols self) ocp p)) /\
      u_scaled self' !! p = Some (plain_u_matrix ph p (plain_rank (symbols self) ocp p)).
Proof.
  intros Hp L1 L2 L3 L4. unfold define_ocp_shooting_points.
  set (st := Declaration self [] (Tables [] [] [] [])).
  assert (Hr : roomy st (length ocp)).
  { unfold roomy, st. cbn [d_self d_nlp length]. lia. }
  rewrite (declare_phases_plain ocp Hp st Hr). cbn [bind].
  destruct (plain_steps ocp st Hr) as (I1 & I2 & I3 & I4 & _ & I6 & _ & I8 & I9 & _ & Inew).
  set (r := fold_left plain_step ocp st) in *.
  cbn [st d_self d_nlp length Nat.add] in I1, I2, I3, I4, I6, I8, I9, Inew.
  assert (Hocp : d_nlp r
                 = imap (fun p ph => plain_phase ph p (plain_rank (symbols self) ocp p)) ocp).
  { apply list_eq. intros i. rewrite list_lookup_imap.
    destruct (ocp !! i) as [ph|] eqn:E; simpl.
    - now destruct (Inew i ph E) as (-> & _).
    - apply lookup_ge_None. apply lookup_ge_None in E. lia. }
  assert (Hx : n_phase_x (d_self r) = count_x <$> ocp).
  { apply list_eq. intros i. rewrite list_lookup_fmap.
    destruct (ocp !! i) as [ph|] eqn:E.
    - now destruct (Inew i ph E) as (_ & _ & -> & _).
    - apply lookup_ge_None. apply lookup_ge_None in E. lia. }
  assert (Hu : n_phase_u (d_self r) = count_u <$> ocp).
  { apply list_eq. intros i. rewrite list_lookup_fmap.
    destruct (ocp !! i) as [ph|] eqn:E.
    - now destruct (Inew i ph E) as (_ & _ & _ & _ & ->).
    - apply lookup_ge_None. apply lookup_ge_None in E. lia. }
  eexists. split; [rewrite Hocp; reflexivity|].
  cbn [n_phase_x n_phase_u n_all_x n_all_u symbols parameters_in_list x_scaled u_scaled
       x_bounds u_bounds].
  rewrite Hx, Hu. repeat (apply conj); auto.
  intros p ph H. destruct (Inew p ph H) as (_ & -> & _ & -> & _). split; reflexivity.
Qed.

(** X10.  A problem without node mapping: when every phase has constant or
    linear controls and a scaling factor for each of its states and
    controls, [define_ocp_shooting_points] goes through.  Each phase then
    takes its states and its controls from itself; [n_phase_x] is, phase by
    phase, the number of states times the number of nodes [ns + 1] (in
    direct collocation too, whatever the width of the symbols), and
    [n_phase_u] the number of controls times the number of nodes that carry
    controls ([ns] when constant, [ns + 1] when linear); [n_all_x] and
    [n_all_u] are their sums.  The symbols are created phase after phase
    and, within a phase, node after node, the states of a node before its
    controls, one per row and in row order. *)
Theorem define_ocp_shooting_points_plain (self : t R) (ocp : list (nlp R)) :
  Forall plain ocp ->
  length (x_scaled self) = length ocp -> length (n_phase_x self) = length ocp ->
  length (u_scaled self) = length ocp -> length (n_phase_u self) = length ocp ->
  exists self' ocp',
    define_ocp_shooting_points self ocp = Ok (self', ocp') /\
    n_phase_x self' = count_x <$> ocp /\
    n_phase_u self' = count_u <$> ocp /\
    n_all_x self' = sum_Z (count_x <$> ocp) /\
    n_all_u self' = sum_Z (count_u <$> ocp) /\
    symbols self' = (symbols self + sum_list (plain_cost <$> ocp))%nat /\
    parameters_in_list self' = parameters_in_list self /\
    length ocp' = length ocp /\
    forall p ph, ocp !! p = Some ph ->
      ocp' !! p = Some (plain_phase ph p (plain_rank (symbols self) ocp p)) /\
      x_scaled self' !! p = Some (plain_x_matrix ph p (plain_rank (symbols self) ocp p)) /\
      u_scaled self' !! p = Some (plain_u_matrix ph p (plain_rank (symbols self) ocp p)).
Proof.
  intros Hp L1 L2 L3 L4.
  destruct (plain_declared self ocp Hp L1 L2 L3 L4)
    as (self' & Hdef & Hx & Hu & Hax & Hau & Hsym & Hpar & _ & _ & Hm).
  exists self', (imap (fun p ph => plain_phase ph p (plain_rank (symbols self) ocp p)) ocp).
  repeat (apply conj); auto.
  - apply length_imap.
  - intros p ph H. rewrite list_lookup_imap, H.
    destruct (Hm p ph H) as [H1 H2]. repeat split; assumption.
Qed.

End Plain.

Lemma define_ocp_shooting_points_plain_witness :
  let ocp := [Scenario.phase Scenario.collocation 2 1 1 [];
              Scenario.phase Scenario.shooting 3 2 1 []] in
  let self := OptimizationVector.init 2 0 in
  exists self' ocp',
    OptimizationVector.define_ocp_shooting_points self ocp = Ok (self', ocp') /\
    OptimizationVector.n_phase_x self' = count_x <$> ocp /\
    OptimizationVector.n_phase_u self' = count_u <$> ocp /\
    OptimizationVector.n_all_x self' = OptimizationVector.sum_Z (count_x <$> ocp) /\
    OptimizationVector.n_all_u self' = OptimizationVector.sum_Z (count_u <$> ocp) /\
    OptimizationVector.symbols self'
    = (OptimizationVector.symbols self + sum_list (plain_cost <$> ocp))%nat /\
    OptimizationVector.parameters_in_list self'
    = OptimizationVector.parameters_in_list self /\
    length ocp' = length ocp /\
    forall p ph, ocp !! p = Some ph ->
      ocp' !! p
      = Some (plain_phase ph p (plain_rank (OptimizationVector.symbols self) ocp p)) /\
      OptimizationVector.x_scaled self' !! p
      = Some (plain_x_matrix ph p (plain_rank (OptimizationVector.symbols self) ocp p)) /\
      OptimizationVector.u_scaled self' !! p
      = Some (plain_u_matrix ph p (plain_rank (OptimizationVector.symbols self) ocp p)).
Proof.
  intros ocp self.
  apply (define_ocp_shooting_points_plain self ocp); try reflexivity.
  repeat constructor; simpl; try lia; discriminate.
Defined.

(** In that problem the counts are 3 and 8 states, 2 and 3 controls, and 16
    symbols are created (the collocation phase creates one symbol per state
    and node, three columns wide before the last node). *)
Example plain_counts :
  let ocp := [Scenario.phase Scenario.collocation 2 1 1 [];
              Scenario.phase Scenario.shooting 3 2 1 []] in
  (count_x <$> ocp, count_u <$> ocp, sum_list (plain_cost <$> ocp)) = ([3; 8], [2; 3], 16%nat).
Proof. reflexivity. Qed.

(** ** [vector] after a declaration without node mapping *)

Section PlainVector.
Context {R : Type}.

Import OptimizationVector Casadi.

(** The one element of a symbol of one row and one column. *)
Definition entry_of (s : sym) : entry := Entry s 0 0.

Lemma concat_singletons {A B} (f : A -> B) (l : list A) :
  concat ((fun x => [f x]) <$> l) = f <$> l.
Proof. induction l as [|x l IH]; [reflexivity|]. rewrite !fmap_cons. simpl. now rewrite IH. Qed.

Lemma item_lookup (m : matrix) (i j : nat) (col : list entry) (e : entry) :
  columns m !! j = Some col -> col !! i = Some e -> item m i j = Ok e.
Proof. intros Hc He. unfold item. now rewrite Hc, He. Qed.

(** Under direct shooting a node of states is one column of the matrix. *)
Lemma shooting_x_columns (ph : nlp R) (p c : nat) :
  is_direct_collocation (ode_solver ph) = false ->
  (0 < shape (states ph))%nat ->
  columns (plain_x_matrix ph p c)
  = (fun k => entry_of <$> plain_x_scaled ph p c k) <$> seq 0 (ns ph + 1).
Proof.
  intros Hs Hn. unfold plain_x_matrix.
  destruct (Nat.eqb_spec (shape (states ph)) 0); [lia|]. cbn [columns].
  rewrite <- list_fmap_compose.
  rewrite <- (concat_singletons (fun k => entry_of <$> plain_x_scaled ph p c k)). f_equal.
  apply list_fmap_ext. intros i k _. cbn [compose].
  unfold plain_x_scaled, state_syms.
  destruct (shape (states ph)) as [|n'] eqn:E; [lia|].
  cbn [seq fmap list_fmap node_columns sym_cols].
  unfold width, collocated. rewrite Hs, andb_false_r. reflexivity.
Qed.

Lemma shooting_u_columns (ph : nlp R) (p c : nat) :
  (0 < shape (controls ph))%nat -> has_control ph 0 = true ->
  columns (plain_u_matrix ph p c)
  = (fun k => entry_of <$> plain_u_scaled ph p c k) <$> seq 0 (control_nodes ph).
Proof.
  intros Hm Hc. unfold plain_u_matrix. rewrite Hc.
  destruct (Nat.eqb_spec (shape (controls ph)) 0); [lia|]. cbn [orb negb columns].
  assert (Hsplit : seq 0 (ns ph + 1)
                   = seq 0 (control_nodes ph) ++ seq (control_nodes ph)
                                                     (ns ph + 1 - control_nodes ph)).
  { rewrite <- seq_app. f_equal. unfold control_nodes.
    destruct (is_constant (control_type ph)); lia. }
  rewrite Hsplit, !fmap_app, concat_app.
  assert (Hrest : concat (node_columns <$> (plain_u_scaled ph p c
                            <$> seq (control_nodes ph) (ns ph + 1 - control_nodes ph))) = []).
  { rewrite <- list_fmap_compose.
    assert (Hall : Forall (fun x => x = [])
              ((node_columns ∘ plain_u_scaled ph p c)
                 <$> seq (control_nodes ph) (ns ph + 1 - control_nodes ph))).
    { apply Forall_fmap, Forall_forall. intros k Hk. apply List.in_seq in Hk.
      cbn [compose]. unfold plain_u_scaled.
      rewrite has_control_nodes by lia.
      rewrite bool_decide_eq_false_2 by lia. reflexivity. }
    induction Hall as [|x l -> _ IH]; [reflexivity|exact IH]. }
  rewrite Hrest, app_nil_r.
  rewrite <- list_fmap_compose.
  rewrite <- (concat_singletons (fun k => entry_of <$> plain_u_scaled ph p c k)). f_equal.
  apply list_fmap_ext. intros i k Hk. cbn [compose].
  apply lookup_seq in Hk as [-> Hk].
  unfold plain_u_scaled. rewrite has_control_nodes
    by (unfold control_nodes in Hk; destruct (is_constant (control_type ph)); lia).
  rewrite bool_decide_eq_true_2 by lia.
  unfold control_syms. destruct (shape (controls ph)) as [|m'] eqn:E; [lia|].
  reflexivity.
Qed.

(** The loop of [vector] over the rows of one node. *)
Lemma vector_state_rows (self : t R) (p : nat) (q : nlp R) (k : nat) (m : matrix)
    (node : list sym) :
  use_states_from_phase q = Z.of_nat p ->
  x_scaled self !! p = Some m ->
  columns m !! k = Some (entry_of <$> node) ->
  forall j acc, (j <= length node)%nat ->
    foldM (vector_state self p q k) (seq 0 j) acc = Ok (acc ++ (entry_of <$> take j node)).
Proof.
  intros Hu Hm Hc. induction j as [|j IH]; intros acc Hj.
  - simpl. now rewrite app_nil_r.
  - rewrite seq_S, foldM_app, IH by lia. cbn [bind foldM Nat.add].
    destruct (lookup_lt_is_Some_2 node j ltac:(lia)) as [s Hs].
    unfold vector_state. rewrite Hu, Z.eqb_refl, (py_get_nat _ _ _ Hm). cbn [bind].
    rewrite (item_lookup m j k _ (entry_of s) Hc) by (now rewrite list_lookup_fmap, Hs).
    cbn [bind]. rewrite (take_S_r _ _ _ Hs), fmap_app, app_assoc. reflexivity.
Qed.

Lemma vector_control_rows (self : t R) (p : nat) (q : nlp R) (k : nat) (m : matrix)
    (node : list sym) :
  use_controls_from_phase q = Z.of_nat p ->
  u_scaled self !! p = Some m ->
  columns m !! k = Some (entry_of <$> node) ->
  forall j acc, (j <= length node)%nat ->
    foldM (vector_control self p q k) (seq 0 j) acc = Ok (acc ++ (entry_of <$> take j node)).
Proof.
  intros Hu Hm Hc. induction j as [|j IH]; intros acc Hj.
  - simpl. now rewrite app_nil_r.
  - rewrite seq_S, foldM_app, IH by lia. cbn [bind foldM Nat.add].
    destruct (lookup_lt_is_Some_2 node j ltac:(lia)) as [s Hs].
    unfold vector_control. rewrite Hu, Z.eqb_refl, (py_get_nat _ _ _ Hm). cbn [bind].
    rewrite (item_lookup m j k _ (entry_of s) Hc) by (now rewrite list_lookup_fmap, Hs).
    cbn [bind]. rewrite (take_S_r _ _ _ Hs), fmap_app, app_assoc. reflexivity.
Qed.

(** The body of the loop of [vector] over the phases, for a phase declared
    without node mapping under direct shooting: its state symbols node
    after node, and its control symbols node after node. *)
Lemma vector_phase_plain (self : t R) (ph : nlp R) (p c : nat) (xs us : list entry) :
  is_direct_collocation (ode_solver ph) = false ->
  x_scaled self !! p = Some (plain_x_matrix ph p c) ->
  u_scaled self !! p = Some (plain_u_matrix ph p c) ->
  vector_phase self (xs, us) (p, plain_phase ph p c)
  = Ok (xs ++ (entry_of <$> concat (X_scaled (plain_phase ph p c))),
        us ++ (entry_of <$> concat (U_scaled (plain_phase ph p c)))).
Proof.
  intros Hs Hx Hu. unfold vector_phase.
  cbn [plain_phase states controls ns X_scaled U_scaled].
  assert (Hxs : forall j acc, (j <= ns ph + 1)%nat ->
            foldM (fun xs k =>
                     foldM (vector_state self p (plain_phase ph p c) k)
                       (seq 0 (shape (states ph))) xs)
              (seq 0 j) acc
            = Ok (acc ++ (entry_of <$> concat (plain_x_scaled ph p c <$> seq 0 j)))).
  { induction j as [|j IH]; intros acc Hj.
    - simpl. now rewrite app_nil_r.
    - rewrite seq_S, foldM_app, IH by lia. cbn [bind foldM Nat.add].
      rewrite fmap_app, concat_app, fmap_app. cbn [fmap list_fmap concat].
      rewrite app_nil_r, app_assoc.
      assert (Hlen : length (plain_x_scaled ph p c j) = shape (states ph)).
      { unfold plain_x_scaled, state_syms. now rewrite length_fmap, length_seq. }
      destruct (Nat.eq_dec (shape (states ph)) 0%nat) as [Hz|Hnz].
      + rewrite Hz. cbn [seq foldM]. destruct (plain_x_scaled ph p c j); [|simpl in Hlen; lia].
        now rewrite app_nil_r.
      + rewrite (vector_state_rows self p _ j (plain_x_matrix ph p c) (plain_x_scaled ph p c j))
          by (try reflexivity; try assumption; try lia;
              rewrite shooting_x_columns by (assumption || lia);
              rewrite list_lookup_fmap, lookup_seq_lt by lia; reflexivity).
        cbn [bind]. rewrite <- Hlen, firstn_all. reflexivity. }
  rewrite Hxs by lia. cbn [bind].
  assert (Hus : forall j acc, (j <= ns ph + 1)%nat ->
            foldM (fun us k =>
                     if has_control (plain_phase ph p c) k
                     then foldM (vector_control self p (plain_phase ph p c) k)
                            (seq 0 (shape (controls ph))) us
                     else Ok us)
              (seq 0 j) acc
            = Ok (acc ++ (entry_of <$> concat (plain_u_scaled ph p c <$> seq 0 j)))).
  { induction j as [|j IH]; intros acc Hj.
    - simpl. now rewrite app_nil_r.
    - rewrite seq_S, foldM_app, IH by lia. cbn [bind foldM Nat.add].
      rewrite fmap_app, concat_app, fmap_app. cbn [fmap list_fmap concat].
      rewrite app_nil_r, app_assoc.
      change (has_control (plain_phase ph p c) j) with (has_control ph j).
      destruct (has_control ph j) eqn:Hc.
      2:{ unfold plain_u_scaled. rewrite Hc. now rewrite app_nil_r. }
      assert (Hlen : length (plain_u_scaled ph p c j) = shape (controls ph)).
      { unfold plain_u_scaled, control_syms. rewrite Hc. now rewrite length_fmap, length_seq. }
      destruct (Nat.eq_dec (shape (controls ph)) 0%nat) as [Hz|Hnz].
      + rewrite Hz. cbn [seq foldM]. destruct (plain_u_scaled ph p c j); [|simpl in Hlen; lia].
        now rewrite app_nil_r.
      + assert (Hj' : (j < control_nodes ph)%nat).
        { rewrite has_control_nodes in Hc by lia. now apply bool_decide_eq_true in Hc. }
        assert (Hc0 : has_control ph 0 = true).
        { rewrite has_control_nodes by lia. apply bool_decide_eq_true. lia. }
        rewrite (vector_control_rows self p _ j (plain_u_matrix ph p c)
                   (plain_u_scaled ph p c j))
          by (try reflexivity; try assumption; try lia;
              rewrite shooting_u_columns by (assumption || lia);
              rewrite list_lookup_fmap, lookup_seq_lt by lia; reflexivity).
        cbn [bind]. rewrite <- Hlen, firstn_all. reflexivity. }
  rewrite Hus by lia. reflexivity.
Qed.

Lemma length_concat_uniform {A} (n : nat) (l : list (list A)) :
  Forall (fun x => length x = n) l -> length (concat l) = (length l * n)%nat.
Proof.
  induction 1 as [|x l Hx _ IH]; [reflexivity|].
  simpl. rewrite length_app, Hx, IH. lia.
Qed.

Lemma plain_x_total (ph : nlp R) (p c : nat) :
  Z.of_nat (length (concat (X_scaled (plain_phase ph p c)))) = count_x ph.
Proof.
  unfold count_x. cbn [plain_phase X_scaled].
  rewrite (length_concat_uniform (shape (states ph))).
  - rewrite length_fmap, length_seq. lia.
  - apply Forall_fmap, Forall_forall. intros k _. cbn [compose].
    unfold plain_x_scaled, state_syms. now rewrite length_fmap, length_seq.
Qed.

Lemma plain_u_total (ph : nlp R) (p c : nat) :
  Z.of_nat (length (concat (U_scaled (plain_phase ph p c)))) = count_u ph.
Proof.
  unfold count_u. cbn [plain_phase U_scaled].
  assert (H : forall j, (j <= ns ph + 1)%nat ->
            length (concat (plain_u_scaled ph p c <$> seq 0 j))
            = (Nat.min j (control_nodes ph) * shape (controls ph))%nat).
  { induction j as [|j IH]; intros Hj; [reflexivity|].
    rewrite seq_S, fmap_app, concat_app, length_app, IH by lia.
    cbn [fmap list_fmap concat Nat.add]. rewrite app_nil_r.
    unfold plain_u_scaled. rewrite has_control_nodes by lia.
    destruct (decide (j < control_nodes ph)%nat).
    - rewrite bool_decide_eq_true_2 by assumption.
      unfold control_syms. rewrite length_fmap, length_seq.
      replace (Nat.min (S j) (control_nodes ph)) with (S (Nat.min j (control_nodes ph)))
        by lia. lia.
    - rewrite bool_decide_eq_false_2 by assumption. cbn [length].
      replace (Nat.min (S j) (control_nodes ph)) with (Nat.min j (control_nodes ph))
        by lia. lia. }
  rewrite H by lia.
  replace (Nat.min (ns ph + 1) (control_nodes ph)) with (control_nodes ph); [lia|].
  unfold control_nodes. destruct (is_constant (control_type ph)); lia.
Qed.

Lemma sum_Z_from (l : list Z) (a : Z) : fold_left Z.add l a = a + sum_Z l.
Proof.
  unfold sum_Z. revert a. induction l as [|x l IH]; intros a; cbn [fold_left]; [lia|].
  rewrite IH, (IH (0 + x)). lia.
Qed.

Lemma sum_Z_cons (x : Z) (l : list Z) : sum_Z (x :: l) = x + sum_Z l.
Proof. unfold sum_Z at 1. simpl. apply sum_Z_from. Qed.

Lemma plain_x_totals (l : list (nlp R)) :
  forall pp cc : nat -> nat,
    Z.of_nat (length (concat (concat
      (X_scaled <$> imap (fun i ph => plain_phase ph (pp i) (cc i)) l))))
    = sum_Z (count_x <$> l).
Proof.
  induction l as [|ph l IH]; intros pp cc; [reflexivity|].
  rewrite fmap_cons, sum_Z_cons. cbn [imap fmap list_fmap concat].
  rewrite concat_app, length_app, Nat2Z.inj_add, plain_x_total. f_equal.
  apply (IH (pp ∘ S) (cc ∘ S)).
Qed.

Lemma plain_u_totals (l : list (nlp R)) :
  forall pp cc : nat -> nat,
    Z.of_nat (length (concat (concat
      (U_scaled <$> imap (fun i ph => plain_phase ph (pp i) (cc i)) l))))
    = sum_Z (count_u <$> l).
Proof.
  induction l as [|ph l IH]; intros pp cc; [reflexivity|].
  rewrite fmap_cons, sum_Z_cons. cbn [imap fmap list_fmap concat].
  rewrite concat_app, length_app, Nat2Z.inj_add, plain_u_total. f_equal.
  apply (IH (pp ∘ S) (cc ∘ S)).
Qed.

(** What the loop of [vector] over the phases gathers. *)
Definition gather (acc : list entry * list entry) (pq : nat * nlp R)
  : list entry * list entry :=
  (acc.1 ++ (entry_of <$> concat (X_scaled pq.2)),
   acc.2 ++ (entry_of <$> concat (U_scaled pq.2))).

Lemma gather_all (l : list (nat * nlp R)) :
  forall acc,
    fold_left gather l acc
    = (acc.1 ++ (entry_of <$> concat (concat ((fun pq => X_scaled pq.2) <$> l))),
       acc.2 ++ (entry_of <$> concat (concat ((fun pq => U_scaled pq.2) <$> l)))).
Proof.
  induction l as [|pq l IH]; intros [xs us].
  - simpl. now rewrite !app_nil_r.
  - cbn [fold_left]. rewrite IH. unfold gather. cbn [fst snd fmap list_fmap concat].
    rewrite !concat_app, !fmap_app, !app_assoc. reflexivity.
Qed.

Lemma imap_pair_snd {A} (f : nlp R -> A) (l : list (nlp R)) :
  (fun pq : nat * nlp R => f pq.2) <$> imap pair l = f <$> l.
Proof.
  apply list_eq. intros i. rewrite !list_lookup_fmap, list_lookup_imap.
  now destruct (l !! i).
Qed.

(** Under direct shooting. *)
Definition direct_shooting (ph : nlp R) : Prop := is_direct_collocation (ode_solver ph) = false.

(** [vector] on the records and the matrices a declaration without node
    mapping leaves, under direct shooting. *)
Lemma vector_of_plain (self : t R) (ocp : list (nlp R)) (cc : nat -> nat) :
  Forall direct_shooting ocp ->
  (forall p ph, ocp !! p = Some ph ->
     x_scaled self !! p = Some (plain_x_matrix ph p (cc p)) /\
     u_scaled self !! p = Some (plain_u_matrix ph p (cc p))) ->
  let ocp' := imap (fun p ph => plain_phase ph p (cc p)) ocp in
  vector self ocp'
  = Ok ((entry_of <$> concat (concat (X_scaled <$> ocp')))
        ++ (entry_of <$> concat (concat (U_scaled <$> ocp')))
        ++ parameters_cx (parameters_in_list self)).
Proof.
  intros Hsh Hm ocp'.
  assert (Hstep : forall acc pq, pq ∈ imap pair ocp' ->
            vector_phase self acc pq = Ok (gather acc pq)).
  { intros [xs us] [p q] Hin. apply list_elem_of_lookup in Hin as [i Hi].
    unfold ocp' in Hi. rewrite !list_lookup_imap in Hi.
    destruct (ocp !! i) as [ph|] eqn:Hph; [|discriminate]. simpl in Hi.
    inversion Hi; subst p q.
    destruct (Hm i ph Hph) as (E2 & E4).
    apply vector_phase_plain; [|exact E2|exact E4].
    rewrite List.Forall_forall in Hsh. apply Hsh.
    apply list_elem_of_In. apply list_elem_of_lookup. eauto. }
  destruct (foldM_fold_left (vector_phase self) gather (fun _ => True)
              (imap pair ocp') (fun st0 x _ Hx => conj (Hstep st0 x Hx) I)
              ([], []) I) as [Hfold _].
  unfold vector. rewrite Hfold. cbn [bind]. rewrite gather_all. cbn [fst snd app].
  rewrite (imap_pair_snd X_scaled), (imap_pair_snd U_scaled). reflexivity.
Qed.

(** X11.  A direct-shooting problem without node mapping, once declared:
    [vector] returns, and it is the state symbols of all the phases (phase
    after phase, node after node, row after row), then the control symbols
    in the same order, then the symbols of the parameters; so it has
    [n_all_x + n_all_u] entries before the parameters. *)
Theorem vector_plain (self : t R) (ocp : list (nlp R)) :
  Forall plain ocp -> Forall direct_shooting ocp ->
  length (x_scaled self) = length ocp -> length (n_phase_x self) = length ocp ->
  length (u_scaled self) = length ocp -> length (n_phase_u self) = length ocp ->
  exists self' ocp' v,
    define_ocp_shooting_points self ocp = Ok (self', ocp') /\
    vector self' ocp' = Ok v /\
    v = (entry_of <$> concat (concat (X_scaled <$> ocp')))
        ++ (entry_of <$> concat (concat (U_scaled <$> ocp')))
        ++ parameters_cx (parameters_in_list self) /\
    Z.of_nat (length (entry_of <$> concat (concat (X_scaled <$> ocp')))) = n_all_x self' /\
    Z.of_nat (length (entry_of <$> concat (concat (U_scaled <$> ocp')))) = n_all_u self'.
Proof.
  intros Hp Hsh L1 L2 L3 L4.
  destruct (plain_declared self ocp Hp L1 L2 L3 L4)
    as (self' & Hdef & _ & _ & Hax & Hau & _ & Hpar & _ & _ & Hm).
  eexists self', _, _. split; [exact Hdef|].
  split; [exact (vector_of_plain self' ocp _ Hsh Hm)|].
  split; [now rewrite Hpar|]. rewrite !length_fmap, Hax, Hau. split.
  - apply (plain_x_totals ocp (fun i => i) (plain_rank (symbols self) ocp)).
  - apply (plain_u_totals ocp (fun i => i) (plain_rank (symbols self) ocp)).
Qed.

End PlainVector.

Lemma vector_plain_witness :
  let ocp := [Scenario.phase Scenario.shooting 2 2 1 [];
              Scenario.phase Scenario.shooting 1 1 1 []] in
  let self := OptimizationVector.init 2 0 in
  exists self' ocp' v,
    OptimizationVector.define_ocp_shooting_points self ocp = Ok (self', ocp') /\
    OptimizationVector.vector self' ocp' = Ok v /\
    v = (entry_of <$> concat (concat (OptimizationVector.X_scaled <$> ocp')))
        ++ (entry_of <$> concat (concat (OptimizationVector.U_scaled <$> ocp')))
        ++ OptimizationVector.parameters_cx (OptimizationVector.parameters_in_list self) /\
    Z.of_nat (length (entry_of <$> concat (concat (OptimizationVector.X_scaled <$> ocp'))))
    = OptimizationVector.n_all_x self' /\
    Z.of_nat (length (entry_of <$> concat (concat (OptimizationVector.U_scaled <$> ocp'))))
    = OptimizationVector.n_all_u self'.
Proof.
  intros ocp self.
  apply (vector_plain self ocp); try reflexivity.
  - repeat constructor; simpl; try lia; discriminate.
  - repeat constructor.
Defined.

(** In that problem the symbols were created in the order states of node
    0, controls of node 0, states of node 1, ...; [vector] lists the ranks
    of the states of both phases first, then those of the controls. *)
Example vector_plain_ranks :
  (let ocp := [Scenario.phase Scenario.shooting 2 2 1 [];
               Scenario.phase Scenario.shooting 1 1 1 []] in
   let! r := OptimizationVector.define_ocp_shooting_points (OptimizationVector.init 2 0) ocp in
   let! v := OptimizationVector.vector r.1 r.2 in
   Ok ((fun e => Casadi.sym_id (Casadi.of_sym e)) <$> v))
  = Ok [0; 1; 3; 4; 6; 7; 8; 10; 2; 5; 9]%nat.
Proof. reflexivity. Qed.

(** ** [to_dictionaries]: reading the solver's vector back *)

Section Unpack.
Context {R : Type}.

Import OptimizationVector.

(** [v[a : a + n]] of a vector that is long enough. *)
Lemma py_slice_block {A} (v : list A) (a n : nat) :
  (a + n <= length v)%nat ->
  py_slice v (Z.of_nat a) (Z.of_nat a + Z.of_nat n) = take n (drop a v).
Proof.
  intros H. unfold py_slice.
  destruct (Z.ltb_spec (Z.of_nat a) 0); [lia|].
  destruct (Z.ltb_spec (Z.of_nat a + Z.of_nat n) 0); [lia|].
  rewrite !Z.min_l by lia.
  replace (Z.to_nat (Z.of_nat a + Z.of_nat n - Z.of_nat a)) with n by lia.
  now rewrite Nat2Z.id.
Qed.



























End Unpack.

(** One phase of 1 interval, 2 states and 1 constant control, declared
    without node mapping, and a vector of 5 values. *)
Module Unpacked.

Import OptimizationVector.

Definition the_phase : nlp Z :=
  plain_phase (Scenario.phase Scenario.shooting 1 2 1 []) 0 0.

Definition the_vector : t Z :=
  Build [] [Casadi.Mx 0 []] [Bounds [] []] 4 [4] [Casadi.Mx 0 []] [Bounds [] []] 1 [1] 5.

Definition the_data : list Z := [10; 20; 30; 40; 50].


End Unpacked.



(** In that problem the states are read column by column and the control
    after them. *)
Example to_dictionaries_own_values :
  (OptimizationVector.to_dictionaries_states Unpacked.the_vector [Unpacked.the_phase] Unpacked.the_data,
   OptimizationVector.to_dictionaries_controls Unpacked.the_vector [Unpacked.the_phase] Unpacked.the_data)
  = (Ok [[("all", [[10; 30]; [20; 40]]); ("q", [[10; 30]; [20; 40]])]],
     Ok [[("all", [[50]]); ("tau", [[50]])]]).
Proof. reflexivity. Qed.

(** ** Control types that are not supported *)

Lemma foldM_raises {A St} (f : St -> A -> result St) (l : list A) (x : A) :
  x ∈ l -> (forall st, raises (f st x)) -> forall st, raises (foldM f l st).
Proof.
  intros Hin Hx. induction l as [|y l IH]; intros st.
  - inversion Hin.
  - cbn [foldM]. apply elem_of_cons in Hin as [<-|Hin].
    + destruct (Hx st) as [e ->]. exists e. reflexivity.
    + destruct (f st y) as [st'|e]; cbn [bind]; [now apply IH|now exists e].
Qed.

Lemma bind_raises {A B} (m : result A) (f : A -> result B) :
  raises m -> raises (bind m f).
Proof. intros [e ->]. now exists e. Qed.

Section Unsupported.
Context {R : Type} (zero : R).

Import OptimizationVector.

(** X14.  A phase whose controls are neither constant nor linear: whatever
    the other phases and the state of the vector,
    [define_ocp_shooting_points] raises, and so does [define_ocp_bounds];
    neither returns. *)
Theorem unsupported_control_type_raises (self : t R) (ocp : list (nlp R))
    (nx nu : list nat) (ph : nlp R) :
  ph ∈ ocp -> control_type ph = OTHER_CONTROL ->
  raises (define_ocp_shooting_points self ocp) /\
  raises (define_ocp_bounds zero self ocp nx nu).
Proof.
  intros Hin Hc. split.
  - unfold define_ocp_shooting_points. apply bind_raises.
    apply (foldM_raises _ _ ph Hin). intros st. unfold declare_phase.
    destruct (aggregate_elements _ _ (states ph)) as [sa|e]; cbn [bind]; [|now exists e].
    destruct (aggregate_elements _ _ (controls ph)) as [ca|e]; cbn [bind]; [|now exists e].
    rewrite Hc. cbn. now exists NotImplementedError.
  - unfold define_ocp_bounds. apply bind_raises.
    apply list_elem_of_lookup in Hin as [i Hi].
    apply (foldM_raises _ _ (i, ph)).
    + apply list_elem_of_lookup. exists i. rewrite list_lookup_imap, Hi. reflexivity.
    + intros []. unfold check_phase.
      destruct (py_get nx (Z.of_nat i)) as [n|e]; cbn [bind]; [|now exists e].
      destruct (check_and_adjust_dimensions (x_bounds_min ph) n) as [|e]; cbn [bind];
        [|now exists e].
      destruct (check_and_adjust_dimensions (x_bounds_max ph) n) as [|e]; cbn [bind];
        [|now exists e].
      rewrite Hc. now exists NotImplementedError.
Qed.

End Unsupported.

Lemma unsupported_control_type_raises_witness :
  let other : OptimizationVector.nlp Z :=
    OptimizationVector.Nlp 2 OptimizationVector.OTHER_CONTROL Scenario.shooting
      [OptimizationVector.Element "q" 1] [OptimizationVector.Element "tau" 1] [] []
      [1] [1] (Scenario.constant_path 1 0) (Scenario.constant_path 1 0)
      (Scenario.constant_path 1 0) (Scenario.constant_path 1 0) 0 0 [] [] [] [] in
  let ocp := [Scenario.phase Scenario.shooting 2 1 1 []; other] in
  raises (OptimizationVector.define_ocp_shooting_points (OptimizationVector.init 2 0) ocp) /\
  raises (OptimizationVector.define_ocp_bounds 0 (OptimizationVector.init 2 0) ocp
            [1; 1]%nat [1; 1]%nat).
Proof.
  intros other ocp.
  apply (unsupported_control_type_raises 0 (OptimizationVector.init 2 0) ocp
           [1; 1]%nat [1; 1]%nat other).
  - apply list_elem_of_lookup. exists 1%nat. reflexivity.
  - reflexivity.
Defined.

(** ** [vector] and [to_dictionaries] agree on the places *)

Section Alignment.
Context {R : Type}.

Import OptimizationVector Casadi.









(** The declaration of a direct-shooting problem without node mapping, and
    [vector] after it. *)
Lemma plain_views (self : t R) (ocp : list (nlp R)) :
  Forall plain ocp -> Forall direct_shooting ocp ->
  length (x_scaled self) = length ocp -> length (n_phase_x self) = length ocp ->
  length (u_scaled self) = length ocp -> length (n_phase_u self) = length ocp ->
  exists self' ocp' v,
    ocp' = imap (fun p ph => plain_phase ph p (plain_rank (symbols self) ocp p)) ocp /\
    define_ocp_shooting_points self ocp = Ok (self', ocp') /\
    vector self' ocp' = Ok v /\
    v = (entry_of <$> concat (concat (X_scaled <$> ocp')))
        ++ (entry_of <$> concat (concat (U_scaled <$> ocp')))
        ++ parameters_cx (parameters_in_list self) /\
    Z.of_nat (length (entry_of <$> concat (concat (X_scaled <$> ocp')))) = n_all_x self' /\
    Z.of_nat (length (entry_of <$> concat (concat (U_scaled <$> ocp')))) = n_all_u self' /\
    n_phase_x self' = count_x <$> ocp /\ n_phase_u self' = count_u <$> ocp /\
    n_all_x self' = sum_Z (count_x <$> ocp) /\ n_all_u self' = sum_Z (count_u <$> ocp) /\
    parameters_in_list self' = parameters_in_list self /\
    x_bounds self' = x_bounds self /\ u_bounds self' = u_bounds self /\
    forall p ph, ocp !! p = Some ph ->
      x_scaled self' !! p = Some (plain_x_matrix ph p (plain_rank (symbols self) ocp p)) /\
      u_scaled self' !! p = Some (plain_u_matrix ph p (plain_rank (symbols self) ocp p)).
Proof.
  intros Hp Hsh L1 L2 L3 L4.
  destruct (plain_declared self ocp Hp L1 L2 L3 L4)
    as (self' & Hdef & Hx & Hu & Hax & Hau & _ & Hpar & Hxb & Hub & Hm).
  eexists self', _, _. split; [reflexivity|]. split; [exact Hdef|].
  split; [exact (vector_of_plain self' ocp _ Hsh Hm)|].
  split; [now rewrite Hpar|]. rewrite !length_fmap, Hax, Hau.
  repeat (apply conj); auto.
  - apply (plain_x_totals ocp (fun i => i) (plain_rank (symbols self) ocp)).
  - apply (plain_u_totals ocp (fun i => i) (plain_rank (symbols self) ocp)).
Qed.

Lemma sum_Z_of_nat (f : nlp R -> nat) (l : list (nlp R)) :
  sum_Z ((fun ph => Z.of_nat (f ph)) <$> l) = Z.of_nat (sum_list (f <$> l)).
Proof.
  induction l as [|x l IH]; [reflexivity|].
  rewrite !fmap_cons, sum_Z_cons, IH. cbn [sum_list sum_list_with]. unfold id. lia.
Qed.



End Alignment.

(** Two phases under direct shooting: 2 intervals, 2 states and 1 control,
    then 1 interval, 1 state and 1 control; and a solution of 11 values. *)
Module Aligned.

Import OptimizationVector.

Definition problem : list (nlp Z) :=
  [Scenario.phase Scenario.shooting 2 2 1 []; Scenario.phase Scenario.shooting 1 1 1 []].

Definition solution : list Z := [10; 11; 12; 13; 14; 15; 16; 17; 18; 19; 20].

End Aligned.



(** In that problem [vector] has the 8 state symbols before the 3 control
    symbols, and the solution is read back in that order: the states of
    phase 0 from the places 0 to 5, those of phase 1 from 6 to 7, the
    controls of phase 0 from 8 to 9 and the control of phase 1 from 10. *)
Example read_back_in_vector_order :
  (let! r := OptimizationVector.define_ocp_shooting_points (OptimizationVector.init 2 0)
               Aligned.problem in
   let! xs := OptimizationVector.to_dictionaries_states r.1 r.2 Aligned.solution in
   let! us := OptimizationVector.to_dictionaries_controls r.1 r.2 Aligned.solution in
   Ok ((fun d => dict_get d "all") <$> xs, (fun d => dict_get d "all") <$> us))
  = Ok ([Some [[10; 12; 14]; [11; 13; 15]]; Some [[16; 17]]],
        [Some [[18; 19]]; Some [[20]]]).
Proof. reflexivity. Qed.

(** ** [extract_phase_time] *)

Section PhaseTime.
Context {R : Type} (zero : R).

Import OptimizationVector.

(** The phases whose duration is optimized, among [tf]. *)
Fixpoint optimized (tf : list (phase_end R)) : nat :=
  match tf with
  | [] => 0
  | Fixed _ :: tf' => optimized tf'
  | Optimized :: tf' => S (optimized tf')
  end.

(** The sizes of the parameters [pool], together. *)
Definition sizes (pool : list (parameter R)) : nat := sum_list (prm_size <$> pool).

Lemma time_values_found (data : list R) (before after : list (parameter R))
    (time : parameter R) :
  Forall (fun param => prm_name param <> "time") before -> prm_name time = "time" ->
  forall offset : nat,
    (offset + sizes before + prm_size time <= length data)%nat ->
    time_values data (Z.of_nat offset) (before ++ time :: after)
    = take (prm_size time) (drop (offset + sizes before) data).
Proof.
  intros Hb Ht. induction Hb as [|param before Hn _ IH]; intros offset Hlen.
  - cbn [app time_values]. rewrite Ht, String.eqb_refl. unfold sizes in *.
    cbn [fmap list_fmap sum_list sum_list_with] in *.
    rewrite Nat.add_0_r in *. apply py_slice_block. lia.
  - cbn [app time_values]. destruct (String.eqb_spec (prm_name param) "time"); [contradiction|].
    unfold sizes in *. rewrite fmap_cons in *. cbn [sum_list sum_list_with] in *.
    unfold id in *. rewrite <- Nat2Z.inj_add. rewrite IH by lia. do 2 f_equal. lia.
Qed.

Lemma time_in_pool (before after : list (parameter R)) (time : parameter R) :
  prm_name time = "time" ->
  existsb (fun param => String.eqb (prm_name param) "time") (before ++ time :: after) = true.
Proof.
  intros Ht. apply List.existsb_exists. exists time. split.
  - apply List.in_or_app. right. now left.
  - rewrite Ht. apply String.eqb_refl.
Qed.

(** The loop that replaces the optimized durations. *)
Lemma replace_loop (values : list R) (map_idx : list (option Z)) (tf : list (phase_end R)) :
  forall (acc : list (phase_end R)) (c : nat),
    (forall j, (j < optimized tf)%nat ->
       exists m, map_idx !! (c + j)%nat = Some (Some (Z.of_nat m)) /\ (m < length values)%nat) ->
    exists res,
      foldM (replace_time values map_idx) tf (acc, c) = Ok (acc ++ res, (c + optimized tf)%nat) /\
      length res = length tf /\
      forall i x, tf !! i = Some x ->
        match x with
        | Fixed _ => res !! i = Some x
        | Optimized =>
            exists m v,
              map_idx !! (c + optimized (take i tf))%nat = Some (Some (Z.of_nat m)) /\
              values !! m = Some v /\ res !! i = Some (Fixed v)
        end.
Proof.
  induction tf as [|x tf IH]; intros acc c Hmap.
  - exists []. cbn [foldM optimized]. rewrite app_nil_r, Nat.add_0_r.
    repeat split. intros i x Hx. discriminate.
  - destruct x as [t|].
    + destruct (IH (acc ++ [Fixed t]) c) as (res & Hres & Hlen & Hall).
      { intros j Hj. apply Hmap. exact Hj. }
      exists (Fixed t :: res). cbn [foldM replace_time fst snd bind optimized].
      rewrite Hres, <- app_assoc. repeat split; [simpl; now rewrite Hlen|].
      intros [|i] x Hx; simpl in Hx.
      * now inversion Hx.
      * exact (Hall i x Hx).
    + destruct (Hmap 0%nat ltac:(simpl; lia)) as (m & Hm & Hlt). rewrite Nat.add_0_r in Hm.
      destruct (lookup_lt_is_Some_2 values m Hlt) as [v Hv].
      destruct (IH (acc ++ [Fixed v]) (S c)) as (res & Hres & Hlen & Hall).
      { intros j Hj. destruct (Hmap (S j) ltac:(simpl; lia)) as (m' & Hm' & Hlt').
        exists m'. split; [|exact Hlt']. rewrite <- Hm'. f_equal. lia. }
      exists (Fixed v :: res). cbn [foldM replace_time fst snd optimized].
      rewrite (py_get_nat _ _ _ Hm). cbn [bind]. rewrite (py_get_nat _ _ _ Hv). cbn [bind].
      rewrite Hres, <- app_assoc. repeat split.
      * do 2 f_equal. lia.
      * simpl. now rewrite Hlen.
      * intros [|i] x Hx; simpl in Hx.
        -- inversion Hx; subst x. exists m, v. cbn [take optimized].
           rewrite Nat.add_0_r. repeat split; assumption.
        -- specialize (Hall i x Hx). destruct x as [t|]; [exact Hall|].
           destruct Hall as (m' & v' & H1 & H2 & H3). exists m', v'.
           cbn [take optimized]. repeat split; try assumption.
           rewrite <- H1. f_equal. lia.
Qed.

(** X17.  [extract_phase_time], when the pool has a parameter ["time"] of at
    least one value and the solution is long enough: the call returns 0
    followed by one time per phase.  The durations that are numbers are
    returned as they are.  The optimized ones are replaced in order: the
    one of rank [j] among them becomes the value of the solution at place
    [offset + map_idx[j]], where [offset] is [n_all_x + n_all_u] plus the
    sizes of the parameters that come before ["time"] in the pool. *)
Theorem extract_phase_time_reads (self : t R) (tf : list (phase_end R))
    (map_idx : list (option Z)) (data : list R)
    (before after : list (parameter R)) (time : parameter R) (base : nat) :
  parameters_in_list self = before ++ time :: after ->
  Forall (fun param => prm_name param <> "time") before -> prm_name time = "time" ->
  n_all_x self + n_all_u self = Z.of_nat base ->
  (0 < prm_size time)%nat ->
  (base + sizes before + prm_size time <= length data)%nat ->
  (forall j, (j < optimized tf)%nat ->
     exists m, map_idx !! j = Some (Some (Z.of_nat m)) /\ (m < prm_size time)%nat) ->
  exists phase_time,
    extract_phase_time zero self tf map_idx data = Ok (Fixed zero :: phase_time) /\
    length phase_time = length tf /\
    forall i x, tf !! i = Some x ->
      match x with
      | Fixed _ => phase_time !! i = Some x
      | Optimized =>
          exists m v,
            map_idx !! optimized (take i tf) = Some (Some (Z.of_nat m)) /\
            data !! (base + sizes before + m)%nat = Some v /\
            phase_time !! i = Some (Fixed v)
      end.
Proof.
  intros Hpool Hb Ht Hbase Hpos Hlen Hmap. unfold extract_phase_time.
  rewrite Hpool, (time_in_pool before after time Ht), Hbase.
  rewrite (time_values_found data before after time Hb Ht base Hlen).
  set (values := take (prm_size time) (drop (base + sizes before) data)).
  assert (Hvl : length values = prm_size time).
  { unfold values. rewrite length_take, length_drop. lia. }
  destruct (replace_loop values map_idx tf [Fixed zero] 0) as (res & Hres & Hrl & Hall).
  { intros j Hj. destruct (Hmap j Hj) as (m & Hm & Hlt). exists m. rewrite Hvl. auto. }
  destruct values as [|v0 values'] eqn:Ev; [simpl in Hvl; lia|]. rewrite <- Ev in *.
  cbn [foldM replace_time fst snd app bind]. rewrite Hres. cbn [bind fst app].
  exists res. repeat split; [exact Hrl|].
  intros i x Hx. specialize (Hall i x Hx). destruct x as [t|]; [exact Hall|].
  destruct Hall as (m & v & H1 & H2 & H3). exists m, v. repeat split; try assumption.
  unfold values in H2. apply lookup_take_Some in H2 as [H2 _].
  now rewrite lookup_drop in H2.
Qed.

End PhaseTime.

Lemma extract_phase_time_reads_witness :
  let scale := OptimizationVector.Prm "scale" 1 None [] [1] [0] [1] [1] 3 [] in
  let time := OptimizationVector.Prm "time" 2 None [] [1; 1] [0; 0] [9; 9] [1; 1] 7 [] in
  let self := OptimizationVector.Build [scale; time] [] [] 4 [4] [] [] 1 [1] 0 in
  let tf := [OptimizationVector.Optimized; OptimizationVector.Fixed 3;
             OptimizationVector.Optimized] in
  let map_idx := [Some 0; Some 1] in
  let data := [10; 11; 12; 13; 14; 15; 16; 17] in
  exists phase_time,
    OptimizationVector.extract_phase_time 0 self tf map_idx data
    = Ok (OptimizationVector.Fixed 0 :: phase_time) /\
    length phase_time = length tf /\
    forall i x, tf !! i = Some x ->
      match x with
      | OptimizationVector.Fixed _ => phase_time !! i = Some x
      | OptimizationVector.Optimized =>
          exists m v,
            map_idx !! optimized (take i tf) = Some (Some (Z.of_nat m)) /\
            data !! (5 + sizes [scale] + m)%nat = Some v /\
            phase_time !! i = Some (OptimizationVector.Fixed v)
      end.
Proof.
  intros scale time self tf map_idx data.
  apply (extract_phase_time_reads 0 self tf map_idx data [scale] [] time 5).
  - reflexivity.
  - repeat constructor. discriminate.
  - reflexivity.
  - reflexivity.
  - simpl. lia.
  - vm_compute. lia.
  - intros j Hj. destruct j as [|[|j]].
    + exists 0%nat. split; [reflexivity|simpl; lia].
    + exists 1%nat. split; [reflexivity|simpl; lia].
    + simpl in Hj. lia.
Defined.

(** In that problem the two optimized durations are read at the places 6
    and 7 of the solution, after 4 states, 1 control and the parameter
    ["scale"]. *)
Example extract_phase_time_values :
  OptimizationVector.extract_phase_time 0
    (OptimizationVector.Build
       [OptimizationVector.Prm "scale" 1 None [] [1] [0] [1] [1] 3 [];
        OptimizationVector.Prm "time" 2 None [] [1; 1] [0; 0] [9; 9] [1; 1] 7 []]
       [] [] 4 [4] [] [] 1 [1] 0)
    [OptimizationVector.Optimized; OptimizationVector.Fixed 3; OptimizationVector.Optimized]
    [Some 0; Some 1] [10; 11; 12; 13; 14; 15; 16; 17]
  = Ok [OptimizationVector.Fixed 0; OptimizationVector.Fixed 16;
        OptimizationVector.Fixed 3; OptimizationVector.Fixed 17].
Proof. reflexivity. Qed.

(** ** The views of a direct-shooting problem have one length *)

Section AlignedViews.
Context {R : Type} (zero : R) (div : R -> R -> R).

Import OptimizationVector Casadi.

(** [vector] reads the symbols and the parameters only. *)
Lemma vector_reads (a b : t R) (ocp : list (nlp R)) :
  x_scaled a = x_scaled b -> u_scaled a = u_scaled b ->
  parameters_in_list a = parameters_in_list b ->
  vector a ocp = vector b ocp.
Proof.
  intros Hx Hu Hp. unfold vector, vector_phase, vector_state, vector_control.
  rewrite Hx, Hu, Hp. reflexivity.
Qed.

Lemma scale_lengths (b : bounds_value R) (scaling : list R) :
  length (b_min b) = length scaling -> length (b_max b) = length scaling ->
  exists b', scale div b scaling = Ok b' /\
             length (b_min b') = length (b_min b) /\ length (b_max b') = length (b_max b).
Proof.
  intros Hmin Hmax. unfold scale, scale_values. rewrite Hmin, Hmax, Nat.eqb_refl.
  cbn [bind]. eexists. split; [reflexivity|]. cbn [b_min b_max].
  rewrite !length_zip_with. lia.
Qed.

Lemma to_vector_length (scaling : list R) (n : nat) :
  length (to_vector scaling n) = (n * length scaling)%nat.
Proof.
  unfold to_vector. induction n as [|n IH]; [reflexivity|].
  cbn [replicate concat]. rewrite length_app, IH. lia.
Qed.

(** The rows of a list of bounds, together. *)
Definition rows_min (l : list (bounds_value R)) : nat :=
  sum_list ((fun b => length (b_min b)) <$> l).
Definition rows_max (l : list (bounds_value R)) : nat :=
  sum_list ((fun b => length (b_max b)) <$> l).

(** A loop that scales each bound of a list and adds it below. *)
Lemma concatenate_loop (body : bounds_value R -> nat * bounds_value R -> result (bounds_value R))
    (l : list (bounds_value R)) :
  (forall v p b, l !! p = Some b ->
     exists b', body v (p, b) = Ok (concatenate v b') /\
                length (b_min b') = length (b_min b) /\
                length (b_max b') = length (b_max b)) ->
  forall v, exists v',
    foldM body (imap pair l) v = Ok v' /\
    length (b_min v') = (length (b_min v) + rows_min l)%nat /\
    length (b_max v') = (length (b_max v) + rows_max l)%nat.
Proof.
  induction l as [|b l IH] using rev_ind; intros Hbody v.
  - exists v. unfold rows_min, rows_max. simpl. repeat split; lia.
  - destruct (IH (fun v p b0 H => Hbody v p b0 (lookup_app_l_Some _ _ _ _ H)) v)
      as (v1 & Hv1 & Hmin & Hmax).
    destruct (Hbody v1 (length l) b (list_lookup_middle _ _ _ _ eq_refl))
      as (b' & Hb' & Hbmin & Hbmax).
    rewrite imap_app, foldM_app, Hv1. cbn [bind imap foldM]. rewrite Nat.add_0_r, Hb'.
    cbn [bind]. eexists. split; [reflexivity|].
    unfold concatenate, rows_min, rows_max in *. cbn [b_min b_max].
    rewrite !length_app, !fmap_app, !sum_list_with_app. simpl. unfold id in *. lia.
Qed.

Lemma sum_list_pointwise {A B} (f : A -> nat) (g : B -> nat) (l : list A) :
  forall l' : list B,
    length l = length l' ->
    (forall i a b, l !! i = Some a -> l' !! i = Some b -> f a = g b) ->
    sum_list (f <$> l) = sum_list (g <$> l').
Proof.
  induction l as [|a l IH]; intros [|b l'] Hlen H; try discriminate; [reflexivity|].
  rewrite !fmap_cons. cbn [sum_list sum_list_with]. unfold id.
  rewrite (H 0%nat a b eq_refl eq_refl). f_equal.
  apply IH; [simpl in Hlen; lia|]. intros i x y Hx Hy. apply (H (S i)); assumption.
Qed.

(** The bounds of the parameters, scaled and added below. *)
Lemma parameters_loop (pool : list (parameter R)) :
  Forall (fun prm => length (prm_min prm) = length (prm_scaling prm) /\
                     length (prm_max prm) = length (prm_scaling prm)) pool ->
  forall v, exists v',
    foldM (fun v prm =>
             let! b := scale div (Bounds (prm_min prm) (prm_max prm)) (prm_scaling prm) in
             Ok (concatenate v b)) pool v = Ok v' /\
    length (b_min v') = (length (b_min v) + sum_list ((fun prm => length (prm_scaling prm)) <$> pool))%nat /\
    length (b_max v') = (length (b_max v) + sum_list ((fun prm => length (prm_scaling prm)) <$> pool))%nat.
Proof.
  induction 1 as [|prm pool [Hmin Hmax] _ IH]; intros v.
  - exists v. simpl. repeat split; lia.
  - cbn [foldM].
    destruct (scale_lengths (Bounds (prm_min prm) (prm_max prm)) (prm_scaling prm) Hmin Hmax)
      as (b' & -> & H1 & H2).
    cbn [bind]. destruct (IH (concatenate v b')) as (v' & -> & H3 & H4).
    exists v'. split; [reflexivity|]. rewrite H3, H4. unfold concatenate.
    cbn [b_min b_max] in *. rewrite !length_app, fmap_cons. cbn [sum_list sum_list_with].
    unfold id. lia.
Qed.

Lemma parameters_cx_length (pool : list (parameter R)) :
  Forall (fun prm => length (default [] (prm_cx prm)) = length (prm_scaling prm)) pool ->
  length (parameters_cx pool) = sum_list ((fun prm => length (prm_scaling prm)) <$> pool).
Proof.
  unfold parameters_cx. induction 1 as [|prm pool H _ IH]; [reflexivity|].
  rewrite !fmap_cons. cbn [concat]. rewrite length_app, H, IH. reflexivity.
Qed.

Lemma state_points_shooting (ph : nlp R) :
  is_direct_collocation (ode_solver ph) = false -> length (state_points ph) = (ns ph + 1)%nat.
Proof.
  intros Hs. unfold state_points.
  rewrite (length_concat_uniform 1).
  - rewrite length_fmap, length_seq. lia.
  - apply Forall_fmap, Forall_forall. intros k _. cbn [compose].
    unfold node_points, points_per_node. rewrite Hs, length_fmap, length_seq.
    now destruct (k =? ns ph)%nat.
Qed.

(** What the alignment of the views needs of phase [i]: user bounds of the
    sizes [nx[i]], [nu[i]], which are the numbers of states and controls of
    the phase; one scaling factor per state and per control; and controls
    that are linear exactly when those of the first phase are. *)
Definition fitted (nx nu : list nat) (first : nlp R) (i : nat) (ph : nlp R) : Prop :=
  bounded nx nu i ph /\
  nx !! i = Some (shape (states ph)) /\ nu !! i = Some (shape (controls ph)) /\
  length (x_scaling ph) = shape (states ph) /\
  length (u_scaling ph) = shape (controls ph) /\
  is_linear_continuous (control_type ph) = is_linear_continuous (control_type first).

(** A parameter whose symbol, scaling and bounds have one size. *)
Definition sized_parameter (prm : parameter R) : Prop :=
  length (default [] (prm_cx prm)) = length (prm_scaling prm) /\
  length (prm_min prm) = length (prm_scaling prm) /\
  length (prm_max prm) = length (prm_scaling prm).

Lemma fitted_state_rows (nx nu : list nat) (first : nlp R) (i : nat) (ph : nlp R) :
  fitted nx nu first i ph -> is_direct_collocation (ode_solver ph) = false ->
  length (b_min (state_blocks ph)) = (shape (states ph) * (ns ph + 1))%nat /\
  length (b_max (state_blocks ph)) = (shape (states ph) * (ns ph + 1))%nat.
Proof.
  intros ((n & m & Hn & _ & _ & _ & _ & _ & _ & Hmin & Hmax & _) & Hnx & _) Hs.
  rewrite Hn in Hnx. inversion Hnx; subst n.
  unfold state_blocks, blocks. cbn [b_min b_max].
  rewrite (blocks_length _ _ _ Hmin), (blocks_length _ _ _ Hmax), state_points_shooting by exact Hs.
  lia.
Qed.

Lemma fitted_control_rows (nx nu : list nat) (first : nlp R) (i : nat) (ph : nlp R) :
  fitted nx nu first i ph ->
  length (b_min (control_blocks_of ph)) = (shape (controls ph) * control_nodes ph)%nat /\
  length (b_max (control_blocks_of ph)) = (shape (controls ph) * control_nodes ph)%nat.
Proof.
  intros ((n & m & _ & Hm & _ & _ & _ & _ & _ & _ & _ & Hmin & Hmax) & _ & Hnu & _).
  rewrite Hm in Hnu. inversion Hnu; subst m.
  unfold control_blocks_of, blocks. cbn [b_min b_max].
  rewrite (blocks_length _ _ _ Hmin), (blocks_length _ _ _ Hmax), length_seq. lia.
Qed.

(** X18.  A direct-shooting problem without node mapping, declared with
    [define_ocp_shooting_points] and bounded with [define_ocp_bounds]: when
    the user bounds and the scaling factors have the sizes of the states
    and controls, every phase has controls of the kind of the first one and
    the parameters come with bounds of their size, the views [vector] and
    [bounds] both return and [bounds.min] and [bounds.max] have exactly one
    row per row of [vector]. *)
Theorem shooting_views_aligned_lengths (self : t R) (ocp : list (nlp R)) (first : nlp R)
    (nx nu : list nat) :
  ocp !! 0%nat = Some first ->
  Forall plain ocp -> Forall direct_shooting ocp ->
  instance_of_collocation (ode_solver first) && negb (instance_of_irk (ode_solver first))
  = false ->
  length (x_scaled self) = length ocp -> length (n_phase_x self) = length ocp ->
  length (u_scaled self) = length ocp -> length (n_phase_u self) = length ocp ->
  length (x_bounds self) = length ocp -> length (u_bounds self) = length ocp ->
  (forall i ph, ocp !! i = Some ph -> fitted nx nu first i ph) ->
  Forall sized_parameter (parameters_in_list self) ->
  exists declared ocp' bounded_self v b,
    define_ocp_shooting_points self ocp = Ok (declared, ocp') /\
    define_ocp_bounds zero declared ocp' nx nu = Ok bounded_self /\
    vector bounded_self ocp' = Ok v /\
    bounds div bounded_self ocp' = Ok b /\
    length (b_min b) = length v /\ length (b_max b) = length v.
Proof.
  intros H0 Hp Hsh Hcol L1 L2 L3 L4 L5 L6 Hfit Hpool.
  destruct (plain_views self ocp Hp Hsh L1 L2 L3 L4)
    as (d & ocp' & v & Hocp & Hdef & Hv & Hveq & Hxl & Hul & _ & _ & Hax & Hau & Hpar & Hxb & Hub
        & _).
  assert (Hlen : length ocp' = length ocp) by (rewrite Hocp; apply length_imap).
  assert (Hsame : forall p q', ocp' !! p = Some q' ->
            exists q, ocp !! p = Some q /\
                      q' = plain_phase q p (plain_rank (symbols self) ocp p)).
  { intros p q' Hq'. rewrite Hocp, list_lookup_imap in Hq'.
    destruct (ocp !! p) as [q|]; [|discriminate]. exists q. split; [reflexivity|].
    now inversion Hq'. }
  assert (Hfit' : forall i q', ocp' !! i = Some q' -> fitted nx nu first i q').
  { intros i q' Hq'. destruct (Hsame i q' Hq') as (q & Hq & ->). exact (Hfit i q Hq). }
  assert (Hsh' : forall i q', ocp' !! i = Some q' ->
            is_direct_collocation (ode_solver q') = false).
  { intros i q' Hq'. destruct (Hsame i q' Hq') as (q & Hq & ->).
    rewrite List.Forall_forall in Hsh. apply (Hsh q).
    apply list_elem_of_In, list_elem_of_lookup. eauto. }
  set (B := Build (parameters_in_list d) (x_scaled d) (state_blocks <$> ocp')
                  (n_all_x d) (n_phase_x d) (u_scaled d) (control_blocks_of <$> ocp')
                  (n_all_u d) (n_phase_u d) (symbols d)).
  assert (HB : define_ocp_bounds zero d ocp' nx nu = Ok B).
  { unfold define_ocp_bounds.
    rewrite check_phases by (intros i q' Hq'; exact (proj1 (Hfit' i q' Hq'))).
    cbn [bind].
    rewrite bound_phases
      by (try (rewrite ?Hxb, ?Hub; lia); intros i q' Hq'; exact (proj1 (Hfit' i q' Hq'))).
    rewrite !drop_ge, !app_nil_r by (rewrite ?Hxb, ?Hub; lia). reflexivity. }
  assert (HvB : vector B ocp' = Ok v).
  { rewrite <- Hv. apply vector_reads; reflexivity. }
  destruct (Hsame 0%nat (plain_phase first 0 (plain_rank (symbols self) ocp 0))) as (_ & _ & _).
  { rewrite Hocp, list_lookup_imap, H0. reflexivity. }
  assert (Hfirst : py_get ocp' 0 = Ok (plain_phase first 0 (plain_rank (symbols self) ocp 0))).
  { apply (py_get_nat ocp' 0). rewrite Hocp, list_lookup_imap, H0. reflexivity. }
  assert (Hxrows : rows_min (state_blocks <$> ocp')
                   = sum_list ((fun ph => shape (states ph) * (ns ph + 1))%nat <$> ocp) /\
                   rows_max (state_blocks <$> ocp')
                   = sum_list ((fun ph => shape (states ph) * (ns ph + 1))%nat <$> ocp)).
  { unfold rows_min, rows_max. rewrite <- !list_fmap_compose. split.
    - apply sum_list_pointwise; [exact Hlen|]. intros i q' q Hq' Hq. cbn [compose].
      destruct (Hsame i q' Hq') as (q0 & Hq0 & Eq). rewrite Hq in Hq0. inversion Hq0; subst q0.
      rewrite (proj1 (fitted_state_rows nx nu first i q' (Hfit' i q' Hq') (Hsh' i q' Hq'))).
      rewrite Eq. reflexivity.
    - apply sum_list_pointwise; [exact Hlen|]. intros i q' q Hq' Hq. cbn [compose].
      destruct (Hsame i q' Hq') as (q0 & Hq0 & Eq). rewrite Hq in Hq0. inversion Hq0; subst q0.
      rewrite (proj2 (fitted_state_rows nx nu first i q' (Hfit' i q' Hq') (Hsh' i q' Hq'))).
      rewrite Eq. reflexivity. }
  assert (Hurows : rows_min (control_blocks_of <$> ocp')
                   = sum_list ((fun ph => shape (controls ph) * control_nodes ph)%nat <$> ocp) /\
                   rows_max (control_blocks_of <$> ocp')
                   = sum_list ((fun ph => shape (controls ph) * control_nodes ph)%nat <$> ocp)).
  { unfold rows_min, rows_max. rewrite <- !list_fmap_compose. split.
    - apply sum_list_pointwise; [exact Hlen|]. intros i q' q Hq' Hq. cbn [compose].
      destruct (Hsame i q' Hq') as (q0 & Hq0 & Eq). rewrite Hq in Hq0. inversion Hq0; subst q0.
      rewrite (proj1 (fitted_control_rows nx nu first i q' (Hfit' i q' Hq'))).
      rewrite Eq. reflexivity.
    - apply sum_list_pointwise; [exact Hlen|]. intros i q' q Hq' Hq. cbn [compose].
      destruct (Hsame i q' Hq') as (q0 & Hq0 & Eq). rewrite Hq in Hq0. inversion Hq0; subst q0.
      rewrite (proj2 (fitted_control_rows nx nu first i q' (Hfit' i q' Hq'))).
      rewrite Eq. reflexivity. }
  assert (Hvlen : length v
                  = (sum_list ((fun ph => shape (states ph) * (ns ph + 1))%nat <$> ocp)
                     + sum_list ((fun ph => shape (controls ph) * control_nodes ph)%nat <$> ocp)
                     + sum_list ((fun prm => length (prm_scaling prm))
                                   <$> parameters_in_list self))%nat).
  { rewrite Hveq, !length_app.
    rewrite parameters_cx_length
      by (eapply List.Forall_impl; [|exact Hpool]; intros prm (H & _); exact H).
    rewrite Hax in Hxl. rewrite Hau in Hul.
    unfold count_x in Hxl. unfold count_u in Hul.
    rewrite (sum_Z_of_nat (fun ph => shape (states ph) * (ns ph + 1))%nat) in Hxl.
    rewrite (sum_Z_of_nat (fun ph => shape (controls ph) * control_nodes ph)%nat) in Hul.
    lia. }
  assert (Hb : exists b, bounds div B ocp' = Ok b /\
                         length (b_min b) = length v /\ length (b_max b) = length v).
  { unfold bounds. rewrite Hfirst. cbn [bind plain_phase ode_solver control_type].
    rewrite Hcol. unfold B at 1 2 3. cbn [x_bounds u_bounds parameters_in_list].
    match goal with
    | |- context [foldM ?f (imap pair (state_blocks <$> ocp')) ?v0] =>
        destruct (concatenate_loop f (state_blocks <$> ocp')) with (v := v0)
          as (v1 & Hv1 & Hm1 & HM1)
    end.
    { intros w p b Hb. rewrite list_lookup_fmap in Hb.
      destruct (ocp' !! p) as [q'|] eqn:Hq'; [|discriminate]. inversion Hb; subst b.
      rewrite (py_get_nat _ _ _ Hq'). cbn [bind].
      destruct (fitted_state_rows nx nu first p q' (Hfit' p q' Hq') (Hsh' p q' Hq'))
        as [Emin Emax].
      destruct (Hfit' p q' Hq') as (_ & _ & _ & Hsx & _).
      destruct (scale_lengths (state_blocks q') (to_vector (x_scaling q') (ns q' * 1 + 1)))
        as (b' & -> & H1 & H2).
      - rewrite Emin, to_vector_length, Hsx. lia.
      - rewrite Emax, to_vector_length, Hsx. lia.
      - exists b'. repeat split; assumption. }
    rewrite Hv1. cbn [bind].
    match goal with
    | |- context [foldM ?f (imap pair (control_blocks_of <$> ocp')) ?v0] =>
        destruct (concatenate_loop f (control_blocks_of <$> ocp')) with (v := v0)
          as (v2 & Hv2 & Hm2 & HM2)
    end.
    { intros w p b Hb. rewrite list_lookup_fmap in Hb.
      destruct (ocp' !! p) as [q'|] eqn:Hq'; [|discriminate]. inversion Hb; subst b.
      rewrite (py_get_nat _ _ _ Hq'). cbn [bind].
      destruct (fitted_control_rows nx nu first p q' (Hfit' p q' Hq')) as [Emin Emax].
      destruct (Hfit' p q' Hq') as ((n & m & _ & _ & _ & _ & _ & _ & Hct & _)
                                    & _ & _ & _ & Hsu & Hlin).
      assert (Hn : (if is_linear_continuous (control_type first)
                    then (ns q' + 1)%nat else ns q') = control_nodes q').
      { rewrite <- Hlin. unfold control_nodes.
        destruct (control_type q'); simpl; try reflexivity. congruence. }
      rewrite Hn.
      destruct (scale_lengths (control_blocks_of q') (to_vector (u_scaling q') (control_nodes q')))
        as (b' & -> & H1 & H2).
      - rewrite Emin, to_vector_length, Hsu. lia.
      - rewrite Emax, to_vector_length, Hsu. lia.
      - exists b'. repeat split; assumption. }
    rewrite Hv2. cbn [bind]. rewrite Hpar.
    destruct (parameters_loop (parameters_in_list self)) with (v := v2)
      as (v3 & Hv3 & Hm3 & HM3).
    { eapply List.Forall_impl; [|exact Hpool]. intros prm (_ & H1 & H2). split; assumption. }
    exists v3. split; [exact Hv3|].
    destruct Hxrows as [X1 X2]. destruct Hurows as [U1 U2].
    cbn [b_min b_max length] in Hm1, HM1. rewrite Hvlen. lia. }
  destruct Hb as (b & Hb & Hbmin & Hbmax).
  exists d, ocp', B, v, b. repeat (apply conj); auto.
Qed.

End AlignedViews.

Lemma shooting_views_aligned_lengths_witness :
  exists declared ocp' bounded_self v b,
    OptimizationVector.define_ocp_shooting_points (OptimizationVector.init 2 0)
      Aligned.problem = Ok (declared, ocp') /\
    OptimizationVector.define_ocp_bounds 0 declared ocp' [2; 1]%nat [1; 1]%nat
    = Ok bounded_self /\
    OptimizationVector.vector bounded_self ocp' = Ok v /\
    OptimizationVector.bounds Z.div bounded_self ocp' = Ok b /\
    length (OptimizationVector.b_min b) = length v /\
    length (OptimizationVector.b_max b) = length v.
Proof.
  apply (shooting_views_aligned_lengths 0 Z.div (OptimizationVector.init 2 0) Aligned.problem
           (Scenario.phase Scenario.shooting 2 2 1 []) [2; 1]%nat [1; 1]%nat);
    try reflexivity.
  - repeat constructor; simpl; try lia; discriminate.
  - repeat constructor.
  - intros i ph Hi.
    destruct i as [|[|i]]; [| |discriminate]; inversion Hi; subst ph.
    + split; [exists 2%nat, 1%nat|]; repeat split; try reflexivity. discriminate.
    + split; [exists 1%nat, 1%nat|]; repeat split; try reflexivity. discriminate.
  - constructor.
Defined.

(** In that problem the three views have 11 rows. *)
Example shooting_views_aligned_two_phases :
  Scenario.lengths Aligned.problem [2; 1]%nat [1; 1]%nat = Ok (11%nat, 11%nat, 11%nat).
Proof. vm_compute. reflexivity. Qed.
